(** * agent/system_metrics.go: the system metrics collector

    A shallow embedding of [systemMetricsCollector]: option validation and
    construction as pure functions, and the running collector (the caller's
    [Start]/[Close], one [timedCollect] goroutine per metric, the
    [closeOnCancel] goroutine) as an executable small-step interleaving
    semantics driven by an explicit schedule. The stats helpers that
    follow the collector in the same source file (pagination constraints,
    date buckets, running an aggregation) are embedded in module [stats]. *)

From Stdlib Require Import ZArith Lia.
From Stdlib.Strings Require Import Byte.
From stdpp Require Import base list strings gmap.

Local Open Scope string_scope.
Local Open Scope list_scope.
Local Open Scope Z_scope.

(** ** Errors (pkg/errors, grip) *)

(** A Go [error] value is [option error]; [None] is [nil]. *)
#[warnings="-register-all"]
Inductive error : Type :=
| ErrNew (msg : string)                    (* errors.New *)
| ErrWrap (cause : error) (msg : string)   (* errors.Wrap / errors.Wrapf *)
| ErrPanic (p : string)                    (* recovery: error made of a panic value *)
| ErrMulti (errs : list error).            (* grip.Catcher.Resolve *)

(** [errors.Wrap] returns nil when its argument is nil. *)
Definition Wrap (err : option error) (msg : string) : option error :=
  match err with
  | Some e => Some (ErrWrap e msg)
  | None => None
  end.

(** [recovery.HandlePanicWithError(p, nil, ...)]: nil unless a panic value
    was recovered. *)
Definition HandlePanicWithError (p : option string) : option error :=
  match p with
  | Some v => Some (ErrPanic v)
  | None => None
  end.

(** [grip.Catcher]: an append-only collection; adding nil does nothing. *)
Definition Catcher := list error.

Definition catcher_Add (c : Catcher) (err : option error) : Catcher :=
  match err with
  | Some e => c ++ [e]
  | None => c
  end.

Definition HasErrors (c : Catcher) : bool :=
  match c with
  | [] => false
  | _ :: _ => true
  end.

Definition Resolve (c : Catcher) : option error :=
  match c with
  | [] => None
  | _ :: _ => Some (ErrMulti c)
  end.

(** ** Data formats *)

(** [type dataFormat int32] *)
Definition dataFormat := Z.

Definition dataFormatText : dataFormat := 0.
Definition dataFormatFTDC : dataFormat := 1.
Definition dataFormatBSON : dataFormat := 2.
Definition dataFormatJSON : dataFormat := 3.
Definition dataFormatCSV : dataFormat := 4.

Definition dataFormat_validate (f : dataFormat) : option error :=
  if (f =? dataFormatText) || (f =? dataFormatFTDC) || (f =? dataFormatBSON)
     || (f =? dataFormatJSON) || (f =? dataFormatCSV)
  then None
  else Some (ErrNew "invalid schema type specified").

(** ** Metric collectors *)

(** What a call into a collaborator can do: return a value, return an
    error, or panic. *)
Inductive outcome (A : Type) : Type :=
| Ret (a : A)
| Fail (e : error)
| Panic (p : string).
Arguments Ret {A} a.
Arguments Fail {A} e.
Arguments Panic {A} p.

Definition payload := list byte.

(** The [metricCollector] interface. [Collect] is stateful in the source;
    here it is given by the result of its k-th invocation. *)
Record metricCollector : Type := {
  Name : string;
  Format : dataFormat;
  Collect : nat -> outcome payload;
}.

(** ** Options *)

(** The fields of [task.Task] that [getSystemMetricsInfo] reads;
    [IsPatchRequest] stands for the result of the method of that name. *)
Record Task : Type := {
  Project : string;
  Version : string;
  BuildVariant : string;
  DisplayName : string;
  Id : string;
  Execution : Z;
  IsPatchRequest : bool;
}.

Record BuildloggerInfo : Type := {
  BaseURL : string;
  RPCPort : string;
  Username : string;
  Password : string;
  APIKey : string;
}.

(** [client.Communicator], as far as this file uses it. *)
Record Communicator : Type := {
  GetBuildloggerInfo : BuildloggerInfo * option error;
}.

(** [*grpc.ClientConn], opaque. *)
Record ClientConn : Type := { conn_target : string }.

Record systemMetricsCollectorOptions : Type := {
  opt_Task : option Task;
  opt_Interval : Z;
  opt_Collectors : list metricCollector;
  opt_Comm : option Communicator;
  opt_Conn : option ClientConn;
  opt_MaxBufferSize : Z;
  opt_NoBufferTimedFlush : bool;
  opt_BufferTimedFlushInterval : Z;
}.

(** [time.Minute], in nanoseconds. *)
Definition time_Minute : Z := 60 * 1000000000.

Definition set_Interval (v : Z) (s : systemMetricsCollectorOptions) :=
  {| opt_Task := opt_Task s; opt_Interval := v;
     opt_Collectors := opt_Collectors s; opt_Comm := opt_Comm s;
     opt_Conn := opt_Conn s; opt_MaxBufferSize := opt_MaxBufferSize s;
     opt_NoBufferTimedFlush := opt_NoBufferTimedFlush s;
     opt_BufferTimedFlushInterval := opt_BufferTimedFlushInterval s |}.

(** [validate] writes the default interval into the options it checks, so
    it returns the options along with the error. *)
Definition systemMetricsCollectorOptions_validate
    (s : systemMetricsCollectorOptions)
  : systemMetricsCollectorOptions * option error :=
  match opt_Task s with
  | None => (s, Some (ErrNew "must provide a valid task"))
  | Some _ =>
    if opt_Interval s <? 0 then
      (s, Some (ErrNew "interval cannot be negative"))
    else
      let s := if opt_Interval s =? 0 then set_Interval time_Minute s else s in
      if (length (opt_Collectors s) =? 0)%nat then
        (s, Some (ErrNew "must provide at least one metricCollector"))
      else if match opt_Comm s, opt_Conn s with
              | None, None => true
              | Some _, Some _ => true
              | _, _ => false
              end then
        (s, Some (ErrNew
          "must provide either a communicator or an existing client connection"))
      else if opt_BufferTimedFlushInterval s <? 0 then
        (s, Some (ErrNew "flush interval must not be negative"))
      else if opt_MaxBufferSize s <? 0 then
        (s, Some (ErrNew "buffer size must not be negative"))
      else (s, None)
  end.

(** ** Construction *)

Inductive CompressionType : Type := CompressionTypeNone.
Inductive SchemaType : Type := SchemaTypeRawEvents.

Record SystemMetricsOptions : Type := {
  smo_Project : string;
  smo_Version : string;
  smo_Variant : string;
  smo_TaskName : string;
  smo_TaskId : string;
  smo_Execution : Z;
  smo_Mainline : bool;
  smo_Compression : CompressionType;
  smo_Schema : SchemaType;
}.

Record StreamOpts : Type := {
  FlushInterval : Z;
  NoTimedFlush : bool;
  MaxBufferSize : Z;
}.

(** The conversion [int32(x)]. *)
Definition int32 (x : Z) : Z := (x + 2^31) mod 2^32 - 2^31.

Definition getSystemMetricsInfo (t : Task) : SystemMetricsOptions :=
  {| smo_Project := Project t;
     smo_Version := Version t;
     smo_Variant := BuildVariant t;
     smo_TaskName := DisplayName t;
     smo_TaskId := Id t;
     smo_Execution := int32 (Execution t);
     smo_Mainline := negb (IsPatchRequest t);
     smo_Compression := CompressionTypeNone;
     smo_Schema := SchemaTypeRawEvents |}.

Record DialCedarOptions : Type := {
  dial_BaseAddress : string;
  dial_RPCPort : string;
  dial_Username : string;
  dial_Password : string;
  dial_APIKey : string;
  dial_Retries : Z;
}.

(** A [*metrics.SystemMetricsClient] remembers how it was obtained. *)
Inductive SystemMetricsClient : Type :=
| ClientDialed (o : DialCedarOptions)
| ClientOnConn (c : ClientConn).

(** The timber package's two constructors; each may fail. *)
Record dialer : Type := {
  NewSystemMetricsClient : DialCedarOptions -> option error;
  NewSystemMetricsClientWithExistingConnection : ClientConn -> option error;
}.

(** Calls that reach outside the process while a collector is built. *)
Inductive acquisition : Type :=
| AcqBuildloggerInfo
| AcqDial (o : DialCedarOptions)
| AcqExistingConn (c : ClientConn).

(** The immutable part of [systemMetricsCollector]; the fields that change
    while it runs are in [state] below. *)
Record systemMetricsCollector : Type := {
  taskOpts : SystemMetricsOptions;
  streamOpts : StreamOpts;
  interval : Z;
  collectors : list metricCollector;
  client : option SystemMetricsClient;
}.

(** Returns the client (or nil), the error, and the outside calls made. *)
Definition setupCedarClient (d : dialer) (c : Communicator)
  : option SystemMetricsClient * option error * list acquisition :=
  match GetBuildloggerInfo c with
  | (_, Some e) =>
      (None, Wrap (Some e) "error getting cedar dial options",
       [AcqBuildloggerInfo])
  | (bi, None) =>
      let dialOpts :=
        {| dial_BaseAddress := BaseURL bi; dial_RPCPort := RPCPort bi;
           dial_Username := Username bi; dial_Password := Password bi;
           dial_APIKey := APIKey bi; dial_Retries := 10 |} in
      match NewSystemMetricsClient d dialOpts with
      | Some e =>
          (None, Wrap (Some e) "problem creating new system metrics client",
           [AcqBuildloggerInfo; AcqDial dialOpts])
      | None =>
          (Some (ClientDialed dialOpts), None,
           [AcqBuildloggerInfo; AcqDial dialOpts])
      end
  end.

Definition newSystemMetricsCollector (d : dialer)
    (opts : systemMetricsCollectorOptions)
  : option systemMetricsCollector * option error * list acquisition :=
  match systemMetricsCollectorOptions_validate opts with
  | (_, Some err) => (None, Wrap (Some err) "invalid options", [])
  | (opts, None) =>
    match opt_Task opts with
    | None =>
      (* not reached: validate has just required the task *)
      (None, Some (ErrPanic "nil pointer dereference"), [])
    | Some t =>
      let mk cl :=
        {| taskOpts := getSystemMetricsInfo t;
           streamOpts :=
             {| FlushInterval := opt_BufferTimedFlushInterval opts;
                NoTimedFlush := opt_NoBufferTimedFlush opts;
                MaxBufferSize := opt_MaxBufferSize opts |};
           interval := opt_Interval opts;
           collectors := opt_Collectors opts;
           client := cl |} in
      let '(cl, err, acq) :=
        match opt_Comm opts with
        | Some comm => setupCedarClient d comm
        | None =>
          match opt_Conn opts with
          | Some conn =>
            match NewSystemMetricsClientWithExistingConnection d conn with
            | Some e => (None, Some e, [AcqExistingConn conn])
            | None => (Some (ClientOnConn conn), None, [AcqExistingConn conn])
            end
          | None =>
            (* NewSystemMetricsClientWithExistingConnection rejects nil *)
            (None, Some (ErrNew "must provide an existing client connection"), [])
          end
        end in
      match err with
      | Some e =>
          (None, Wrap (Some e) "problem creating new system metrics client", acq)
      | None => (Some (mk cl), None, acq)
      end
    end
  end.

(** ** The remote client and the running collector *)

Record MetricDataOpts : Type := {
  mdo_Id : string;
  mdo_MetricType : string;
  mdo_Format : dataFormat;
}.

(** How the remote side answers. Streams are told apart by the position of
    their collector in [collectors]; [stream_Write i k] is the result of
    the k-th [Write] on stream [i]. *)
Record world : Type := {
  CreateSystemMetricsRecord : SystemMetricsOptions -> string * option error;
  StreamSystemMetrics : nat -> option error;
  stream_Write : nat -> nat -> outcome unit;
  stream_Close : nat -> option error;
  CloseSystemMetrics : string -> bool -> option error;
  CloseClient : option error;
}.

(** Program points of [timedCollect]. *)
Inductive sup_pc : Type :=
| SInit                       (* launched; about to create its timer *)
| SLoop                       (* at the select *)
| SWrite (data : payload)     (* Collect returned data; about to Write *)
| SDefer (p : option string)  (* left the loop by return or by panic *)
| SClosed                     (* stream closed; about to call s.stream.Done *)
| SDone.                      (* returned *)

Record sup : Type := {
  spc : sup_pc;   (* where the goroutine stands *)
  timer : option Z;   (* Some d: armed to fire at d (fired once d <= now); None: stopped or drained *)
  ncollect : nat;   (* Collect invocations so far *)
  writes : list payload;   (* arguments of stream.Write so far *)
  collected_at : list Z;   (* times of the Collect invocations, latest first *)
  stream_closes : nat;   (* stream.Close invocations so far *)
}.

Definition set_spc (v : sup_pc) (s : sup) : sup :=
  {| spc := v; timer := timer s; ncollect := ncollect s; writes := writes s;
     collected_at := collected_at s; stream_closes := stream_closes s |}.

Definition set_timer (v : option Z) (s : sup) : sup :=
  {| spc := spc s; timer := v; ncollect := ncollect s; writes := writes s;
     collected_at := collected_at s; stream_closes := stream_closes s |}.

Definition set_ncollect (v : nat) (s : sup) : sup :=
  {| spc := spc s; timer := timer s; ncollect := v; writes := writes s;
     collected_at := collected_at s; stream_closes := stream_closes s |}.

Definition set_writes (v : list payload) (s : sup) : sup :=
  {| spc := spc s; timer := timer s; ncollect := ncollect s; writes := v;
     collected_at := collected_at s; stream_closes := stream_closes s |}.

Definition set_collected_at (v : list Z) (s : sup) : sup :=
  {| spc := spc s; timer := timer s; ncollect := ncollect s; writes :=
     writes s; collected_at := v; stream_closes := stream_closes s |}.

Definition set_stream_closes (v : nat) (s : sup) : sup :=
  {| spc := spc s; timer := timer s; ncollect := ncollect s; writes :=
     writes s; collected_at := collected_at s; stream_closes := v |}.

(** Program points of [closeOnCancel]; the flag tells which case of its
    select was taken ([true]: the outer context's). *)
Inductive watcher_pc : Type :=
| WNone                       (* not launched *)
| WSelect                     (* at the select *)
| WWait (outer : bool)        (* cleanup: at s.stream.Wait *)
| WBody (outer : bool)        (* cleanup: about to take s.mu *)
| WAfter (outer : bool)       (* cleanup returned *)
| WDone.                      (* returned, s.close.Done called *)

(** Program points of the caller. *)
Inductive main_pc : Type :=
| MNew                        (* Start not called yet *)
| MStartLoop (k : nat)        (* Start: about to open the stream of collector k *)
| MIdle                       (* Start has returned; no call in progress *)
| MCloseCancel                (* Close: about to call s.streamingCancel *)
| MCloseWait.                 (* Close: at s.close.Wait *)

Inductive call : Type := CallStart | CallClose.

Record state : Type := {
  closed : bool;   (* s.closed *)
  id : string;   (* s.id *)
  streamingCancel : bool;   (* s.streamingCancel; false is nil *)
  catcher : Catcher;   (* s.catcher *)
  stream_wg : Z;   (* counter of the wait group s.stream *)
  close_wg : Z;   (* counter of the wait group s.close *)
  outer_done : bool;   (* the context given to Start is cancelled *)
  streaming : option bool;   (* streamingCtx: not derived yet, or whether it is cancelled *)
  now : Z;   (* the clock *)
  main : main_pc;   (* the caller *)
  sups : list sup;   (* the timedCollect goroutines, in launch order *)
  watcher : watcher_pc;   (* the closeOnCancel goroutine *)
  panicked : bool;   (* an unrecovered panic has ended the process *)
  created : list SystemMetricsOptions;   (* CreateSystemMetricsRecord calls *)
  opened : list MetricDataOpts;   (* StreamSystemMetrics calls *)
  session_closes : list (string * bool);   (* CloseSystemMetrics calls *)
  client_closes : nat;   (* CloseClient calls *)
  logged : list (option error);   (* arguments of grip.Error *)
  returns : list (call * option error);   (* what Start and Close returned *)
}.

Definition set_closed (v : bool) (s : state) : state :=
  {| closed := v; id := id s; streamingCancel := streamingCancel s; catcher
     := catcher s; stream_wg := stream_wg s; close_wg := close_wg s;
     outer_done := outer_done s; streaming := streaming s; now := now s;
     main := main s; sups := sups s; watcher := watcher s; panicked :=
     panicked s; created := created s; opened := opened s; session_closes :=
     session_closes s; client_closes := client_closes s; logged := logged s;
     returns := returns s |}.

Definition set_id (v : string) (s : state) : state :=
  {| closed := closed s; id := v; streamingCancel := streamingCancel s;
     catcher := catcher s; stream_wg := stream_wg s; close_wg := close_wg s;
     outer_done := outer_done s; streaming := streaming s; now := now s;
     main := main s; sups := sups s; watcher := watcher s; panicked :=
     panicked s; created := created s; opened := opened s; session_closes :=
     session_closes s; client_closes := client_closes s; logged := logged s;
     returns := returns s |}.

Definition set_streamingCancel (v : bool) (s : state) : state :=
  {| closed := closed s; id := id s; streamingCancel := v; catcher :=
     catcher s; stream_wg := stream_wg s; close_wg := close_wg s; outer_done
     := outer_done s; streaming := streaming s; now := now s; main := main
     s; sups := sups s; watcher := watcher s; panicked := panicked s;
     created := created s; opened := opened s; session_closes :=
     session_closes s; client_closes := client_closes s; logged := logged s;
     returns := returns s |}.

Definition set_catcher (v : Catcher) (s : state) : state :=
  {| closed := closed s; id := id s; streamingCancel := streamingCancel s;
     catcher := v; stream_wg := stream_wg s; close_wg := close_wg s;
     outer_done := outer_done s; streaming := streaming s; now := now s;
     main := main s; sups := sups s; watcher := watcher s; panicked :=
     panicked s; created := created s; opened := opened s; session_closes :=
     session_closes s; client_closes := client_closes s; logged := logged s;
     returns := returns s |}.

Definition set_stream_wg (v : Z) (s : state) : state :=
  {| closed := closed s; id := id s; streamingCancel := streamingCancel s;
     catcher := catcher s; stream_wg := v; close_wg := close_wg s;
     outer_done := outer_done s; streaming := streaming s; now := now s;
     main := main s; sups := sups s; watcher := watcher s; panicked :=
     panicked s; created := created s; opened := opened s; session_closes :=
     session_closes s; client_closes := client_closes s; logged := logged s;
     returns := returns s |}.

Definition set_close_wg (v : Z) (s : state) : state :=
  {| closed := closed s; id := id s; streamingCancel := streamingCancel s;
     catcher := catcher s; stream_wg := stream_wg s; close_wg := v;
     outer_done := outer_done s; streaming := streaming s; now := now s;
     main := main s; sups := sups s; watcher := watcher s; panicked :=
     panicked s; created := created s; opened := opened s; session_closes :=
     session_closes s; client_closes := client_closes s; logged := logged s;
     returns := returns s |}.

Definition set_outer_done (v : bool) (s : state) : state :=
  {| closed := closed s; id := id s; streamingCancel := streamingCancel s;
     catcher := catcher s; stream_wg := stream_wg s; close_wg := close_wg s;
     outer_done := v; streaming := streaming s; now := now s; main := main
     s; sups := sups s; watcher := watcher s; panicked := panicked s;
     created := created s; opened := opened s; session_closes :=
     session_closes s; client_closes := client_closes s; logged := logged s;
     returns := returns s |}.

Definition set_streaming (v : option bool) (s : state) : state :=
  {| closed := closed s; id := id s; streamingCancel := streamingCancel s;
     catcher := catcher s; stream_wg := stream_wg s; close_wg := close_wg s;
     outer_done := outer_done s; streaming := v; now := now s; main := main
     s; sups := sups s; watcher := watcher s; panicked := panicked s;
     created := created s; opened := opened s; session_closes :=
     session_closes s; client_closes := client_closes s; logged := logged s;
     returns := returns s |}.

Definition set_now (v : Z) (s : state) : state :=
  {| closed := closed s; id := id s; streamingCancel := streamingCancel s;
     catcher := catcher s; stream_wg := stream_wg s; close_wg := close_wg s;
     outer_done := outer_done s; streaming := streaming s; now := v; main :=
     main s; sups := sups s; watcher := watcher s; panicked := panicked s;
     created := created s; opened := opened s; session_closes :=
     session_closes s; client_closes := client_closes s; logged := logged s;
     returns := returns s |}.

Definition set_main (v : main_pc) (s : state) : state :=
  {| closed := closed s; id := id s; streamingCancel := streamingCancel s;
     catcher := catcher s; stream_wg := stream_wg s; close_wg := close_wg s;
     outer_done := outer_done s; streaming := streaming s; now := now s;
     main := v; sups := sups s; watcher := watcher s; panicked := panicked
     s; created := created s; opened := opened s; session_closes :=
     session_closes s; client_closes := client_closes s; logged := logged s;
     returns := returns s |}.

Definition set_sups (v : list sup) (s : state) : state :=
  {| closed := closed s; id := id s; streamingCancel := streamingCancel s;
     catcher := catcher s; stream_wg := stream_wg s; close_wg := close_wg s;
     outer_done := outer_done s; streaming := streaming s; now := now s;
     main := main s; sups := v; watcher := watcher s; panicked := panicked
     s; created := created s; opened := opened s; session_closes :=
     session_closes s; client_closes := client_closes s; logged := logged s;
     returns := returns s |}.

Definition set_watcher (v : watcher_pc) (s : state) : state :=
  {| closed := closed s; id := id s; streamingCancel := streamingCancel s;
     catcher := catcher s; stream_wg := stream_wg s; close_wg := close_wg s;
     outer_done := outer_done s; streaming := streaming s; now := now s;
     main := main s; sups := sups s; watcher := v; panicked := panicked s;
     created := created s; opened := opened s; session_closes :=
     session_closes s; client_closes := client_closes s; logged := logged s;
     returns := returns s |}.

Definition set_panicked (v : bool) (s : state) : state :=
  {| closed := closed s; id := id s; streamingCancel := streamingCancel s;
     catcher := catcher s; stream_wg := stream_wg s; close_wg := close_wg s;
     outer_done := outer_done s; streaming := streaming s; now := now s;
     main := main s; sups := sups s; watcher := watcher s; panicked := v;
     created := created s; opened := opened s; session_closes :=
     session_closes s; client_closes := client_closes s; logged := logged s;
     returns := returns s |}.

Definition set_created (v : list SystemMetricsOptions) (s : state) : state :=
  {| closed := closed s; id := id s; streamingCancel := streamingCancel s;
     catcher := catcher s; stream_wg := stream_wg s; close_wg := close_wg s;
     outer_done := outer_done s; streaming := streaming s; now := now s;
     main := main s; sups := sups s; watcher := watcher s; panicked :=
     panicked s; created := v; opened := opened s; session_closes :=
     session_closes s; client_closes := client_closes s; logged := logged s;
     returns := returns s |}.

Definition set_opened (v : list MetricDataOpts) (s : state) : state :=
  {| closed := closed s; id := id s; streamingCancel := streamingCancel s;
     catcher := catcher s; stream_wg := stream_wg s; close_wg := close_wg s;
     outer_done := outer_done s; streaming := streaming s; now := now s;
     main := main s; sups := sups s; watcher := watcher s; panicked :=
     panicked s; created := created s; opened := v; session_closes :=
     session_closes s; client_closes := client_closes s; logged := logged s;
     returns := returns s |}.

Definition set_session_closes (v : list (string * bool)) (s : state) : state :=
  {| closed := closed s; id := id s; streamingCancel := streamingCancel s;
     catcher := catcher s; stream_wg := stream_wg s; close_wg := close_wg s;
     outer_done := outer_done s; streaming := streaming s; now := now s;
     main := main s; sups := sups s; watcher := watcher s; panicked :=
     panicked s; created := created s; opened := opened s; session_closes :=
     v; client_closes := client_closes s; logged := logged s; returns :=
     returns s |}.

Definition set_client_closes (v : nat) (s : state) : state :=
  {| closed := closed s; id := id s; streamingCancel := streamingCancel s;
     catcher := catcher s; stream_wg := stream_wg s; close_wg := close_wg s;
     outer_done := outer_done s; streaming := streaming s; now := now s;
     main := main s; sups := sups s; watcher := watcher s; panicked :=
     panicked s; created := created s; opened := opened s; session_closes :=
     session_closes s; client_closes := v; logged := logged s; returns :=
     returns s |}.

Definition set_logged (v : list (option error)) (s : state) : state :=
  {| closed := closed s; id := id s; streamingCancel := streamingCancel s;
     catcher := catcher s; stream_wg := stream_wg s; close_wg := close_wg s;
     outer_done := outer_done s; streaming := streaming s; now := now s;
     main := main s; sups := sups s; watcher := watcher s; panicked :=
     panicked s; created := created s; opened := opened s; session_closes :=
     session_closes s; client_closes := client_closes s; logged := v;
     returns := returns s |}.

Definition set_returns (v : list (call * option error)) (s : state) : state :=
  {| closed := closed s; id := id s; streamingCancel := streamingCancel s;
     catcher := catcher s; stream_wg := stream_wg s; close_wg := close_wg s;
     outer_done := outer_done s; streaming := streaming s; now := now s;
     main := main s; sups := sups s; watcher := watcher s; panicked :=
     panicked s; created := created s; opened := opened s; session_closes :=
     session_closes s; client_closes := client_closes s; logged := logged s;
     returns := v |}.

Definition init : state :=
  {| closed := false; id := ""; streamingCancel := false; catcher := [];
     stream_wg := 0; close_wg := 0; outer_done := false; streaming := None;
     now := 0; main := MNew; sups := []; watcher := WNone; panicked := false;
     created := []; opened := []; session_closes := []; client_closes := 0%nat;
     logged := []; returns := [] |}.

Definition new_sup : sup :=
  {| spc := SInit; timer := None; ncollect := 0%nat; writes := [];
     collected_at := []; stream_closes := 0%nat |}.

Definition streaming_done (s : state) : bool :=
  match streaming s with
  | Some d => d
  | None => false
  end.

(** Calling the cancel function of [streamingCtx]. *)
Definition cancel_streaming (s : state) : state := set_streaming (Some true) s.

Definition add_error (err : option error) (s : state) : state :=
  set_catcher (catcher_Add (catcher s) err) s.

Definition add_return (c : call) (err : option error) (s : state) : state :=
  set_returns (returns s ++ [(c, err)]) s.

(** [WaitGroup.Done]: a negative counter panics. *)
Definition stream_Done (s : state) : state :=
  if stream_wg s - 1 <? 0 then set_panicked true s
  else set_stream_wg (stream_wg s - 1) s.

Definition close_Done (s : state) : state :=
  if close_wg s - 1 <? 0 then set_panicked true s
  else set_close_wg (close_wg s - 1) s.

Definition errClosed : error :=
  ErrNew "system metrics collector already cancelled or closed".

Definition for_id_and_metricType (what ident name : string) : string :=
  what +:+ " for id " +:+ ident +:+ " and metricType " +:+ name.

(** *** The caller: Start and Close *)

(** The first statements of [Start], up to the loop. Calling
    [CreateSystemMetricsRecord] on a nil client panics. A context derived
    from a cancelled one is cancelled from the start. *)
Definition Start_enter (w : world) (c : systemMetricsCollector) (s : state)
  : state :=
  match client c with
  | None => set_panicked true s
  | Some _ =>
    let '(rid, err) := CreateSystemMetricsRecord w (taskOpts c) in
    let s := set_created (created s ++ [taskOpts c]) (set_id rid s) in
    match err with
    | Some e =>
        add_return CallStart
          (Wrap (Some e) "problem creating cedar system metrics metadata object")
          s
    | None =>
        set_main (MStartLoop 0)
          (set_streamingCancel true (set_streaming (Some (outer_done s)) s))
    end
  end.

(** One round of the loop of [Start] over the collectors, or, after the
    last one, the launch of [closeOnCancel] and the return. *)
Definition Start_loop (w : world) (c : systemMetricsCollector) (k : nat)
    (s : state) : state :=
  match collectors c !! k with
  | Some mc =>
    let s := set_opened (opened s ++
               [{| mdo_Id := id s; mdo_MetricType := Name mc;
                   mdo_Format := Format mc |}]) s in
    match StreamSystemMetrics w k with
    | Some e =>
        set_main MIdle
          (add_return CallStart
             (Wrap (Some e)
                (for_id_and_metricType "problem creating system metrics stream"
                   (id s) (Name mc)))
             (set_streamingCancel false (cancel_streaming s)))
    | None =>
        set_main (MStartLoop (S k))
          (set_sups (sups s ++ [new_sup]) (set_stream_wg (stream_wg s + 1) s))
    end
  | None =>
      set_main MIdle
        (add_return CallStart None
           (set_watcher WSelect (set_close_wg (close_wg s + 1) s)))
  end.

(** [Close] up to its test of [s.closed]. *)
Definition Close_enter (s : state) : state :=
  if closed s then add_return CallClose (Some errClosed) s
  else set_main MCloseCancel s.

Definition main_step (w : world) (c : systemMetricsCollector) (s : state)
  : option state :=
  match main s with
  | MNew | MIdle => None
  | MStartLoop k => Some (Start_loop w c k s)
  | MCloseCancel =>
      if streamingCancel s then Some (set_main MCloseWait (cancel_streaming s))
      else Some (set_panicked true s)
  | MCloseWait =>
      if close_wg s =? 0
      then Some (set_main MIdle (add_return CallClose (Resolve (catcher s)) s))
      else None
  end.

(** *** timedCollect *)

Inductive choice : Type := First | Second.

(** One step of the goroutine of collector [i]. It returns the goroutine's
    next state and the collector's next state; [ch] is the case of the
    select that is taken, when the goroutine is at the select. *)
Definition timedCollect_step (w : world) (c : systemMetricsCollector)
    (i : nat) (mc : metricCollector) (ch : choice) (g : sup) (s : state)
  : option (sup * state) :=
  match spc g with
  | SInit => Some (set_spc SLoop (set_timer (Some (now s + 0)) g), s)
  | SLoop =>
    match ch with
    | First =>
        if streaming_done s then Some (set_spc (SDefer None) g, s) else None
    | Second =>
      match timer g with
      | Some d =>
        if d <=? now s then
          let k := ncollect g in
          let g := set_collected_at (now s :: collected_at g)
                     (set_ncollect (S k) (set_timer None g)) in
          match Collect mc k with
          | Ret data => Some (set_spc (SWrite data) g, s)
          | Fail e =>
              Some (set_spc (SDefer None) g,
                    add_error
                      (Wrap (Some e)
                         (for_id_and_metricType
                            "problem collecting system metrics data"
                            (id s) (Name mc))) s)
          | Panic p => Some (set_spc (SDefer (Some p)) g, s)
          end
        else None
      | None => None
      end
    end
  | SWrite data =>
    let k := length (writes g) in
    let g := set_writes (writes g ++ [data]) g in
    match stream_Write w i k with
    | Ret _ =>
        Some (set_spc SLoop (set_timer (Some (now s + interval c)) g), s)
    | Fail e =>
        Some (set_spc (SDefer None) g,
              add_error
                (Wrap (Some e)
                   (for_id_and_metricType
                      "problem writing system metrics data to stream"
                      (id s) (Name mc))) s)
    | Panic p => Some (set_spc (SDefer (Some p)) g, s)
    end
  | SDefer p =>
      Some (set_spc SClosed (set_stream_closes (S (stream_closes g)) g),
            add_error
              (Wrap (stream_Close w i)
                 (for_id_and_metricType "problem closing system metrics stream"
                    (id s) (Name mc)))
              (add_error
                 (Wrap (HandlePanicWithError p) "") s))
  | SClosed => Some (set_spc SDone (set_timer None g), stream_Done s)
  | SDone => None
  end.

Definition sup_step (w : world) (c : systemMetricsCollector) (i : nat)
    (ch : choice) (s : state) : option state :=
  match sups s !! i, collectors c !! i with
  | Some g, Some mc =>
    match timedCollect_step w c i mc ch g s with
    | Some (g', s') => Some (set_sups (<[i := g']> (sups s)) s')
    | None => None
    end
  | _, _ => None
  end.

(** *** closeOnCancel and cleanup *)

(** The part of [cleanup] that runs holding [s.mu]. *)
Definition cleanup_locked (w : world) (c : systemMetricsCollector) (s : state)
  : state :=
  let s :=
    match client c with
    | Some _ =>
      let s :=
        if String.eqb (id s) "" then s
        else
          add_error
            (Wrap (CloseSystemMetrics w (id s) (HasErrors (catcher s)))
               ("error closing out system metrics object for id " +:+ id s))
            (set_session_closes
               (session_closes s ++ [(id s, HasErrors (catcher s))]) s) in
      add_error
        (Wrap (CloseClient w)
           ("error closing system metrics client for id " +:+ id s))
        (set_client_closes (S (client_closes s)) s)
    | None => s
    end in
  set_closed true s.

Definition watcher_step (w : world) (c : systemMetricsCollector) (ch : choice)
    (s : state) : option state :=
  match watcher s with
  | WNone | WDone => None
  | WSelect =>
    match ch with
    | First =>
        if outer_done s
        then Some (set_watcher (WWait true) (cancel_streaming s))
        else None
    | Second =>
        if streaming_done s then Some (set_watcher (WWait false) s) else None
    end
  | WWait b => if stream_wg s =? 0 then Some (set_watcher (WBody b) s) else None
  | WBody b => Some (set_watcher (WAfter b) (cleanup_locked w c s))
  | WAfter b =>
      let s := if b then set_logged (logged s ++ [Resolve (catcher s)]) s else s in
      Some (set_watcher WDone (close_Done s))
  end.

(** *** Schedules

    A run is a list of actions, one per step of one thread. A select that
    has several ready cases may take any of them, so the action names the
    case. Cancelling the outer context and the moment that cancellation
    reaches [streamingCtx] are two actions; the part of [cleanup] under
    [s.mu] is one step, since [Close] reads [s.closed] under the same
    mutex. An unrecovered panic ends the process: no action is enabled
    afterwards. *)

Inductive action : Type :=
| ATick                           (* time passes *)
| ACancel                         (* the host cancels the context given to Start *)
| APropagate                      (* that cancellation reaches streamingCtx *)
| ACallStart                      (* the caller enters Start *)
| ACallClose                      (* the caller enters Close *)
| AMain                           (* the caller's call goes on *)
| ASup (i : nat) (ch : choice)    (* timedCollect of collector i goes on *)
| AWatch (ch : choice).           (* closeOnCancel goes on *)

Definition step (w : world) (c : systemMetricsCollector) (a : action)
    (s : state) : option state :=
  if panicked s then None
  else
    match a with
    | ATick => Some (set_now (now s + 1) s)
    | ACancel => Some (set_outer_done true s)
    | APropagate =>
        match outer_done s, streaming s with
        | true, Some false => Some (set_streaming (Some true) s)
        | _, _ => None
        end
    | ACallStart =>
        match main s with
        | MNew => Some (Start_enter w c (set_main MIdle s))
        | _ => None
        end
    | ACallClose =>
        match main s with
        | MNew | MIdle => Some (Close_enter s)
        | _ => None
        end
    | AMain => main_step w c s
    | ASup i ch => sup_step w c i ch s
    | AWatch ch => watcher_step w c ch s
    end.

Fixpoint run (w : world) (c : systemMetricsCollector) (acts : list action)
    (s : state) : option state :=
  match acts with
  | [] => Some s
  | a :: acts =>
    match step w c a s with
    | Some s' => run w c acts s'
    | None => None
    end
  end.

Definition reachable (w : world) (c : systemMetricsCollector) (s : state)
  : Prop :=
  exists acts, run w c acts init = Some s.

(** ** Option validation as specified *)

(** The condition list of option validation, as the specification words
    it, to be compared with [systemMetricsCollectorOptions_validate]. *)
Definition rejects (o : systemMetricsCollectorOptions) : bool :=
  match opt_Task o with None => true | Some _ => false end
  || (opt_Interval o <? 0)
  || match opt_Collectors o with [] => true | _ :: _ => false end
  || match opt_Comm o, opt_Conn o with
     | None, None | Some _, Some _ => true
     | _, _ => false
     end
  || (opt_BufferTimedFlushInterval o <? 0)
  || (opt_MaxBufferSize o <? 0).

Definition normalize (o : systemMetricsCollectorOptions)
  : systemMetricsCollectorOptions :=
  if opt_Interval o =? 0 then set_Interval time_Minute o else o.

(** ** Invariants *)

(** A goroutine that has not returned yet. *)
Definition live (g : sup) : bool :=
  match spc g with
  | SDone => false
  | _ => true
  end.

Fixpoint live_count (l : list sup) : nat :=
  match l with
  | [] => 0
  | g :: l => (if live g then 1 else 0) + live_count l
  end.

(** Collection times, latest first, are at least [iv] apart. *)
Fixpoint spaced (iv : Z) (l : list Z) : Prop :=
  match l with
  | t2 :: (t1 :: _) as tl => t1 + iv <= t2 /\ spaced iv tl
  | _ => True
  end.

(** What holds of one goroutine of [timedCollect] at time [t]. *)
Definition sup_inv (iv t : Z) (mc : metricCollector) (g : sup) : Prop :=
  stream_closes g = match spc g with SClosed | SDone => 1 | _ => 0 end%nat
  /\ (forall k d, writes g !! k = Some d -> Collect mc k = Ret d)
  /\ length (collected_at g) = ncollect g
  /\ spaced iv (collected_at g)
  /\ (forall t0, head (collected_at g) = Some t0 -> t0 <= t)
  /\ match spc g with
     | SInit => ncollect g = 0%nat /\ writes g = []
     | SLoop =>
         ncollect g = length (writes g)
         /\ exists d, timer g = Some d
              /\ forall t0, head (collected_at g) = Some t0 -> t0 + iv <= d
     | SWrite d =>
         ncollect g = S (length (writes g))
         /\ Collect mc (length (writes g)) = Ret d
     | _ => True
     end.

Definition in_Start (m : main_pc) : Prop :=
  match m with
  | MNew | MStartLoop _ => True
  | _ => False
  end.

Record Inv (c : systemMetricsCollector) (s : state) : Prop := {
  inv_wg : stream_wg s = Z.of_nat (live_count (sups s));
  inv_sups : forall i g, sups s !! i = Some g ->
    exists mc, collectors c !! i = Some mc
               /\ sup_inv (interval c) (now s) mc g;
  inv_close_wg :
    close_wg s = match watcher s with WNone | WDone => 0 | _ => 1 end;
  inv_closed :
    closed s = match watcher s with WAfter _ | WDone => true | _ => false end;
  inv_drained :
    match watcher s with
    | WBody _ | WAfter _ | WDone => stream_wg s = 0
    | _ => True
    end;
  inv_cancelled :
    match watcher s with
    | WNone | WSelect => True
    | _ => streaming_done s = true
    end;
  inv_remote :
    match watcher s with
    | WAfter _ | WDone =>
        client_closes s = 1%nat
        /\ exists flag, session_closes s =
             if String.eqb (id s) "" then [] else [(id s, flag)]
    | _ => client_closes s = 0%nat /\ session_closes s = []
    end;
  inv_launched : watcher s <> WNone ->
    length (sups s) = length (collectors c)
    /\ streamingCancel s = true /\ is_Some (streaming s)
    /\ is_Some (client c) /\ panicked s = false
    /\ ~ in_Start (main s);
  inv_main :
    match main s with
    | MNew =>
        sups s = [] /\ streaming s = None /\ returns s = []
        /\ opened s = [] /\ created s = [] /\ streamingCancel s = false
    | MStartLoop k =>
        length (sups s) = k /\ watcher s = WNone /\ returns s = []
        /\ streamingCancel s = true /\ is_Some (streaming s)
        /\ is_Some (client c)
    | MCloseWait => streaming_done s = true /\ streamingCancel s = true
    | _ => True
    end;
  inv_cancel_set : streamingCancel s = true ->
    (exists k, main s = MStartLoop k) \/ watcher s <> WNone;
  inv_start_ok : (CallStart, None) ∈ returns s <-> watcher s <> WNone;
  inv_close_ret : forall e, (CallClose, e) ∈ returns s -> closed s = true;
  inv_logged :
    match watcher s with
    | WDone => logged s = [] \/ logged s = [Resolve (catcher s)]
    | _ => logged s = []
    end;
}.

(** The fields a step of [timedCollect] cannot touch. *)
Definition same_outside_sups (s s' : state) : Prop :=
  closed s' = closed s /\ id s' = id s
  /\ streamingCancel s' = streamingCancel s /\ close_wg s' = close_wg s
  /\ outer_done s' = outer_done s /\ streaming s' = streaming s
  /\ now s' = now s /\ main s' = main s /\ watcher s' = watcher s
  /\ created s' = created s /\ opened s' = opened s
  /\ session_closes s' = session_closes s
  /\ client_closes s' = client_closes s
  /\ logged s' = logged s /\ returns s' = returns s.

(** How many steps a goroutine of [timedCollect] is from having returned,
    once its context is cancelled and the select takes that case. *)
Definition rank (g : sup) : nat :=
  match spc g with
  | SInit | SWrite _ => 4
  | SLoop => 3
  | SDefer _ => 2
  | SClosed => 1
  | SDone => 0
  end.

Fixpoint total_rank (l : list sup) : nat :=
  match l with
  | [] => 0
  | g :: l => rank g + total_rank l
  end.

(** Schedules in which only the goroutines run: the caller makes no call
    and the host does not cancel. *)
Definition quiet (acts : list action) : Prop :=
  Forall (fun a => match a with
                   | ASup _ _ | AWatch _ => True
                   | _ => False
                   end) acts.

(** The fields no goroutine touches. *)
Definition same_for_caller (s s' : state) : Prop :=
  main s' = main s /\ returns s' = returns s /\ id s' = id s
  /\ outer_done s' = outer_done s /\ now s' = now s
  /\ created s' = created s /\ opened s' = opened s
  /\ streamingCancel s' = streamingCancel s.

(** ** Sample configurations *)

Definition demo_task : Task :=
  {| Project := "evergreen"; Version := "v1"; BuildVariant := "ubuntu";
     DisplayName := "compile"; Id := "t1"; Execution := 0;
     IsPatchRequest := false |}.

Definition demo_conn : ClientConn := {| conn_target := "cedar:7070" |}.

Definition demo_dialer : dialer :=
  {| NewSystemMetricsClient := fun _ => None;
     NewSystemMetricsClientWithExistingConnection := fun _ => None |}.

(** Payloads 1, 2, 3, 3, ... *)
Definition uptime : metricCollector :=
  {| Name := "uptime"; Format := dataFormatText;
     Collect := fun k =>
       match k with
       | O => Ret [x01]
       | S O => Ret [x02]
       | _ => Ret [x03]
       end |}.

(** Fails from its second collection on. *)
Definition disk : metricCollector :=
  {| Name := "disk"; Format := dataFormatJSON;
     Collect := fun k =>
       match k with
       | O => Ret [x64]
       | _ => Fail (ErrNew "disk unavailable")
       end |}.

(** A collector whose format is none of the five. *)
Definition odd_format : metricCollector :=
  {| Name := "odd"; Format := 5; Collect := fun _ => Ret [] |}.

Definition demo_options (cs : list metricCollector)
  : systemMetricsCollectorOptions :=
  {| opt_Task := Some demo_task; opt_Interval := 2; opt_Collectors := cs;
     opt_Comm := None; opt_Conn := Some demo_conn; opt_MaxBufferSize := 0;
     opt_NoBufferTimedFlush := false; opt_BufferTimedFlushInterval := 0 |}.

(** The collector [newSystemMetricsCollector] builds from [demo_options]. *)
Definition demo_collector (cs : list metricCollector)
  : systemMetricsCollector :=
  {| taskOpts := getSystemMetricsInfo demo_task;
     streamOpts := {| FlushInterval := 0; NoTimedFlush := false;
                      MaxBufferSize := 0 |};
     interval := 2; collectors := cs;
     client := Some (ClientOnConn demo_conn) |}.

(** A remote side where every call succeeds. *)
Definition cedar_ok : world :=
  {| CreateSystemMetricsRecord := fun _ => ("rec1", None);
     StreamSystemMetrics := fun _ => None;
     stream_Write := fun _ _ => Ret tt;
     stream_Close := fun _ => None;
     CloseSystemMetrics := fun _ _ => None;
     CloseClient := None |}.


(** The stream of the second collector cannot be opened. *)
Definition cedar_no_second_stream : world :=
  {| CreateSystemMetricsRecord := fun _ => ("rec1", None);
     StreamSystemMetrics := fun i =>
       match i with
       | S O => Some (ErrNew "stream refused")
       | _ => None
       end;
     stream_Write := fun _ _ => Ret tt;
     stream_Close := fun _ => None;
     CloseSystemMetrics := fun _ _ => None;
     CloseClient := None |}.


(** Where the [timedCollect] goroutines stand. *)
Definition pcs (s : state) : list sup_pc := map spc (sups s).



(** The errors the deferred function of [timedCollect] adds: one for a
    recovered panic, one for a failed [stream.Close]. *)
Definition deferred_errors (w : world) (i : nat) (mc : metricCollector)
    (ident : string) (p : option string) : list error :=
  match p with
  | Some v => [ErrWrap (ErrPanic v) ""]
  | None => []
  end
  ++ match stream_Close w i with
     | Some e =>
         [ErrWrap e (for_id_and_metricType
                       "problem closing system metrics stream" ident (Name mc))]
     | None => []
     end.

(** What one step of [timedCollect] adds to the catcher and where it
    leaves the goroutine, by program point. *)
Definition step_account (w : world) (i : nat) (mc : metricCollector)
    (ch : choice) (g g' : sup) (s s' : state) : Prop :=
  match spc g with
  | SInit => catcher s' = catcher s /\ spc g' = SLoop
  | SLoop =>
    match ch with
    | First => catcher s' = catcher s /\ spc g' = SDefer None
    | Second =>
      match Collect mc (ncollect g) with
      | Ret d => catcher s' = catcher s /\ spc g' = SWrite d
      | Fail e =>
          catcher s' = catcher s ++
            [ErrWrap e (for_id_and_metricType
                          "problem collecting system metrics data"
                          (id s) (Name mc))]
          /\ spc g' = SDefer None
      | Panic p => catcher s' = catcher s /\ spc g' = SDefer (Some p)
      end
    end
  | SWrite d =>
    writes g' = writes g ++ [d]
    /\ match stream_Write w i (length (writes g)) with
       | Ret _ => catcher s' = catcher s /\ spc g' = SLoop
       | Fail e =>
           catcher s' = catcher s ++
             [ErrWrap e (for_id_and_metricType
                           "problem writing system metrics data to stream"
                           (id s) (Name mc))]
           /\ spc g' = SDefer None
       | Panic p => catcher s' = catcher s /\ spc g' = SDefer (Some p)
       end
  | SDefer p =>
      catcher s' = catcher s ++ deferred_errors w i mc (id s) p
      /\ spc g' = SClosed /\ writes g' = writes g
      /\ stream_closes g' = S (stream_closes g)
  | SClosed =>
      catcher s' = catcher s /\ spc g' = SDone /\ writes g' = writes g
      /\ stream_wg s' = stream_wg s - 1
  | SDone => False
  end.

(** The state a schedule leads to from [init] ([init] itself if the
    schedule cannot be run). *)
Definition after (w : world) (c : systemMetricsCollector)
    (acts : list action) : state :=
  default init (run w c acts init).

(** Two collectors at interval 2: [Start], then three collections of
    [uptime] at times 0, 2 and 4, while [disk] fails at its second one. *)
Definition sched_start : list action :=
  [ACallStart; AMain; AMain; AMain; ASup 0 First; ASup 1 First;
   ASup 0 Second; ASup 0 First; ASup 1 Second; ASup 1 First;
   ATick; ATick; ASup 0 Second; ASup 0 First].

Definition sched_disk_fails : list action :=
  sched_start ++ [ASup 1 Second].

Definition sched_three : list action :=
  sched_disk_fails
  ++ [ASup 1 First; ASup 1 First; ATick; ATick; ASup 0 Second; ASup 0 First].

(** ... then the caller calls [Close], which returns. *)
Definition sched_closed : list action :=
  sched_three
  ++ [ACallClose; AMain; ASup 0 First; ASup 0 First; ASup 0 First;
      AWatch Second; AWatch First; AWatch First; AWatch First; AMain].

(** ... or else the host cancels the context and [closeOnCancel] takes
    the outer context's case. *)
Definition sched_cancelled : list action :=
  sched_three
  ++ [ACancel; AWatch First; ASup 0 First; ASup 0 First; ASup 0 First;
      AWatch First; AWatch First; AWatch First].


(** One collector, a record with an empty id, then cancellation. *)
Definition sched_empty_id : list action :=
  [ACallStart; AMain; AMain; ACancel; AWatch First; ASup 0 First;
   ASup 0 First; ASup 0 First; ASup 0 First; AWatch First; AWatch First;
   AWatch First].

Definition demo2 : systemMetricsCollector := demo_collector [uptime; disk].

Definition disk_error : error :=
  ErrWrap (ErrNew "disk unavailable")
    "problem collecting system metrics data for id rec1 and metricType disk".

(** ** More about the running collector *)

(** The [StreamSystemMetrics] calls a complete [Start] makes, in order. *)
Definition expected_opened (c : systemMetricsCollector) (ident : string)
  : list MetricDataOpts :=
  map (fun mc => {| mdo_Id := ident; mdo_MetricType := Name mc;
                    mdo_Format := Format mc |}) (collectors c).

(** What the remote calls of [Start] look like at any time. *)
Definition start_calls_ok (c : systemMetricsCollector) (s : state) : Prop :=
  opened s = take (length (opened s)) (expected_opened c (id s))
  /\ (created s = [] \/ created s = [taskOpts c])
  /\ ((exists k, main s = MStartLoop k) \/ watcher s <> WNone ->
      created s = [taskOpts c])
  /\ (length (sups s) <= length (opened s) <= S (length (sups s)))%nat
  /\ match main s with
     | MNew => opened s = []
     | MStartLoop k => length (opened s) = k
     | _ => True
     end.

(** A remote side and collectors that never fail. *)
Definition faultless (w : world) (c : systemMetricsCollector) : Prop :=
  (forall o, snd (CreateSystemMetricsRecord w o) = None)
  /\ (forall i, StreamSystemMetrics w i = None)
  /\ (forall i k, exists u, stream_Write w i k = Ret u)
  /\ (forall i, stream_Close w i = None)
  /\ (forall ident b, CloseSystemMetrics w ident b = None)
  /\ CloseClient w = None
  /\ (forall i mc k, collectors c !! i = Some mc ->
        exists d, Collect mc k = Ret d).

(** Nothing has gone wrong so far. *)
Definition no_errors_yet (s : state) : Prop :=
  catcher s = []
  /\ (forall r, r ∈ session_closes s -> r.2 = false)
  /\ (forall e, (CallStart, e) ∈ returns s -> e = None)
  /\ (forall e, (CallClose, e) ∈ returns s -> e = None \/ e = Some errClosed)
  /\ Forall (fun l => l = None) (logged s)
  /\ Forall (fun g => forall p, spc g <> SDefer (Some p)) (sups s).

(** Everything recorded in [s] is still there, in the same order, in
    [s']. *)
Definition extends (s s' : state) : Prop :=
  catcher s `prefix_of` catcher s'
  /\ returns s `prefix_of` returns s'
  /\ created s `prefix_of` created s'
  /\ opened s `prefix_of` opened s'
  /\ session_closes s `prefix_of` session_closes s'
  /\ logged s `prefix_of` logged s'
  /\ (client_closes s <= client_closes s')%nat
  /\ now s <= now s'
  /\ forall i g, sups s !! i = Some g ->
       exists g', sups s' !! i = Some g'
                  /\ writes g `prefix_of` writes g'
                  /\ (ncollect g <= ncollect g')%nat
                  /\ (stream_closes g <= stream_closes g')%nat.

(** After [stream.Close] a goroutine only has its [Done] left to do. *)
Definition returning (g : sup) : Prop := spc g = SClosed \/ spc g = SDone.

(** ** The stats queries that follow the collector in the same file

    [package stats]: the helpers that build pagination constraints and
    date buckets, and the two functions that run an aggregation. *)

Module stats.

(** BSON values as the pipelines build them. A [bson.M] is a map from
    field names; an [array] or a slice of documents is a list; a
    [time.Time] is an instant in nanoseconds. *)
#[warnings="-register-all"]
Inductive bson : Type :=
| BNil
| BInt (n : Z)
| BStr (s : string)
| BTime (t : Z)
| BArray (l : list bson)
| BDoc (m : gmap string bson).

Abbreviation bson_M := (gmap string bson).

Record paginationField : Type := {
  Field : string;
  Operator : string;
  Value : bson;
}.

(** [for k, v := range src { dst[k] = v }] *)
Definition copy_into (src dst : bson_M) : bson_M :=
  map_fold (fun k v (b : bson_M) => <[k := v]> b) dst src.

(** The loop of [buildPaginationOrBranches] over the fields that are
    left. *)
Fixpoint buildPaginationOrBranches_loop (fields : list paginationField)
    (baseConstraints : bson_M) (branches : list bson_M) : list bson_M :=
  match fields with
  | [] => branches
  | field :: fields =>
      let branch := copy_into baseConstraints ∅ in
      let branch :=
        <[Field field := BDoc {[Operator field := Value field]}]> branch in
      buildPaginationOrBranches_loop fields
        (<[Field field := Value field]> baseConstraints)
        (branches ++ [branch])
  end.

Definition buildPaginationOrBranches (fields : list paginationField)
  : list bson_M :=
  buildPaginationOrBranches_loop fields ∅ [].

(** *** Date buckets *)

(** [int] arithmetic; [int(time.Hour)] is a constant that only fits a
    64-bit [int]. *)
Definition int64 (x : Z) : Z := (x + 2^63) mod 2^64 - 2^63.

Definition time_Hour : Z := 3600 * 1000000000.

Section Dates.

(** [util.GetUTCDay], which is outside this file. On instants,
    [t.Before(u)] is [t <? u] and [t.Add(d)] is [t + d]. *)
Variable GetUTCDay : Z -> Z.

(** The loop [for boundary.Before(end) { ... }]; [None] when the fuel
    runs out. *)
Fixpoint dateBoundaries_loop (fuel : nat) (end_ duration boundary : Z)
    (boundaries : list Z) : option (list Z) :=
  match fuel with
  | O => None
  | S fuel =>
      if boundary <? end_
      then dateBoundaries_loop fuel end_ duration (boundary + duration)
             (boundaries ++ [boundary])
      else Some boundaries
  end.

Definition dateBoundaries (fuel : nat) (start end_ : Z) (numDays : Z)
  : option (list Z) :=
  let numDays := if numDays <=? 0 then 1 else numDays in
  let start := GetUTCDay start in
  let end_ := GetUTCDay end_ in
  let duration := int64 (int64 (numDays * 24) * time_Hour) in
  dateBoundaries_loop fuel end_ duration start [].

(** Sequencing of calls that may fail or panic. *)
#[local] Instance outcome_bind : MBind outcome := fun A B f o =>
  match o with
  | Ret a => f a
  | Fail e => Fail e
  | Panic p => Panic p
  end.

(** Indexing a slice; out of range panics. *)
Definition index {A : Type} (l : list A) (i : Z) : outcome A :=
  if i <? 0 then Panic "index out of range"
  else match l !! Z.to_nat i with
       | Some a => Ret a
       | None => Panic "index out of range"
       end.

Definition set_index {A : Type} (l : list A) (i : Z) (a : A)
  : outcome (list A) :=
  if (i <? 0) || (Z.of_nat (length l) <=? i) then Panic "index out of range"
  else Ret (<[Z.to_nat i := a]> l).

(** The branch written at index [i] by the loop of
    [buildAddFieldsDateStage]. *)
Definition inner_branch (inputDateFieldRef : string) (lo hi : Z) : bson_M :=
  {[ "case" := BDoc {[ "$and" := BArray [
         BDoc {[ "$gte" := BArray [BStr inputDateFieldRef; BTime lo] ]};
         BDoc {[ "$lt" := BArray [BStr inputDateFieldRef; BTime hi] ]} ] ]};
     "then" := BTime lo ]}.

Definition last_branch (inputDateFieldRef : string) (lo : Z) : bson_M :=
  {[ "case" := BDoc {[ "$gte" := BArray [BStr inputDateFieldRef; BTime lo] ]};
     "then" := BTime lo ]}.

(** [for i := 0; i < len(boundaries)-1; i++ { branches[i] = ... }], from
    [i] on, with [n] rounds left. *)
Fixpoint branches_loop (inputDateFieldRef : string) (boundaries : list Z)
    (n : nat) (i : Z) (branches : list bson_M) : outcome (list bson_M) :=
  match n with
  | O => Ret branches
  | S n =>
      lo ← index boundaries i;
      hi ← index boundaries (i + 1);
      branches ← set_index branches i (inner_branch inputDateFieldRef lo hi);
      branches_loop inputDateFieldRef boundaries n (i + 1) branches
  end.

Definition buildAddFieldsDateStage (fuel : nat)
    (fieldName inputDateFieldName : string) (start end_ : Z) (numDays : Z)
  : option (outcome bson_M) :=
  let inputDateFieldRef := "$" +:+ inputDateFieldName in
  if numDays <=? 1 then
    Some (Ret {[ "$addFields" :=
                   BDoc {[ fieldName := BStr inputDateFieldRef ]} ]})
  else
    match dateBoundaries fuel start end_ numDays with
    | None => None
    | Some boundaries =>
      let branches : list bson_M := replicate (length boundaries) ∅ in
      Some (
        branches ← branches_loop inputDateFieldRef boundaries
                     (length boundaries - 1) 0 branches;
        let lastIndex := Z.of_nat (length boundaries) - 1 in
        lo ← index boundaries lastIndex;
        branches ← set_index branches lastIndex
                     (last_branch inputDateFieldRef lo);
        Ret {[ "$addFields" :=
                 BDoc {[ fieldName :=
                   BDoc {[ "$switch" :=
                     BDoc {[ "branches" :=
                       BArray (BDoc <$> branches) ]} ]} ]} ]})
    end.

End Dates.

(** *** Running an aggregation *)

(** What the database layer is seen to do. Sessions are told apart by the
    number of the [GetSession] call that returned them. *)
Inductive event (D : Type) : Type :=
| EvGetSession
| EvSetSocketTimeout (session : nat) (d : Z)
| EvPipe (session : nat) (collection : string) (pipeline : list bson_M)
| EvCallback (raw : D)
| EvSessionClose (session : nat)
| EvNewWriter (session : nat) (outputCollection : string) (count : Z)
    (duration : Z)
| EvWriterClose.
Arguments EvGetSession {D}.
Arguments EvSetSocketTimeout {D} session d.
Arguments EvPipe {D} session collection pipeline.
Arguments EvCallback {D} raw.
Arguments EvSessionClose {D} session.
Arguments EvNewWriter {D} session outputCollection count duration.
Arguments EvWriterClose {D}.

(** How the database answers: the [k]-th [GetSession], the documents an
    iterator delivers before [Next] returns false and what [Err] says
    then, the creation of a buffered writer, its [k]-th [Append], and its
    [Close]. *)
Record database (D : Type) : Type := {
  GetSession : nat -> option error;
  Iter : string -> list bson_M -> list D * option error;
  NewBufferedSessionUpsertByID : string -> option error;
  writer_Append : nat -> D -> option error;
  writer_Close : option error;
}.
Arguments GetSession {D} d k.
Arguments Iter {D} d collection pipeline.
Arguments NewBufferedSessionUpsertByID {D} d outputCollection.
Arguments writer_Append {D} d k raw.
Arguments writer_Close {D} d.

Definition bulkSize : Z := 1000.
Definition time_Second : Z := 1000000000.

(** The loop of [aggregateWithCallback] over the documents the iterator
    still has; [k] callbacks have been made. *)
Fixpoint aggregate_loop {D : Type} (callback : nat -> D -> option error)
    (k : nat) (docs : list D) (iter_Err : option error)
  : option error * list (event D) :=
  match docs with
  | raw :: docs =>
    match callback k raw with
    | Some err => (Wrap (Some err) "A callback call failed", [EvCallback raw])
    | None =>
      let '(r, tr) := aggregate_loop callback (S k) docs iter_Err in
      (r, EvCallback raw :: tr)
    end
  | [] => (Wrap iter_Err "Error during aggregation", [])
  end.

(** [n] is the number of [GetSession] calls made so far. The result is the
    error returned and what was done, in order. *)
Definition aggregateWithCallback {D : Type} (db : database D) (n : nat)
    (collection : string) (pipeline : list bson_M)
    (callback : nat -> D -> option error)
  : option error * list (event D) :=
  match GetSession db n with
  | Some err =>
      (Wrap (Some err) "Error establishing db connection", [EvGetSession])
  | None =>
    let '(docs, iter_Err) := Iter db collection pipeline in
    let '(r, tr) := aggregate_loop callback 0 docs iter_Err in
    (r, [EvGetSession; EvSetSocketTimeout n 0; EvPipe n collection pipeline]
        ++ tr ++ [EvSessionClose n])
  end.

Definition aggregateIntoCollection {D : Type} (db : database D) (n : nat)
    (collection : string) (pipeline : list bson_M) (outputCollection : string)
  : option error * list (event D) :=
  match GetSession db n with
  | Some err =>
      (Wrap (Some err) "Error establishing db connection", [EvGetSession])
  | None =>
    let new_writer :=
      EvNewWriter n outputCollection bulkSize (10 * time_Second) in
    match NewBufferedSessionUpsertByID db outputCollection with
    | Some err =>
        (Wrap (Some err) "Failed to initialize document writer",
         [EvGetSession; new_writer; EvSessionClose n])
    | None =>
      let '(err, tr) :=
        aggregateWithCallback db (S n) collection pipeline (writer_Append db) in
      match err with
      | Some err =>
          (Wrap (Some err) "Failed to aggregate with document writer callback",
           [EvGetSession; new_writer] ++ tr ++ [EvSessionClose n])
      | None =>
          (Wrap (writer_Close db) "Failed to flush document writer",
           [EvGetSession; new_writer] ++ tr ++ [EvWriterClose; EvSessionClose n])
      end
    end
  end.

(** The documents handed to the callback, in order. *)
Definition callbacks {D : Type} (tr : list (event D)) : list D :=
  omap (fun ev => match ev with
                  | EvCallback raw => Some raw
                  | _ => None
                  end) tr.

End stats.

(** ** Sample inputs for the stats helpers *)

(** The start of the UTC day of an instant. *)
Definition utc_day (t : Z) : Z := t - t mod 86400000000000.

Definition day (k : Z) : Z := k * 86400000000000.

(** The fields [buildTestPaginationOrBranches] passes when grouping by
    task, latest first. *)
Definition demo_fields : list stats.paginationField :=
  [ {| stats.Field := "_id.date"; stats.Operator := "$lt";
       stats.Value := stats.BTime (day 3) |};
    {| stats.Field := "_id.task_name"; stats.Operator := "$gt";
       stats.Value := stats.BStr "compile" |};
    {| stats.Field := "_id.test_file"; stats.Operator := "$gt";
       stats.Value := stats.BStr "a.js" |} ].

(** Three documents; the writer fails on the second. *)
Definition demo_db : stats.database string :=
  {| stats.GetSession := fun _ => None;
     stats.Iter := fun _ _ => (["d0"; "d1"; "d2"], None);
     stats.NewBufferedSessionUpsertByID := fun _ => None;
     stats.writer_Append := fun k _ =>
       match k with
       | 1%nat => Some (ErrNew "write refused")
       | _ => None
       end;
     stats.writer_Close := None |}.

(** * Proofs *)

#[local] Arguments for_id_and_metricType : simpl never.
#[local] Arguments String.append : simpl never.

(** Proof steps used throughout: split conjunctions only, and close the
    routine goals. *)
Ltac splits := repeat match goal with |- _ /\ _ => split end.
Ltac fin := try done; try congruence; try (intros; congruence); try tauto.
Ltac wcase :=
  try solve [match goal with
             | |- context [watcher ?s] => destruct (watcher s); simpl in *; fin
             end].

Lemma live_count_app l1 l2 :
  live_count (l1 ++ l2) = (live_count l1 + live_count l2)%nat.
Proof. induction l1 as [|g l1 IH]; simpl; [done | rewrite IH; lia]. Qed.

Lemma live_count_insert (l : list sup) i g g' :
  l !! i = Some g ->
  (live_count (<[i := g']> l) + (if live g then 1 else 0)
   = live_count l + (if live g' then 1 else 0))%nat.
Proof.
  revert i; induction l as [|h l IH]; intros [|i] H; simpl in *; try done.
  - injection H as ->. lia.
  - specialize (IH _ H). lia.
Qed.

Lemma live_count_0 (l : list sup) i g :
  live_count l = 0%nat -> l !! i = Some g -> spc g = SDone.
Proof.
  revert i; induction l as [|h l IH]; intros [|i] H0 H; simpl in *; try done.
  - injection H as ->. unfold live in H0. destruct (spc g); simpl in H0; lia || done.
  - apply (IH i); [lia | done].
Qed.

Lemma sup_inv_mono iv t t' mc g : t <= t' -> sup_inv iv t mc g -> sup_inv iv t' mc g.
Proof.
  intros Ht (H1 & H2 & H3 & H4 & H5 & H6). repeat split; try done.
  intros t0 E. specialize (H5 _ E). lia.
Qed.

Lemma Inv_init c : Inv c init.
Proof.
  constructor; simpl; try done.
  all: try (intros i g H; by rewrite lookup_nil in H).
  - split; [intros H; by apply elem_of_nil in H | done].
  - intros e H. by apply elem_of_nil in H.
Qed.

Lemma Inv_tick c s : Inv c s -> Inv c (set_now (now s + 1) s).
Proof.
  intros [].
  constructor; simpl; try done.
  intros i g H. destruct (inv_sups0 _ _ H) as (mc & Hmc & Hs).
  exists mc. split; [done|]. eapply sup_inv_mono; [|done]. lia.
Qed.

Lemma Inv_cancel c s : Inv c s -> Inv c (set_outer_done true s).
Proof. intros []. constructor; simpl; done. Qed.

Lemma Inv_streaming c s :
  is_Some (streaming s) -> Inv c s -> Inv c (set_streaming (Some true) s).
Proof.
  intros Hs []. constructor; simpl; fin.
  all: try solve [destruct (watcher s); fin].
  all: try solve [intros H; destruct (inv_launched0 H) as (?&?&?&?&?&?); done].
  destruct (main s); fin.
  all: try solve [destruct inv_main0 as (_ & E & _); rewrite E in Hs;
                  by destruct Hs].
  all: try solve [destruct inv_main0 as (?&?&?&?&?&?); done].
  all: try solve [destruct inv_main0 as (?&?); done].
Qed.

Lemma not_launched_in_Start c s :
  Inv c s -> in_Start (main s) -> watcher s = WNone.
Proof.
  intros HI Hm. destruct (watcher s) eqn:E; try done.
  all: exfalso; destruct (inv_launched c s HI) as (_&_&_&_&_&H'); [by rewrite E|done].
Qed.

Lemma sups_le_collectors c s :
  Inv c s -> (length (sups s) <= length (collectors c))%nat.
Proof.
  intros HI. destruct (sups s) as [|g l] eqn:E using rev_ind; [simpl; lia|].
  clear IHl. destruct (inv_sups c s HI (length l) g) as (mc & Hmc & _).
  - rewrite E. by apply list_lookup_middle.
  - apply lookup_lt_Some in Hmc. rewrite length_app. simpl. lia.
Qed.

Lemma elem_of_snoc_ne {A} (l : list A) (x y : A) :
  x <> y -> x ∈ l ++ [y] <-> x ∈ l.
Proof.
  intros Hne. rewrite elem_of_app, list_elem_of_singleton.
  split; [intros [H|H]; done | by left].
Qed.

Lemma Inv_Start_enter w c s :
  Inv c s -> main s = MNew -> Inv c (Start_enter w c (set_main MIdle s)).
Proof.
  intros HI Hm.
  assert (Hw : watcher s = WNone) by (apply (not_launched_in_Start c); [done | by rewrite Hm]).
  destruct HI. rewrite Hm in inv_main0.
  destruct inv_main0 as (Hsups & Hstr & Hret & Hop & Hcr & Hsc).
  unfold Start_enter. simpl.
  destruct (client c) as [cl|] eqn:Ecl.
  2: { constructor; simpl; rewrite ?Hw in *; fin. }
  destruct (CreateSystemMetricsRecord w (taskOpts c)) as [rid [e|]].
  - constructor; simpl; rewrite ?Hw, ?Hret in *; simpl; fin.
    all: wcase.
    + split; [|done]. intros H. apply list_elem_of_singleton in H. done.
    + intros e0 H. apply list_elem_of_singleton in H. done.
  - constructor; simpl; rewrite ?Hw, ?Hret, ?Hsups in *; simpl; fin.
    all: wcase.
    + intros _. left. by eexists.
Qed.

Lemma Inv_Start_loop w c k s :
  Inv c s -> main s = MStartLoop k -> panicked s = false ->
  Inv c (Start_loop w c k s).
Proof.
  intros HI Hm Hp.
  assert (Hw : watcher s = WNone) by (apply (not_launched_in_Start c); [done | by rewrite Hm]).
  pose proof (sups_le_collectors c s HI) as Hle.
  destruct HI. rewrite Hm in inv_main0.
  destruct inv_main0 as (Hsups & _ & Hret & Hsc & Hstr & Hcl).
  unfold Start_loop.
  destruct (collectors c !! k) as [mc|] eqn:Emc.
  - destruct (StreamSystemMetrics w k) as [e|].
    + constructor; simpl; rewrite ?Hw, ?Hret in *; simpl; fin.
      all: wcase.
      * split; [|done]. intros H. apply list_elem_of_singleton in H. done.
      * intros e0 H. apply list_elem_of_singleton in H. done.
    + constructor; simpl; rewrite ?Hw, ?Hret in *; simpl; fin.
      all: wcase.
      * rewrite live_count_app. simpl. lia.
      * intros i g H. apply lookup_app_Some in H as [H|[Hle' H]]; [eauto|].
        apply list_lookup_singleton_Some in H as [Hi <-].
        assert (i = k) as -> by lia.
        exists mc. split; [done|]. splits; simpl; fin.
      * rewrite length_app. simpl. splits; fin. lia.
      * intros _. left. by eexists.
  - apply lookup_ge_None in Emc.
    constructor; simpl; rewrite ?Hw, ?Hret in *; simpl; fin.
    all: wcase.
    + lia.
    + intros _. splits; fin; try lia.
    + intros _. by right.
    + split; [done|]. intros _. by apply list_elem_of_singleton.
    + intros e0 H. apply list_elem_of_singleton in H. done.
Qed.

Lemma Inv_Close_enter c s :
  Inv c s -> ~ (exists k, main s = MStartLoop k) -> main s <> MCloseWait ->
  Inv c (Close_enter s).
Proof.
  intros HI Hm Hm'. unfold Close_enter. destruct (closed s) eqn:Ec.
  - assert (Hns : ~ in_Start (main s)).
    { destruct HI. rewrite Ec in inv_closed0.
      apply inv_launched0. destruct (watcher s); fin. }
    destruct HI. constructor; simpl; fin.
    all: wcase.
    + destruct (main s); fin; simpl in Hns; tauto.
    + rewrite <- inv_start_ok0. apply elem_of_snoc_ne. done.
  - destruct HI. constructor; simpl; fin.
    all: wcase.
    all: try solve [intros H; destruct (inv_launched0 H) as (?&?&?&?&?&?);
                    splits; fin].
    all: try solve [intros H; destruct (inv_cancel_set0 H) as [[k Hk]|];
                    [exfalso; eauto | by right]].
Qed.

Lemma Inv_main_step w c s s' :
  Inv c s -> panicked s = false -> main_step w c s = Some s' -> Inv c s'.
Proof.
  intros HI Hp. unfold main_step. destruct (main s) eqn:Em; fin.
  - intros [= <-]. by apply Inv_Start_loop.
  - destruct (streamingCancel s) eqn:Esc; intros [= <-].
    + destruct HI. destruct (inv_cancel_set0 Esc) as [[k Hk]|Hw]; fin.
      destruct (inv_launched0 Hw) as (?&?&?&?&?&?).
      constructor; simpl; fin.
      all: wcase.
      all: try solve [intros _; splits; fin].
      all: try solve [intros _; by right].
    + assert (Hw : watcher s = WNone).
      { destruct (watcher s) eqn:E; fin.
        all: destruct (inv_launched c s HI) as (_&?&_); fin. }
      destruct HI. constructor; simpl; rewrite ?Hw in *; fin.
      all: wcase.
  - destruct (close_wg s =? 0) eqn:Ez; intros [= <-].
    apply Z.eqb_eq in Ez.
    destruct HI. rewrite Em in inv_main0. destruct inv_main0 as [Hsd Hsc].
    destruct (inv_cancel_set0 Hsc) as [[k Hk]|Hw]; fin.
    assert (Hwd : watcher s = WDone).
    { rewrite inv_close_wg0 in Ez. destruct (watcher s); fin. }
    constructor; simpl; rewrite ?Hwd in *; fin.
    all: wcase.
    all: try solve [rewrite <- inv_start_ok0; by apply elem_of_snoc_ne].
    all: try solve [intros e H; apply elem_of_app in H as [H|H]; eauto].
Qed.

Lemma sup_inv_step w c i mc ch g s g' s' :
  sup_inv (interval c) (now s) mc g ->
  timedCollect_step w c i mc ch g s = Some (g', s') ->
  sup_inv (interval c) (now s) mc g' /\ now s' = now s.
Proof.
  intros (H1 & H2 & H3 & H4 & H5 & H6).
  unfold timedCollect_step.
  destruct (spc g) eqn:Epc.
  - (* SInit *)
    intros [= <- <-]. split; [|done]. destruct H6 as [Hn Hw].
    unfold sup_inv; simpl. rewrite Hn, Hw. splits; fin.
    exists (now s + 0). split; [done|].
    intros t0 Ht0. destruct (collected_at g); simpl in *; [done|lia].
  - (* SLoop *)
    destruct H6 as (Hn & d & Ht & Hd).
    destruct ch.
    + destruct (streaming_done s); intros [= <- <-].
      split; [|done]. unfold sup_inv; simpl. splits; fin.
    + rewrite Ht. destruct (d <=? now s) eqn:Ed; [|done].
      apply Z.leb_le in Ed.
      assert (Hsp : spaced (interval c) (now s :: collected_at g)).
      { destruct (collected_at g) as [|t0 l] eqn:El; [done|].
        split; [|done]. specialize (Hd t0 eq_refl). lia. }
      destruct (Collect mc (ncollect g)) as [data|e|p] eqn:Ec;
        intros [= <- <-]; (split; [|done]);
        unfold sup_inv; simpl; splits; fin.
      all: try (intros t0 [= <-]; lia).
      all: try (f_equal; done).
  - (* SWrite *)
    destruct H6 as (Hn & Hc).
    assert (Hw : forall k d, (writes g ++ [data]) !! k = Some d ->
                             Collect mc k = Ret d).
    { intros k d Hk. apply lookup_app_Some in Hk as [Hk|[Hle Hk]]; [eauto|].
      apply list_lookup_singleton_Some in Hk as [Hk <-].
      replace k with (length (writes g)) by lia. done. }
    destruct (stream_Write w i (length (writes g))) as [[]|e|p];
      intros [= <- <-]; (split; [|done]);
      unfold sup_inv; simpl; splits; fin.
    + rewrite length_app. simpl. lia.
    + eexists. split; [done|]. intros t0 Ht0. specialize (H5 _ Ht0). lia.
  - (* SDefer *)
    intros [= <- <-]. split; [|done].
    unfold sup_inv; simpl. splits; fin.
  - (* SClosed *)
    intros [= <- <-]. split.
    + unfold sup_inv; simpl. splits; fin.
    + unfold stream_Done. by destruct (_ <? _).
  - done.
Qed.

(** What a step of [timedCollect] does to the collector's shared fields:
    it adds errors, or it is the final [Done]. *)
Lemma timedCollect_step_shared w c i mc ch g s g' s' :
  timedCollect_step w c i mc ch g s = Some (g', s') ->
  (exists errs, s' = set_catcher (catcher s ++ errs) s
                /\ live g = true /\ live g' = true)
  \/ (s' = stream_Done s /\ spc g = SClosed /\ spc g' = SDone).
Proof.
  assert (Hid : s = set_catcher (catcher s ++ []) s).
  { destruct s; unfold set_catcher; simpl. by rewrite app_nil_r. }
  unfold timedCollect_step, live.
  destruct (spc g) eqn:Epc.
  - intros [= <- <-]. left. exists []. by split; [exact Hid|].
  - destruct ch.
    + destruct (streaming_done s); intros [= <- <-]. left. exists []. by split; [exact Hid|].
    + destruct (timer g) as [d|]; [|done]. destruct (d <=? now s); [|done].
      destruct (Collect mc (ncollect g)); intros [= <- <-]; left.
      * exists []. by split; [exact Hid|].
      * eexists [_]. done.
      * exists []. by split; [exact Hid|].
  - destruct (stream_Write w i (length (writes g))) as [[]|e|p];
      intros [= <- <-]; left.
    + exists []. by split; [exact Hid|].
    + eexists [_]. done.
    + exists []. by split; [exact Hid|].
  - intros [= <- <-]. left. simpl.
    unfold add_error; simpl.
    destruct (HandlePanicWithError p), (stream_Close w i); simpl.
    + eexists [_; _]. by rewrite <- app_assoc.
    + eexists [_]. done.
    + eexists [_]. done.
    + exists []. split; [|done]. clear. destruct s. simpl. by rewrite app_nil_r.
  - intros [= <- <-]. right. done.
  - done.
Qed.

Lemma Inv_sup_step w c i ch s s' :
  Inv c s -> panicked s = false -> sup_step w c i ch s = Some s' -> Inv c s'.
Proof.
  intros HI Hp. unfold sup_step.
  destruct (sups s !! i) as [g|] eqn:Eg; [|done].
  destruct (collectors c !! i) as [mc|] eqn:Emc; [|done].
  destruct (timedCollect_step w c i mc ch g s) as [[g' s1]|] eqn:Est; [|done].
  intros [= <-].
  destruct (inv_sups c s HI i g Eg) as (mc' & Emc' & Hg).
  assert (mc' = mc) as -> by congruence.
  destruct (sup_inv_step w c i mc ch g s g' s1 Hg Est) as [Hg' Hnow].
  pose proof (live_count_insert (sups s) i g g' Eg) as Hlc.
  assert (Hsups : forall j gj, <[i := g']> (sups s) !! j = Some gj ->
            exists mcj, collectors c !! j = Some mcj
                        /\ sup_inv (interval c) (now s) mcj gj).
  { intros j gj Hj. destruct (decide (j = i)) as [->|Hne].
    - rewrite list_lookup_insert_eq in Hj by (by eapply lookup_lt_Some).
      injection Hj as <-. eauto.
    - rewrite list_lookup_insert_ne in Hj by done.
      by apply (inv_sups c s HI). }
  assert (Hlive : live g = true -> ~ match watcher s with
                    | WBody _ | WAfter _ | WDone => True | _ => False end).
  { intros Hl Hw. pose proof (inv_drained c s HI) as Hd.
    pose proof (inv_wg c s HI) as Hwg.
    assert (live_count (sups s) = 0%nat) by (destruct (watcher s); fin; lia).
    pose proof (live_count_0 _ _ _ H Eg) as E. unfold live in Hl.
    by rewrite E in Hl. }
  destruct (timedCollect_step_shared _ _ _ _ _ _ _ _ _ Est)
    as [(errs & -> & Hl & Hl')|(-> & Epc & Epc')].
  - rewrite Hl, Hl' in Hlc. specialize (Hlive Hl).
    destruct HI. constructor; simpl; fin.
    all: wcase.
    all: try solve [rewrite inv_wg0; f_equal; lia].
    all: try solve [rewrite length_insert; done].
    all: try solve [destruct (watcher s); fin].
    all: try solve [destruct (main s); fin;
                    [destruct inv_main0 as (E&_); by rewrite E in Eg
                    |by rewrite length_insert]].
  - assert (Hl : live g = true) by (unfold live; by rewrite Epc).
    assert (Hl' : live g' = false) by (unfold live; by rewrite Epc').
    rewrite Hl, Hl' in Hlc. specialize (Hlive Hl).
    unfold stream_Done.
    pose proof (inv_wg c s HI) as Hwg.
    destruct (stream_wg s - 1 <? 0) eqn:Eneg; [apply Z.ltb_lt in Eneg; lia|].
    destruct HI. constructor; simpl; fin.
    all: wcase.
    all: try solve [lia].
    all: try solve [rewrite length_insert; done].
    all: try solve [destruct (watcher s); fin].
    all: try solve [destruct (main s); fin;
                    [destruct inv_main0 as (E&_); by rewrite E in Eg
                    |by rewrite length_insert]].
Qed.

Ltac wfin :=
  try solve [intros _; by right];
  try solve [split; [done | intros _;
    match goal with H : _ ∈ _ <-> _ |- _ => by apply H end]];
  try solve [match goal with
             | H : _ ∈ _ <-> _ |- _ <-> _ => rewrite H; split; done
             end].

Ltac mfin :=
  try solve [match goal with |- context [main ?s] =>
               destruct (main s); simpl in *; fin end].

Lemma Inv_watcher_step w c ch s s' :
  Inv c s -> panicked s = false -> watcher_step w c ch s = Some s' -> Inv c s'.
Proof.
  intros HI Hp. unfold watcher_step.
  destruct (watcher s) eqn:Ew; fin.
  all: destruct (inv_launched c s HI)
         as (Hlen & Hsc & Hstr & [cl Hcl] & _ & Hns); [by rewrite Ew|].
  - (* WSelect *)
    destruct ch.
    + destruct (outer_done s); intros [= <-].
      destruct HI. constructor; simpl; rewrite ?Ew in *; fin.
      all: wcase.
      all: mfin.
      all: wfin; mfin.
    + destruct (streaming_done s) eqn:Esd; intros [= <-].
      destruct HI. constructor; simpl; rewrite ?Ew in *; fin.
      all: wcase.
      all: wfin; mfin.
  - (* WWait *)
    destruct (stream_wg s =? 0) eqn:Ez; intros [= <-].
    apply Z.eqb_eq in Ez.
    destruct HI. constructor; simpl; rewrite ?Ew in *; fin.
    all: wcase.
    all: wfin; mfin.
  - (* WBody *)
    intros [= <-].
    unfold cleanup_locked. rewrite Hcl.
    destruct HI. rewrite Ew in *. destruct inv_remote0 as [Hcc Hss].
    destruct (String.eqb (id s) "") eqn:Eid;
      constructor; simpl; rewrite ?Ew, ?Eid, ?Hcc, ?Hss in *; simpl; fin.
      all: wcase.
    all: try solve [split; [done|]; by eexists].
    all: mfin.
    all: wfin; mfin.
  - (* WAfter *)
    intros [= <-].
    unfold close_Done.
    destruct HI. rewrite Ew in *.
    destruct outer; simpl; rewrite inv_close_wg0; simpl;
      constructor; simpl; rewrite ?Ew in *; fin.
      all: wcase.
    all: try solve [by right].
    all: try solve [by left].
    all: wfin; mfin.
    all: try solve [right; by rewrite inv_logged0].
Qed.

Lemma Inv_step w c a s s' : Inv c s -> step w c a s = Some s' -> Inv c s'.
Proof.
  intros HI. unfold step. destruct (panicked s) eqn:Hp; [done|].
  destruct a.
  - intros [= <-]. by apply Inv_tick.
  - intros [= <-]. by apply Inv_cancel.
  - destruct (outer_done s); [|done].
    destruct (streaming s) as [[]|] eqn:E; fin.
    intros [= <-]. apply Inv_streaming; [by rewrite E|done].
  - destruct (main s) eqn:Em; fin. intros [= <-].
    by apply Inv_Start_enter.
  - destruct (main s) eqn:Em; fin; intros [= <-];
      apply Inv_Close_enter; fin; rewrite Em; intros [k Hk]; done.
  - by apply Inv_main_step.
  - by apply Inv_sup_step.
  - by apply Inv_watcher_step.
Qed.

Lemma Inv_run w c acts s s' : Inv c s -> run w c acts s = Some s' -> Inv c s'.
Proof.
  revert s. induction acts as [|a acts IH]; simpl; intros s HI.
  - by intros [= <-].
  - destruct (step w c a s) as [s1|] eqn:E; [|done].
    apply IH. by eapply Inv_step.
Qed.

Lemma reachable_Inv w c s : reachable w c s -> Inv c s.
Proof. intros [acts H]. eapply Inv_run; [apply Inv_init | done]. Qed.

(** ** What each kind of step leaves alone *)

Lemma sup_step_frame w c i ch s s' :
  sup_step w c i ch s = Some s' ->
  same_outside_sups s s'
  /\ (forall j, j <> i -> sups s' !! j = sups s !! j)
  /\ length (sups s') = length (sups s).
Proof.
  unfold sup_step.
  destruct (sups s !! i) as [g|] eqn:Eg; [|done].
  destruct (collectors c !! i) as [mc|] eqn:Emc; [|done].
  destruct (timedCollect_step w c i mc ch g s) as [[g' s1]|] eqn:Est; [|done].
  intros [= <-].
  destruct (timedCollect_step_shared _ _ _ _ _ _ _ _ _ Est)
    as [(errs & -> & _)|(-> & _)]; simpl.
  - split; [by unfold same_outside_sups|]. split.
    + intros j Hj. by rewrite list_lookup_insert_ne.
    + by rewrite length_insert.
  - unfold stream_Done. destruct (_ <? _); simpl.
    all: (split; [by unfold same_outside_sups|]); split;
      [intros j Hj; by rewrite list_lookup_insert_ne | by rewrite length_insert].
Qed.

(** The remote session is only ever closed by [cleanup], and the flag it
    passes is computed from the catcher as it is at that moment. *)
Lemma session_closes_step w c a s s' :
  step w c a s = Some s' ->
  session_closes s' = session_closes s
  \/ (exists b ch, a = AWatch ch /\ watcher s = WBody b
        /\ session_closes s' =
             session_closes s ++ [(id s, HasErrors (catcher s))]).
Proof.
  unfold step. destruct (panicked s); [done|]. destruct a.
  - intros [= <-]. by left.
  - intros [= <-]. by left.
  - destruct (outer_done s); [|done]. destruct (streaming s) as [[]|]; fin.
    intros [= <-]. by left.
  - destruct (main s); fin. intros [= <-]. left.
    unfold Start_enter. simpl. destruct (client c); [|done].
    by destruct (CreateSystemMetricsRecord w (taskOpts c)) as [rid [e|]].
  - unfold Close_enter.
    destruct (main s); fin; intros [= <-]; left; by destruct (closed s).
  - unfold main_step. destruct (main s); fin.
    + intros [= <-]. left. unfold Start_loop.
      destruct (collectors c !! k); [|done].
      by destruct (StreamSystemMetrics w k).
    + destruct (streamingCancel s); intros [= <-]; by left.
    + destruct (close_wg s =? 0); intros [= <-]. by left.
  - intros H. left. apply sup_step_frame in H as [H _]. apply H.
  - unfold watcher_step. destruct (watcher s) eqn:Ew; fin.
    + destruct ch; [destruct (outer_done s)|destruct (streaming_done s)];
        intros [= <-]; by left.
    + destruct (stream_wg s =? 0); intros [= <-]. by left.
    + intros [= <-]. unfold cleanup_locked.
      destruct (client c); [|by left].
      destruct (String.eqb (id s) ""); [by left|].
      right. exists outer, ch. done.
    + intros [= <-]. left. unfold close_Done.
      destruct outer; simpl; by destruct (_ <? _).
Qed.

Lemma all_done_of_drained c s :
  Inv c s ->
  match watcher s with WBody _ | WAfter _ | WDone => True | _ => False end ->
  forall i g, sups s !! i = Some g ->
    spc g = SDone /\ stream_closes g = 1%nat.
Proof.
  intros HI Hw i g Hg.
  assert (Hz : live_count (sups s) = 0%nat).
  { pose proof (inv_wg c s HI). pose proof (inv_drained c s HI).
    destruct (watcher s); fin; lia. }
  pose proof (live_count_0 _ _ _ Hz Hg) as E. split; [done|].
  destruct (inv_sups c s HI i g Hg) as (mc & _ & H1 & _).
  by rewrite E in H1.
Qed.

(** ** Progress *)

Lemma total_rank_insert (l : list sup) i g g' :
  l !! i = Some g ->
  (total_rank (<[i := g']> l) + rank g = total_rank l + rank g')%nat.
Proof.
  revert i; induction l as [|h l IH]; intros [|i] H; simpl in *; try done.
  - injection H as ->. lia.
  - specialize (IH _ H). lia.
Qed.

Lemma live_exists (l : list sup) :
  live_count l <> 0%nat -> exists i g, l !! i = Some g /\ spc g <> SDone.
Proof.
  induction l as [|h l IH]; simpl; [done|]. intros H.
  destruct (live h) eqn:El.
  - exists 0%nat, h. split; [done|]. unfold live in El. by destruct (spc h).
  - destruct IH as (i & g & Hi & Hg); [lia|]. by exists (S i), g.
Qed.

Lemma sup_step_no_panic w c i ch s s' :
  Inv c s -> panicked s = false -> sup_step w c i ch s = Some s' ->
  panicked s' = false.
Proof.
  intros HI Hp. unfold sup_step.
  destruct (sups s !! i) as [g|] eqn:Eg; [|done].
  destruct (collectors c !! i) as [mc|] eqn:Emc; [|done].
  destruct (timedCollect_step w c i mc ch g s) as [[g' s1]|] eqn:Est; [|done].
  intros [= <-].
  destruct (timedCollect_step_shared _ _ _ _ _ _ _ _ _ Est)
    as [(errs & -> & _)|(-> & Epc & Epc')]; simpl; [done|].
  pose proof (live_count_insert (sups s) i g g' Eg) as Hlc.
  unfold live in Hlc. rewrite Epc, Epc' in Hlc.
  pose proof (inv_wg c s HI) as Hwg.
  unfold stream_Done.
  destruct (stream_wg s - 1 <? 0) eqn:Eneg; [apply Z.ltb_lt in Eneg; lia|done].
Qed.

(** A goroutine whose context is cancelled can always take the cancelled
    case, and gets closer to returning. *)
Lemma sup_progress w c s i g :
  Inv c s -> panicked s = false -> streaming_done s = true ->
  sups s !! i = Some g -> spc g <> SDone ->
  exists s', step w c (ASup i First) s = Some s'
             /\ (total_rank (sups s') < total_rank (sups s))%nat.
Proof.
  intros HI Hp Hsd Hg Hpc. unfold step. rewrite Hp. unfold sup_step. rewrite Hg.
  destruct (inv_sups c s HI i g Hg) as (mc & -> & _).
  assert (Hsd' : sups (stream_Done s) = sups s)
    by (unfold stream_Done; by destruct (_ <? _)).
  unfold timedCollect_step. rewrite Hsd.
  destruct (spc g) eqn:Epc; fin.
  3: destruct (stream_Write w i (length (writes g))) as [[]|e|p].
  all: eexists; (split; [done|]); simpl; rewrite ?Hsd';
    match goal with
    | |- (total_rank (<[_:=?g']> _) < _)%nat =>
        pose proof (total_rank_insert (sups s) i g g' Hg) as Hr
    end;
    unfold rank in Hr; simpl in Hr; rewrite Epc in Hr; lia.
Qed.

Lemma run_app w c acts1 acts2 s :
  run w c (acts1 ++ acts2) s =
  match run w c acts1 s with
  | Some s1 => run w c acts2 s1
  | None => None
  end.
Proof.
  revert s. induction acts1 as [|a acts1 IH]; simpl; intros s; [done|].
  by destruct (step w c a s).
Qed.

Lemma reachable_run w c acts s s' :
  reachable w c s -> run w c acts s = Some s' -> reachable w c s'.
Proof.
  intros [acts0 H0] H. exists (acts0 ++ acts). by rewrite run_app, H0.
Qed.

Lemma quiet_nil : quiet [].
Proof. by apply Forall_nil. Qed.

Lemma quiet_watch ch acts : quiet acts -> quiet (AWatch ch :: acts).
Proof. intros H. apply Forall_cons. by split. Qed.

Lemma quiet_sup i ch acts : quiet acts -> quiet (ASup i ch :: acts).
Proof. intros H. apply Forall_cons. by split. Qed.

Lemma quiet_app acts1 acts2 : quiet acts1 -> quiet acts2 -> quiet (acts1 ++ acts2).
Proof. intros H1 H2. apply Forall_app. by split. Qed.

Lemma watcher_step_frame w c ch s s' :
  watcher_step w c ch s = Some s' ->
  same_for_caller s s' /\ sups s' = sups s /\ stream_wg s' = stream_wg s.
Proof.
  unfold watcher_step, same_for_caller. destruct (watcher s); fin.
  - destruct ch;
      [destruct (outer_done s) eqn:E|destruct (streaming_done s) eqn:E];
      intros [= <-]; done.
  - destruct (stream_wg s =? 0); intros [= <-]; done.
  - intros [= <-]. unfold cleanup_locked. destruct (client c); [|done].
    by destruct (String.eqb (id s) "").
  - intros [= <-]. unfold close_Done.
    destruct outer; simpl; by destruct (_ <? _).
Qed.

Lemma quiet_run_frame w c acts s s' :
  quiet acts -> run w c acts s = Some s' -> same_for_caller s s'.
Proof.
  intros Hq. revert s. induction Hq as [|a acts Ha Hq IH]; simpl; intros s.
  - by intros [= <-].
  - destruct (step w c a s) as [s1|] eqn:Est; [|done]. intros Hrun.
    specialize (IH _ Hrun).
    assert (H1 : same_for_caller s s1).
    { unfold step in Est. destruct (panicked s); [done|].
      destruct a; fin.
      - apply sup_step_frame in Est as [(?&?&?&?&?&?&?&?&?&?&?&?&?&?&?) _].
        by unfold same_for_caller.
      - by apply watcher_step_frame in Est as [? _]. }
    unfold same_for_caller in *. destruct IH as (?&?&?&?&?&?&?&?).
    destruct H1 as (?&?&?&?&?&?&?&?). splits; congruence.
Qed.

(** Once [streamingCtx] is cancelled, all the [timedCollect] goroutines can
    run to their end. *)
Lemma drain w c n s :
  (total_rank (sups s) <= n)%nat ->
  Inv c s -> panicked s = false -> streaming_done s = true ->
  exists acts s', run w c acts s = Some s' /\ quiet acts
    /\ stream_wg s' = 0 /\ watcher s' = watcher s /\ panicked s' = false.
Proof.
  revert s. induction n as [|n IH]; intros s Hn HI Hp Hsd.
  all: destruct (decide (live_count (sups s) = 0%nat)) as [Hz|Hnz].
  1,3: exists [], s; simpl; splits; fin;
         [apply quiet_nil | rewrite (inv_wg c s HI); lia].
  all: destruct (live_exists _ Hnz) as (i & g & Hg & Hpc).
  all: destruct (sup_progress w c s i g HI Hp Hsd Hg Hpc) as (s1 & Hst & Hlt).
  - lia.
  - pose proof (Inv_step _ _ _ _ _ HI Hst) as HI1.
    assert (Hst' : sup_step w c i First s = Some s1).
    { unfold step in Hst. by rewrite Hp in Hst. }
    pose proof (sup_step_no_panic _ _ _ _ _ _ HI Hp Hst') as Hp1.
    destruct (sup_step_frame _ _ _ _ _ _ Hst')
      as [(_&_&_&_&_&Hstr&_&_&Hw&_) _].
    destruct (IH s1) as (acts & s' & Hrun & Hq & Hz & Hw' & Hp'); fin.
    + lia.
    + unfold streaming_done in *. by rewrite Hstr.
    + exists (ASup i First :: acts), s'. simpl. rewrite Hst.
      splits; fin. by apply quiet_sup.
Qed.

(** After a successful [Start], once either context is cancelled,
    [closeOnCancel] can run to its end with no help from the caller. *)
Lemma watcher_finishes w c s :
  Inv c s -> panicked s = false -> watcher s <> WNone ->
  outer_done s = true \/ streaming_done s = true ->
  exists acts s', run w c acts s = Some s' /\ quiet acts
                  /\ watcher s' = WDone /\ panicked s' = false.
Proof.
  intros HI Hp Hw Hc.
  (* from WAfter *)
  assert (HA : forall s b, Inv c s -> panicked s = false ->
            watcher s = WAfter b ->
            exists acts s', run w c acts s = Some s' /\ quiet acts
                            /\ watcher s' = WDone /\ panicked s' = false).
  { clear. intros s b HI Hp Hw.
    exists [AWatch First]. simpl. unfold step, watcher_step.
    rewrite Hp, Hw. eexists. split; [done|].
    split; [apply quiet_watch, quiet_nil|]. split; [done|].
    unfold close_Done. pose proof (inv_close_wg c s HI) as E.
    rewrite Hw in E. destruct b; simpl; rewrite E; done. }
  (* from WBody *)
  assert (HB : forall s b, Inv c s -> panicked s = false ->
            watcher s = WBody b ->
            exists acts s', run w c acts s = Some s' /\ quiet acts
                            /\ watcher s' = WDone /\ panicked s' = false).
  { clear -HA. intros s b HI Hp Hw.
    destruct (step w c (AWatch First) s) as [s1|] eqn:Est.
    2: { unfold step, watcher_step in Est. by rewrite Hp, Hw in Est. }
    pose proof (Inv_step _ _ _ _ _ HI Est) as HI1.
    assert (watcher s1 = WAfter b /\ panicked s1 = false) as [Hw1 Hp1].
    { unfold step, watcher_step in Est. rewrite Hp, Hw in Est.
      injection Est as <-. split; [done|]. simpl.
      unfold cleanup_locked. destruct (client c); [|done].
      by destruct (String.eqb (id s) ""). }
    destruct (HA s1 b HI1 Hp1 Hw1) as (acts & s' & Hrun & Hq & ?).
    exists (AWatch First :: acts), s'. simpl. rewrite Est.
    split; [done|]. split; [by apply quiet_watch|done]. }
  (* from WWait *)
  assert (HW : forall s b, Inv c s -> panicked s = false ->
            watcher s = WWait b ->
            exists acts s', run w c acts s = Some s' /\ quiet acts
                            /\ watcher s' = WDone /\ panicked s' = false).
  { clear -HB. intros s b HI Hp Hw.
    pose proof (inv_cancelled c s HI) as Hsd. rewrite Hw in Hsd.
    destruct (drain w c _ s (Nat.le_refl _) HI Hp Hsd)
      as (acts1 & s1 & Hrun1 & Hq1 & Hz & Hw1 & Hp1).
    pose proof (Inv_run _ _ _ _ _ HI Hrun1) as HI1.
    rewrite Hw in Hw1.
    destruct (step w c (AWatch First) s1) as [s2|] eqn:Est.
    2: { unfold step, watcher_step in Est. by rewrite Hp1, Hw1, Hz in Est. }
    pose proof (Inv_step _ _ _ _ _ HI1 Est) as HI2.
    assert (watcher s2 = WBody b /\ panicked s2 = false) as [Hw2 Hp2].
    { unfold step, watcher_step in Est. rewrite Hp1, Hw1, Hz in Est.
      by injection Est as <-. }
    destruct (HB s2 b HI2 Hp2 Hw2) as (acts & s' & Hrun & Hq & ?).
    exists (acts1 ++ AWatch First :: acts), s'.
    rewrite run_app, Hrun1. simpl. rewrite Est.
    split; [done|]. split; [|done].
    apply quiet_app; [done|]. by apply quiet_watch. }
  destruct (watcher s) eqn:Ew; fin.
  2: by apply (HW s outer).
  2: by apply (HB s outer).
  2: by apply (HA s outer).
  - (* WSelect *)
    assert (exists ch s1, step w c (AWatch ch) s = Some s1
              /\ (exists b, watcher s1 = WWait b) /\ panicked s1 = false)
      as (ch & s1 & Est & [b Hw1] & Hp1).
    { unfold step, watcher_step. rewrite Hp, Ew.
      destruct Hc as [Hc|Hc].
      - exists First. rewrite Hc. eexists. split; [done|]. simpl. eauto.
      - exists Second. rewrite Hc. eexists. split; [done|]. simpl. eauto. }
    pose proof (Inv_step _ _ _ _ _ HI Est) as HI1.
    destruct (HW s1 b HI1 Hp1 Hw1) as (acts & s' & Hrun & Hq & ?).
    exists (AWatch ch :: acts), s'. simpl. rewrite Est.
    split; [done|]. split; [by apply quiet_watch|done].
  - (* WDone *)
    exists [], s. simpl. splits; fin. apply quiet_nil.
Qed.

(** * The claims *)

(** C8: the remote session is closed only once every [timedCollect]
    goroutine has returned and closed its stream. The step that calls
    [CloseSystemMetrics] is taken in a state where all of them are done,
    and in every state where the session has been closed, one goroutine per
    collector was launched, each has returned after one [stream.Close], and
    none can take a step any more. *)
Theorem session_closed_after_supervisors w c s :
  reachable w c s ->
  (forall a s', step w c a s = Some s' ->
     session_closes s' <> session_closes s ->
     length (sups s) = length (collectors c)
     /\ forall i g, sups s !! i = Some g ->
          spc g = SDone /\ stream_closes g = 1%nat)
  /\ (session_closes s <> [] ->
      length (sups s) = length (collectors c)
      /\ forall i g, sups s !! i = Some g ->
           spc g = SDone /\ stream_closes g = 1%nat
           /\ forall ch, sup_step w c i ch s = None).
Proof.
  intros Hr. pose proof (reachable_Inv _ _ _ Hr) as HI. split.
  - intros a s' Hst Hne.
    destruct (session_closes_step _ _ _ _ _ Hst) as [E|(b & ch & -> & Ew & _)];
      [done|].
    split.
    + apply (inv_launched c s HI). by rewrite Ew.
    + apply (all_done_of_drained c s HI). by rewrite Ew.
  - intros Hne.
    assert (Hw : match watcher s with
                 | WBody _ | WAfter _ | WDone => True | _ => False end).
    { pose proof (inv_remote c s HI) as H. destruct (watcher s); fin.
      all: by destruct H. }
    split.
    + apply (inv_launched c s HI). by destruct (watcher s).
    + intros i g Hg.
      destruct (all_done_of_drained c s HI Hw i g Hg) as [E1 E2].
      splits; fin. intros ch. unfold sup_step. rewrite Hg.
      destruct (collectors c !! i); [|done].
      unfold timedCollect_step. by rewrite E1.
Qed.

Ltac rej := eexists; (split; [|split; reflexivity]); done.

(** C6: validation fails with a message exactly when the task is absent,
    the interval is negative, there is no collector, both or neither of
    the communicator and the connection are given, the flush interval is
    negative or the buffer size is negative, and the constructor then
    returns before obtaining a client; otherwise validation succeeds and
    only replaces a zero interval by one minute. *)
Theorem validate_rejects_or_normalizes (d : dialer)
    (o : systemMetricsCollectorOptions) :
  if rejects o then
    exists msg,
      msg <> ""
      /\ snd (systemMetricsCollectorOptions_validate o) = Some (ErrNew msg)
      /\ newSystemMetricsCollector d o
         = (None, Some (ErrWrap (ErrNew msg) "invalid options"), [])
  else
    systemMetricsCollectorOptions_validate o = (normalize o, None)
    /\ opt_Interval (normalize o)
       = (if opt_Interval o =? 0 then time_Minute else opt_Interval o)
    /\ 0 < opt_Interval (normalize o)
    /\ set_Interval (opt_Interval o) (normalize o) = o.
Proof.
  destruct o as [t iv cs comm conn mb nf fl].
  unfold rejects, normalize, newSystemMetricsCollector,
    systemMetricsCollectorOptions_validate; simpl.
  destruct t as [t|]; simpl; [|rej].
  destruct (iv <? 0) eqn:Eiv; simpl; [rej|].
  apply Z.ltb_ge in Eiv.
  destruct (iv =? 0) eqn:Ez; simpl.
  all: destruct cs as [|mc cs]; simpl; [rej|].
  all: destruct comm as [comm|], conn as [conn|]; simpl;
         try (rej).
  all: destruct (fl <? 0) eqn:Efl; simpl; [rej|].
  all: destruct (mb <? 0) eqn:Emb; simpl; [rej|].
  all: splits; try done.
  all: try (apply Z.eqb_eq in Ez; subst; done).
  all: apply Z.eqb_neq in Ez; lia.
Qed.

Lemma demo_collector_built cs :
  cs <> [] ->
  newSystemMetricsCollector demo_dialer (demo_options cs)
  = (Some (demo_collector cs), None, [AcqExistingConn demo_conn]).
Proof. by destruct cs. Qed.

(** C7: [dataFormat.validate] rejects format 5, but option validation
    never calls it: options with a collector of format 5 are accepted, a
    collector is built, and [Start] passes the format on to
    [StreamSystemMetrics]. *)
Theorem unknown_format_reaches_stream_opening :
  dataFormat_validate (Format odd_format)
    = Some (ErrNew "invalid schema type specified")
  /\ snd (systemMetricsCollectorOptions_validate (demo_options [odd_format]))
     = None
  /\ newSystemMetricsCollector demo_dialer (demo_options [odd_format])
     = (Some (demo_collector [odd_format]), None, [AcqExistingConn demo_conn])
  /\ opened <$> run cedar_ok (demo_collector [odd_format])
                  [ACallStart; AMain] init
     = Some [{| mdo_Id := "rec1"; mdo_MetricType := "odd"; mdo_Format := 5 |}].
Proof. splits; vm_compute; reflexivity. Qed.

(** C1: when the second stream cannot be opened, [Start] cancels
    [streamingCtx] and returns the error, but it has set
    [s.streamingCancel] to nil and has not launched [closeOnCancel]: the
    [Close] that follows panics on the nil function, and neither the
    session nor the client is ever closed. *)
Theorem Close_after_failed_stream_open_panics :
  let c := demo_collector [uptime; disk] in
  let s1 := run cedar_no_second_stream c
              [ACallStart; AMain; ASup 0 First; ASup 0 Second; AMain] init in
  let s2 := run cedar_no_second_stream c
              [ACallStart; AMain; ASup 0 First; ASup 0 Second; AMain;
               ACallClose; AMain] init in
  (returns <$> s1
     = Some [(CallStart,
              Some (ErrWrap (ErrNew "stream refused")
                      "problem creating system metrics stream for id rec1 and metricType disk"))]
   /\ streaming <$> s1 = Some (Some true)
   /\ streamingCancel <$> s1 = Some false
   /\ watcher <$> s1 = Some WNone
   /\ pcs <$> s1 = Some [SWrite [x01]])
  /\ (panicked <$> s2 = Some true
      /\ session_closes <$> s2 = Some []
      /\ client_closes <$> s2 = Some 0%nat
      /\ returns <$> s2 = returns <$> s1)
  /\ forall acts, acts <> [] ->
       (s2 ≫= run cedar_no_second_stream c acts) = None.
Proof.
  cbv zeta. splits; try (vm_compute; reflexivity).
  intros [|a acts] H; [done|]. vm_compute. reflexivity.
Qed.




Lemma sup_step_None_of_drained w c i ch s :
  Inv c s ->
  match watcher s with WBody _ | WAfter _ | WDone => True | _ => False end ->
  sup_step w c i ch s = None.
Proof.
  intros HI Hw. unfold sup_step.
  destruct (sups s !! i) as [g|] eqn:Eg; [|done].
  destruct (all_done_of_drained c s HI Hw i g Eg) as [E _].
  destruct (collectors c !! i); [|done].
  unfold timedCollect_step. by rewrite E.
Qed.

(** Once the collector is marked closed and no call is in progress, the
    only thing the caller can still observe is the already-closed error. *)
Lemma closed_idle_step w c a s s' :
  Inv c s -> closed s = true -> main s = MIdle -> step w c a s = Some s' ->
  closed s' = true /\ main s' = MIdle /\ catcher s' = catcher s
  /\ session_closes s' = session_closes s
  /\ client_closes s' = client_closes s
  /\ (returns s' = returns s
      \/ (a = ACallClose
          /\ returns s' = returns s ++ [(CallClose, Some errClosed)])).
Proof.
  intros HI Hc Hm Hst.
  assert (Hw : match watcher s with WAfter _ | WDone => True | _ => False end).
  { pose proof (inv_closed c s HI) as E. rewrite Hc in E.
    by destruct (watcher s). }
  unfold step in Hst. destruct (panicked s); [done|]. destruct a.
  - injection Hst as <-. simpl. splits; fin.
  - injection Hst as <-. simpl. splits; fin.
  - destruct (outer_done s); [|done]. destruct (streaming s) as [[]|]; fin.
    injection Hst as <-. simpl. splits; fin.
  - by rewrite Hm in Hst.
  - rewrite Hm in Hst. unfold Close_enter in Hst. rewrite Hc in Hst.
    injection Hst as <-. simpl. splits; fin; by right.
  - unfold main_step in Hst. by rewrite Hm in Hst.
  - rewrite sup_step_None_of_drained in Hst; [done|done|].
    by destruct (watcher s).
  - unfold watcher_step in Hst. destruct (watcher s); fin.
    injection Hst as <-. unfold close_Done.
    destruct outer; simpl; destruct (_ <? _); simpl; splits; fin.
Qed.

Lemma closed_idle_run w c acts s s' :
  Inv c s -> closed s = true -> main s = MIdle ->
  run w c acts s = Some s' ->
  closed s' = true /\ main s' = MIdle /\ catcher s' = catcher s
  /\ session_closes s' = session_closes s
  /\ client_closes s' = client_closes s
  /\ exists k, returns s' =
       returns s ++ replicate k (CallClose, Some errClosed).
Proof.
  revert s. induction acts as [|a acts IH]; simpl; intros s HI Hc Hm.
  - intros [= <-]. splits; fin. exists 0%nat. by rewrite app_nil_r.
  - destruct (step w c a s) as [s1|] eqn:E; [|done]. intros Hrun.
    destruct (closed_idle_step _ _ _ _ _ HI Hc Hm E)
      as (Hc1 & Hm1 & Hca & Hsc & Hcc & Hret).
    destruct (IH s1 (Inv_step _ _ _ _ _ HI E) Hc1 Hm1 Hrun)
      as (?&?&?&?&?&k&Hk).
    splits; fin. destruct Hret as [Hret|[_ Hret]].
    + exists k. by rewrite Hk, Hret.
    + exists (S k). rewrite Hk, Hret. by rewrite <- app_assoc.
Qed.

(** C10: once cleanup has run, whichever cancellation started it, the
    collector is marked closed; a call to [Close] made then, even the first
    one ever, returns the already-cancelled-or-closed error and touches
    nothing else, and from then on no call returns anything but that
    error, so the errors in the catcher reach no caller. *)
Theorem Close_after_cleanup_is_rejected w c s :
  reachable w c s ->
  (watcher s = WAfter true \/ watcher s = WAfter false \/ watcher s = WDone) ->
  main s = MIdle ->
  closed s = true
  /\ step w c ACallClose s = Some (add_return CallClose (Some errClosed) s)
  /\ forall acts s', run w c acts s = Some s' ->
       catcher s' = catcher s
       /\ exists k, returns s' =
            returns s ++ replicate k (CallClose, Some errClosed).
Proof.
  intros Hr Hw Hm. pose proof (reachable_Inv _ _ _ Hr) as HI.
  assert (Hc : closed s = true).
  { rewrite (inv_closed c s HI). by destruct Hw as [-> | [-> | ->]]. }
  assert (Hp : panicked s = false).
  { apply (inv_launched c s HI). by destruct Hw as [-> | [-> | ->]]. }
  split; [done|]. split.
  - unfold step. rewrite Hp, Hm. unfold Close_enter. by rewrite Hc.
  - intros acts s' Hrun.
    destruct (closed_idle_run _ _ _ _ _ HI Hc Hm Hrun) as (?&?&?&?&?&?).
    done.
Qed.

Lemma closes_at_most_once c s :
  Inv c s -> (length (session_closes s) <= 1 /\ client_closes s <= 1)%nat.
Proof.
  intros HI. pose proof (inv_remote c s HI) as H.
  destruct (watcher s); destruct H as [-> H]; try (rewrite H; simpl; lia).
  all: destruct H as [flag ->]; destruct (String.eqb _ _); simpl; lia.
Qed.

(** C3 (as amended): cleanup runs at most once. A [Close] that finds the
    collector not yet marked closed after a successful [Start] cancels
    [streamingCtx], can only return once [closeOnCancel] has finished
    cleanup, does return, and returns the resolved catcher. A [Close] made
    after a [Close] has returned gets the already-closed error and changes
    nothing but the list of returned values. *)
Theorem Close_is_effective_once w c s :
  reachable w c s ->
  (length (session_closes s) <= 1 /\ client_closes s <= 1)%nat
  /\ ((CallStart, None) ∈ returns s -> main s = MIdle -> closed s = false ->
      exists s1 s2 acts s3 s4,
        step w c ACallClose s = Some s1 /\ step w c AMain s1 = Some s2
        /\ main s2 = MCloseWait /\ streaming_done s2 = true
        /\ quiet acts /\ run w c acts s2 = Some s3
        /\ step w c AMain s3 = Some s4
        /\ main s4 = MIdle
        /\ returns s4 = returns s ++ [(CallClose, Resolve (catcher s4))])
  /\ (main s = MCloseWait -> forall s', step w c AMain s = Some s' ->
      watcher s = WDone /\ closed s = true /\ client_closes s = 1%nat
      /\ returns s' = returns s ++ [(CallClose, Resolve (catcher s))])
  /\ (forall e, (CallClose, e) ∈ returns s -> main s = MIdle ->
      step w c ACallClose s = Some (add_return CallClose (Some errClosed) s)).
Proof.
  intros Hr. pose proof (reachable_Inv _ _ _ Hr) as HI.
  split; [by apply (closes_at_most_once c)|]. split; [|split].
  - intros Hst Hm Hc.
    apply (inv_start_ok c s HI) in Hst.
    destruct (inv_launched c s HI Hst) as (_ & Hsc & _ & _ & Hp & _).
    assert (E1 : step w c ACallClose s = Some (set_main MCloseCancel s)).
    { unfold step. rewrite Hp, Hm. unfold Close_enter. by rewrite Hc. }
    assert (E2 : step w c AMain (set_main MCloseCancel s)
                 = Some (set_main MCloseWait
                           (cancel_streaming (set_main MCloseCancel s)))).
    { unfold step. simpl. rewrite Hp. unfold main_step. simpl. by rewrite Hsc. }
    pose proof (Inv_step _ _ _ _ _ (Inv_step _ _ _ _ _ HI E1) E2) as HI2.
    destruct (watcher_finishes w c _ HI2) as (acts & s3 & Hrun & Hq & Hw3 & Hp3);
      [done|done|by right|].
    pose proof (Inv_run _ _ _ _ _ HI2 Hrun) as HI3.
    destruct (quiet_run_frame _ _ _ _ _ Hq Hrun) as (Hm3 & Hret3 & _).
    simpl in Hm3, Hret3.
    pose proof (inv_close_wg c s3 HI3) as Hcw. rewrite Hw3 in Hcw.
    eexists _, _, acts, s3, _. split; [exact E1|]. split; [exact E2|].
    split; [done|]. split; [done|]. split; [done|]. split; [exact Hrun|].
    unfold step. rewrite Hp3. unfold main_step. rewrite Hm3, Hcw. simpl.
    split; [done|]. simpl. by rewrite Hret3.
  - intros Hm s' Hst. unfold step in Hst.
    destruct (panicked s); [done|]. unfold main_step in Hst. rewrite Hm in Hst.
    destruct (close_wg s =? 0) eqn:Ez; [|done]. injection Hst as <-.
    apply Z.eqb_eq in Ez.
    pose proof (inv_main c s HI) as HM. rewrite Hm in HM. destruct HM as [_ Hsc].
    destruct (inv_cancel_set c s HI Hsc) as [[k Hk]|Hw]; [congruence|].
    assert (Hwd : watcher s = WDone).
    { pose proof (inv_close_wg c s HI) as E. rewrite Ez in E.
      destruct (watcher s); fin. }
    pose proof (inv_closed c s HI) as Hc. pose proof (inv_remote c s HI) as Hre.
    rewrite Hwd in Hc, Hre. destruct Hre as [Hcc _]. done.
  - intros e He Hm.
    pose proof (inv_close_ret c s HI e He) as Hc.
    assert (Hw : watcher s <> WNone).
    { pose proof (inv_closed c s HI) as E. rewrite Hc in E.
      by destruct (watcher s). }
    destruct (inv_launched c s HI Hw) as (_ & _ & _ & _ & Hp & _).
    unfold step. rewrite Hp, Hm. unfold Close_enter. by rewrite Hc.
Qed.







(** What a goroutine does next depends on the rest of the collector only
    through the clock, the cancellation of its context and the id. *)
Lemma timedCollect_step_local w c j mc ch g s s' :
  now s' = now s -> streaming s' = streaming s ->
  fst <$> timedCollect_step w c j mc ch g s'
  = fst <$> timedCollect_step w c j mc ch g s.
Proof.
  intros En Es. unfold timedCollect_step, streaming_done. rewrite En, Es.
  destruct (spc g); try done.
  - destruct ch.
    + by destruct (streaming s) as [[]|].
    + destruct (timer g) as [d|]; [|done]. destruct (d <=? now s); [|done].
      by destruct (Collect mc (ncollect g)).
  - by destruct (stream_Write w j (length (writes g))) as [[]|?|?].
Qed.

(** C4: a step of one [timedCollect] goroutine, failing or not, leaves
    every other goroutine, both contexts, the watcher and the caller as
    they were, never brings the process down, and leaves every other
    goroutine able to take the very step it could take before, with the
    same result for its stream. A failed [Collect] or [Write] adds exactly
    one error and sends that goroutine to its deferred function; a panic is
    turned there into exactly one error; the deferred function adds one
    more error only if closing the stream fails. *)
Theorem supervisor_failure_is_isolated w c s i ch s' :
  reachable w c s -> step w c (ASup i ch) s = Some s' ->
  (forall j, j <> i -> sups s' !! j = sups s !! j)
  /\ same_outside_sups s s'
  /\ panicked s' = false
  /\ (forall j ch' s1, j <> i -> step w c (ASup j ch') s = Some s1 ->
        exists s1', step w c (ASup j ch') s' = Some s1'
                    /\ sups s1' !! j = sups s1 !! j)
  /\ exists g mc g',
       sups s !! i = Some g /\ collectors c !! i = Some mc
       /\ sups s' !! i = Some g'
       /\ step_account w i mc ch g g' s s'.
Proof.
  intros Hr Hst. pose proof (reachable_Inv _ _ _ Hr) as HI.
  unfold step in Hst. destruct (panicked s) eqn:Hp; [done|].
  destruct (sup_step_frame _ _ _ _ _ _ Hst) as (Hsame & Hoth & Hlen).
  pose proof (sup_step_no_panic _ _ _ _ _ _ HI Hp Hst) as Hp'.
  splits; fin.
  - intros j ch' s1 Hne Hj. unfold step in *. rewrite Hp in Hj. rewrite Hp'.
    unfold sup_step in *. rewrite (Hoth j Hne).
    destruct (sups s !! j) as [gj|] eqn:Egj; [|done].
    destruct (collectors c !! j) as [mcj|]; [|done].
    destruct Hsame as (_&_&_&_&_&Estr&Enow&_).
    pose proof (timedCollect_step_local w c j mcj ch' gj s s' Enow Estr) as El.
    destruct (timedCollect_step w c j mcj ch' gj s) as [[gj' sj]|]; [|done].
    destruct (timedCollect_step w c j mcj ch' gj s') as [[gj'' sj']|]; [|done].
    simpl in El. injection El as ->. injection Hj as <-.
    eexists. split; [done|]. simpl.
    pose proof (lookup_lt_Some _ _ _ Egj) as Hlt.
    rewrite !list_lookup_insert_eq; [done|done|]. by rewrite Hlen.
  - unfold sup_step in Hst.
    destruct (sups s !! i) as [g|] eqn:Eg; [|done].
    destruct (collectors c !! i) as [mc|] eqn:Emc; [|done].
    destruct (timedCollect_step w c i mc ch g s) as [[g' s1]|] eqn:Est; [|done].
    injection Hst as <-.
    exists g, mc, g'. splits; fin.
    { simpl. apply list_lookup_insert_eq. by eapply lookup_lt_Some. }
    destruct (inv_sups c s HI i g Eg) as (mc' & Emc' & Hinv).
    pose proof (inv_wg c s HI) as Hwg.
    pose proof (live_count_insert (sups s) i g g' Eg) as Hlc.
    unfold step_account, timedCollect_step in *.
    destruct (spc g) eqn:Epc.
    + by injection Est as <- <-.
    + destruct ch.
      * destruct (streaming_done s); [|done]. by injection Est as <- <-.
      * destruct (timer g) as [d|]; [|done]. destruct (d <=? now s); [|done].
        destruct (Collect mc (ncollect g)); by injection Est as <- <-.
    + destruct (stream_Write w i (length (writes g))) as [[]|?|?];
        by injection Est as <- <-.
    + injection Est as <- <-. simpl. splits; fin.
      unfold deferred_errors, add_error; simpl.
      destruct p, (stream_Close w i); simpl;
        rewrite <- ?app_assoc, ?app_nil_r; done.
    + injection Est as <- <-. simpl. splits; fin.
      * unfold stream_Done. by destruct (_ <? _).
      * unfold live in Hlc. simpl in Hlc. rewrite Epc in Hlc.
        unfold stream_Done.
        destruct (stream_wg s - 1 <? 0) eqn:En; [|done].
        apply Z.ltb_lt in En. lia.
    + done.
Qed.

(** * Concrete runs *)

(** Goals settled by running the schedule. *)
Ltac by_run := vm_compute; reflexivity.

Lemma reachable_after w c acts :
  is_Some (run w c acts init) -> reachable w c (after w c acts).
Proof. intros [s H]. exists acts. unfold after. by rewrite H. Qed.



(** C3 as stated fails: after a successful [Start], cancellation of the
    outer context and the cleanup it starts, the first call of [Close]
    returns the already-closed error and not the resolved catcher. *)
Lemma first_Close_after_cancellation_counterexample :
  let s := after cedar_ok demo2 (sched_cancelled ++ [ACallClose]) in
  run cedar_ok demo2 (sched_cancelled ++ [ACallClose]) init = Some s
  /\ returns s = [(CallStart, None); (CallClose, Some errClosed)]
  /\ Resolve (catcher s) = Some (ErrMulti [disk_error])
  /\ Resolve (catcher s) <> Some errClosed.
Proof. cbv zeta. splits; try by_run. vm_compute. discriminate. Qed.

Lemma Close_is_effective_once_witness :
  let s := after cedar_ok demo2 sched_three in
  reachable cedar_ok demo2 s
  /\ (length (session_closes s) <= 1 /\ client_closes s <= 1)%nat
  /\ exists s1 s2 acts s3 s4,
       step cedar_ok demo2 ACallClose s = Some s1
       /\ step cedar_ok demo2 AMain s1 = Some s2
       /\ main s2 = MCloseWait /\ streaming_done s2 = true
       /\ quiet acts /\ run cedar_ok demo2 acts s2 = Some s3
       /\ step cedar_ok demo2 AMain s3 = Some s4
       /\ main s4 = MIdle
       /\ returns s4 = returns s ++ [(CallClose, Resolve (catcher s4))].
Proof.
  cbv zeta.
  assert (Hr : reachable cedar_ok demo2 (after cedar_ok demo2 sched_three)).
  { apply reachable_after. vm_compute. by eexists. }
  destruct (Close_is_effective_once cedar_ok demo2 _ Hr) as (C1 & C2 & _).
  split; [exact Hr|]. split; [exact C1|].
  apply C2; [vm_compute; apply list_elem_of_here | reflexivity | reflexivity].
Defined.

Lemma supervisor_failure_is_isolated_witness :
  let s := after cedar_ok demo2 sched_start in
  let s' := after cedar_ok demo2 sched_disk_fails in
  reachable cedar_ok demo2 s
  /\ step cedar_ok demo2 (ASup 1 Second) s = Some s'
  /\ (forall j, j <> 1%nat -> sups s' !! j = sups s !! j)
  /\ same_outside_sups s s'
  /\ panicked s' = false
  /\ (forall j ch' s1, j <> 1%nat ->
        step cedar_ok demo2 (ASup j ch') s = Some s1 ->
        exists s1', step cedar_ok demo2 (ASup j ch') s' = Some s1'
                    /\ sups s1' !! j = sups s1 !! j)
  /\ catcher s' = catcher s ++ [disk_error].
Proof.
  cbv zeta.
  assert (Hr : reachable cedar_ok demo2 (after cedar_ok demo2 sched_start)).
  { apply reachable_after. vm_compute. by eexists. }
  assert (Hs : step cedar_ok demo2 (ASup 1 Second)
                 (after cedar_ok demo2 sched_start)
               = Some (after cedar_ok demo2 sched_disk_fails)) by by_run.
  destruct (supervisor_failure_is_isolated cedar_ok demo2 _ 1%nat Second _
              Hr Hs) as (C1 & C2 & C3 & C4 & _).
  splits; try assumption. by_run.
Defined.


Lemma session_closed_after_supervisors_witness :
  let s := after cedar_ok demo2 sched_closed in
  reachable cedar_ok demo2 s
  /\ session_closes s = [("rec1", true)]
  /\ length (sups s) = length (collectors demo2)
  /\ forall i g, sups s !! i = Some g ->
       spc g = SDone /\ stream_closes g = 1%nat
       /\ forall ch, sup_step cedar_ok demo2 i ch s = None.
Proof.
  cbv zeta.
  assert (Hr : reachable cedar_ok demo2 (after cedar_ok demo2 sched_closed)).
  { apply reachable_after. vm_compute. by eexists. }
  destruct (session_closed_after_supervisors cedar_ok demo2 _ Hr) as [_ C2].
  split; [exact Hr|]. split; [reflexivity|].
  apply C2. vm_compute. discriminate.
Defined.


Lemma Close_after_cleanup_is_rejected_witness :
  let s := after cedar_ok demo2 sched_cancelled in
  reachable cedar_ok demo2 s
  /\ watcher s = WDone /\ main s = MIdle /\ outer_done s = true
  /\ closed s = true
  /\ step cedar_ok demo2 ACallClose s
     = Some (add_return CallClose (Some errClosed) s).
Proof.
  cbv zeta.
  assert (Hr : reachable cedar_ok demo2 (after cedar_ok demo2 sched_cancelled)).
  { apply reachable_after. vm_compute. by eexists. }
  destruct (Close_after_cleanup_is_rejected cedar_ok demo2 _ Hr
              (or_intror (or_intror eq_refl)) eq_refl) as (C1 & C2 & _).
  splits; try assumption; reflexivity.
Defined.

(** * Further properties *)

Ltac still_created H :=
  try solve [intros [[? ?]|?]; fin; apply H; by right].

Lemma start_calls_ok_step w c a s s' :
  Inv c s -> start_calls_ok c s -> step w c a s = Some s' ->
  start_calls_ok c s'.
Proof.
  intros HI (Hop & Hcr & Hcs & Hlen & Hm) Hst.
  unfold step in Hst. destruct (panicked s); [done|]. destruct a.
  - by injection Hst as <-.
  - by injection Hst as <-.
  - destruct (outer_done s); [|done]. destruct (streaming s) as [[]|]; fin.
    by injection Hst as <-.
  - destruct (main s) eqn:Em; fin. injection Hst as <-.
    pose proof (inv_main c s HI) as HM.
    rewrite Em in HM. destruct HM as (Hs & _ & _ & _ & Hc & _).
    assert (Hw : watcher s = WNone)
      by (apply (not_launched_in_Start c); [done | by rewrite Em]).
    simpl in Hm. unfold Start_enter. simpl. destruct (client c) eqn:Ecl.
    2: { unfold start_calls_ok; simpl. rewrite Hm, Hc, Hs, Hw. simpl.
         splits; fin; try lia. intros [[k Hk]|]; done. }
    destruct (CreateSystemMetricsRecord w (taskOpts c)) as [rid [e|]];
      unfold start_calls_ok; simpl; rewrite Hm, Hc, Hs, Hw; simpl;
      splits; fin; try lia; eauto; intros [[k Hk]|]; done.
  - unfold Close_enter in Hst.
    destruct (main s) eqn:Em; fin; injection Hst as <-;
      destruct (closed s); unfold start_calls_ok; simpl; rewrite ?Em;
      splits; fin; still_created Hcs.
  - unfold main_step in Hst. destruct (main s) eqn:Em; fin.
    + injection Hst as <-. unfold Start_loop.
      pose proof (inv_main c s HI) as HM. rewrite Em in HM.
      destruct HM as (Hs & _). simpl in Hm.
      assert (Hc : created s = [taskOpts c]) by (apply Hcs; left; eauto).
      destruct (collectors c !! k) as [mc|] eqn:Emc.
      * assert (Hexp : expected_opened c (id s) !! k
                       = Some {| mdo_Id := id s; mdo_MetricType := Name mc;
                                 mdo_Format := Format mc |}).
        { unfold expected_opened. by rewrite list_lookup_fmap, Emc. }
        assert (Hop' : opened s ++ [{| mdo_Id := id s;
                         mdo_MetricType := Name mc; mdo_Format := Format mc |}]
                 = take (S k) (expected_opened c (id s))).
        { rewrite (take_S_r _ _ _ Hexp). by rewrite <- Hm, <- Hop. }
        destruct (StreamSystemMetrics w k);
          unfold start_calls_ok; simpl; rewrite !length_app; simpl;
          rewrite Hm, Nat.add_1_r, <- Hop'; splits; fin;
          rewrite ?length_app; simpl; try lia.
      * unfold start_calls_ok; simpl. splits; fin.
    + destruct (streamingCancel s); injection Hst as <-;
        unfold start_calls_ok; simpl; rewrite ?Em; splits; fin;
        still_created Hcs.
    + destruct (close_wg s =? 0); [|done]. injection Hst as <-.
      unfold start_calls_ok; simpl; splits; fin; still_created Hcs.
  - destruct (sup_step_frame _ _ _ _ _ _ Hst)
      as ((_&Eid&_&_&_&_&_&Em&Ew&Ec&Eo&_) & _ & El).
    unfold start_calls_ok. by rewrite Eid, Em, Ew, Ec, Eo, El.
  - destruct (watcher_step_frame _ _ _ _ _ Hst)
      as ((Em & _ & Eid & _ & _ & Ec & Eo & _) & Es & _).
    assert (Hw : watcher s <> WNone).
    { unfold watcher_step in Hst. by destruct (watcher s). }
    unfold start_calls_ok. rewrite Eid, Em, Ec, Eo, Es.
    splits; fin.
Qed.

Lemma start_calls_ok_reachable w c s :
  reachable w c s -> start_calls_ok c s.
Proof.
  intros [acts Hrun].
  assert (H : forall acts s0, Inv c s0 -> start_calls_ok c s0 ->
            run w c acts s0 = Some s -> start_calls_ok c s).
  { clear. induction acts as [|a acts IH]; simpl; intros s0 HI Hs.
    - by intros [= <-].
    - destruct (step w c a s0) as [s1|] eqn:E; [|done].
      apply IH; [by eapply Inv_step | by eapply start_calls_ok_step]. }
  apply (H acts init (Inv_init c)); [|done].
  unfold start_calls_ok; simpl. splits; fin; try lia.
  intros [[k Hk]|]; done.
Qed.

(** X1: [Start] creates the record at most once, from the collector's task
    options, and opens the streams in the order of the collectors, each
    tagged with the session id and its collector's name and format; it
    never has more than one stream open without its goroutine. When
    [Start] has returned nil, every collector's stream has been opened. *)
Theorem Start_opens_streams_in_order w c s :
  reachable w c s ->
  opened s = take (length (opened s)) (expected_opened c (id s))
  /\ (created s = [] \/ created s = [taskOpts c])
  /\ (length (sups s) <= length (opened s) <= S (length (sups s)))%nat
  /\ ((CallStart, None) ∈ returns s ->
      opened s = expected_opened c (id s)
      /\ created s = [taskOpts c]
      /\ length (sups s) = length (collectors c)).
Proof.
  intros Hr. pose proof (reachable_Inv _ _ _ Hr) as HI.
  destruct (start_calls_ok_reachable _ _ _ Hr)
    as (Hop & Hcr & Hcs & Hlen & Hm).
  splits; fin. intros Hst.
  apply (inv_start_ok c s HI) in Hst.
  destruct (inv_launched c s HI Hst) as (Hl & _).
  assert (He : length (expected_opened c (id s)) = length (collectors c))
    by (unfold expected_opened; by rewrite length_map).
  assert (Hlo : (length (opened s) <= length (collectors c))%nat).
  { rewrite Hop, length_take. lia. }
  splits; fin.
  rewrite Hop. apply take_ge. lia.
Qed.

(** X2: while [closeOnCancel] has not been launched, that is before
    [Start] and after a [Start] that returned an error, [Close] finds
    [s.streamingCancel] nil and panics: nothing is released, and the
    process takes no further step. *)
Theorem Close_without_watcher_panics w c s :
  reachable w c s -> watcher s = WNone -> panicked s = false ->
  main s = MNew \/ main s = MIdle ->
  exists s1 s2,
    step w c ACallClose s = Some s1 /\ step w c AMain s1 = Some s2
    /\ panicked s2 = true
    /\ session_closes s2 = [] /\ client_closes s2 = 0%nat
    /\ returns s2 = returns s
    /\ forall a, step w c a s2 = None.
Proof.
  intros Hr Hw Hp Hm. pose proof (reachable_Inv _ _ _ Hr) as HI.
  assert (Hc : closed s = false) by (by rewrite (inv_closed c s HI), Hw).
  assert (Hsc : streamingCancel s = false).
  { destruct (streamingCancel s) eqn:E; [|done].
    destruct (inv_cancel_set c s HI E) as [[k Hk]|]; [|done].
    destruct Hm; congruence. }
  pose proof (inv_remote c s HI) as Hre. rewrite Hw in Hre.
  destruct Hre as [Hcc Hss].
  exists (set_main MCloseCancel s), (set_panicked true (set_main MCloseCancel s)).
  splits; fin.
  - unfold step. rewrite Hp. unfold Close_enter. rewrite Hc.
    by destruct Hm as [-> | ->].
  - unfold step. simpl. rewrite Hp. unfold main_step. simpl. by rewrite Hsc.
Qed.

(** X3: the wait group counters never go negative: [s.stream] counts the
    goroutines of [timedCollect] that have not returned, at most one per
    collector, and [s.close] is 0 or 1. Once [Start] has returned nil the
    process never panics. *)
Theorem wait_groups_never_underflow w c s :
  reachable w c s ->
  stream_wg s = Z.of_nat (live_count (sups s))
  /\ 0 <= stream_wg s <= Z.of_nat (length (collectors c))
  /\ (close_wg s = 0 \/ close_wg s = 1)
  /\ ((CallStart, None) ∈ returns s -> panicked s = false).
Proof.
  intros Hr. pose proof (reachable_Inv _ _ _ Hr) as HI.
  pose proof (inv_wg c s HI) as Hwg.
  pose proof (sups_le_collectors c s HI) as Hle.
  assert (Hlc : forall l, (live_count l <= length l)%nat).
  { induction l as [|g l IH]; simpl; [lia|]. destruct (live g); lia. }
  specialize (Hlc (sups s)).
  splits; fin; try lia.
  - rewrite (inv_close_wg c s HI). destruct (watcher s); auto.
  - intros Hst. apply (inv_start_ok c s HI) in Hst.
    by destruct (inv_launched c s HI Hst) as (_&_&_&_&?&_).
Qed.

Lemma sups_kept (l : list sup) i g :
  l !! i = Some g ->
  exists g', l !! i = Some g' /\ writes g `prefix_of` writes g'
             /\ (ncollect g <= ncollect g')%nat
             /\ (stream_closes g <= stream_closes g')%nat.
Proof. intros H. exists g. splits; fin. Qed.


Lemma extends_refl s : extends s s.
Proof.
  unfold extends. splits; try reflexivity. apply sups_kept.
Qed.

Lemma extends_trans s1 s2 s3 : extends s1 s2 -> extends s2 s3 -> extends s1 s3.
Proof.
  intros (A1&A2&A3&A4&A5&A6&A7&A8&A9) (B1&B2&B3&B4&B5&B6&B7&B8&B9).
  unfold extends. splits; try (etrans; eassumption); try lia.
  intros i g Hg. destruct (A9 i g Hg) as (g' & Hg' & P1 & P2 & P3).
  destruct (B9 i g' Hg') as (g'' & Hg'' & Q1 & Q2 & Q3).
  exists g''. splits; fin; try lia. by etrans.
Qed.

Lemma catcher_Add_prefix (l : Catcher) err : l `prefix_of` catcher_Add l err.
Proof. destruct err; simpl; [by apply prefix_app_r | reflexivity]. Qed.

Ltac ext :=
  unfold extends; simpl; splits;
  try reflexivity; try lia; try (by apply prefix_app_r);
  try apply catcher_Add_prefix;
  try apply sups_kept.

Lemma timedCollect_step_grows w c i mc ch g s g' s' :
  timedCollect_step w c i mc ch g s = Some (g', s') ->
  writes g `prefix_of` writes g' /\ (ncollect g <= ncollect g')%nat
  /\ (stream_closes g <= stream_closes g')%nat.
Proof.
  unfold timedCollect_step. destruct (spc g).
  - intros [= <- <-]. simpl. splits; fin; lia.
  - destruct ch.
    + destruct (streaming_done s); intros [= <- <-]. simpl. splits; fin; lia.
    + destruct (timer g) as [d|]; [|done]. destruct (d <=? now s); [|done].
      destruct (Collect mc (ncollect g)); intros [= <- <-]; simpl;
        splits; fin; lia.
  - destruct (stream_Write w i (length (writes g))) as [[]|?|?];
      intros [= <- <-]; simpl; splits; fin; try lia;
      by apply prefix_app_r.
  - intros [= <- <-]. simpl. splits; fin; lia.
  - intros [= <- <-]. simpl. splits; fin; lia.
  - done.
Qed.

Lemma cleanup_locked_extends w c s : extends s (cleanup_locked w c s).
Proof.
  unfold cleanup_locked. destruct (client c); [|ext].
  destruct (String.eqb (id s) ""); [ext|].
  unfold extends; simpl; splits;
    try reflexivity; try lia; try (by apply prefix_app_r).
  all: try (etrans; apply catcher_Add_prefix).
  all: apply sups_kept.
Qed.

Lemma step_extends w c a s s' : step w c a s = Some s' -> extends s s'.
Proof.
  intros Hst. unfold step in Hst. destruct (panicked s); [done|]. destruct a.
  - injection Hst as <-. ext.
  - injection Hst as <-. ext.
  - destruct (outer_done s); [|done]. destruct (streaming s) as [[]|]; fin.
    injection Hst as <-. ext.
  - destruct (main s); fin. injection Hst as <-.
    unfold Start_enter. simpl. destruct (client c); [|ext].
    destruct (CreateSystemMetricsRecord w (taskOpts c)) as [rid [e|]]; ext.
  - unfold Close_enter in Hst.
    destruct (main s); fin; injection Hst as <-; destruct (closed s); ext.
  - unfold main_step in Hst. destruct (main s); fin.
    + injection Hst as <-. unfold Start_loop.
      destruct (collectors c !! k); [|ext].
      destruct (StreamSystemMetrics w k); [ext|].
      unfold extends; simpl; splits; try reflexivity; try lia;
        try (by apply prefix_app_r).
      intros i g Hg. exists g. splits; fin. by apply lookup_app_l_Some.
    + destruct (streamingCancel s); injection Hst as <-; ext.
    + destruct (close_wg s =? 0); [|done]. injection Hst as <-. ext.
  - destruct (sup_step_frame _ _ _ _ _ _ Hst)
      as ((_&_&_&_&_&_&En&_&_&Ec&Eo&Es&Ecc&El&Er) & Hoth & _).
    unfold sup_step in Hst.
    destruct (sups s !! i) as [g|] eqn:Eg; [|done].
    destruct (collectors c !! i) as [mc|]; [|done].
    destruct (timedCollect_step w c i mc ch g s) as [[g' s1]|] eqn:Est; [|done].
    injection Hst as <-.
    pose proof (timedCollect_step_grows _ _ _ _ _ _ _ _ _ Est) as Hg.
    simpl in *. unfold extends. simpl. rewrite En, Ec, Eo, Es, Ecc, El, Er.
    splits; try reflexivity.
    + destruct (timedCollect_step_shared _ _ _ _ _ _ _ _ _ Est)
        as [(errs & -> & _)|(-> & _)]; simpl.
      * by apply prefix_app_r.
      * unfold stream_Done. by destruct (_ <? _).
    + intros j gj Hj. simpl. destruct (decide (j = i)) as [->|Hne].
      * exists g'. rewrite list_lookup_insert_eq by (by eapply lookup_lt_Some).
        assert (gj = g) as -> by congruence. done.
      * exists gj. rewrite list_lookup_insert_ne by done. splits; fin.
  - unfold watcher_step in Hst. destruct (watcher s); fin.
    + destruct ch; [destruct (outer_done s)|destruct (streaming_done s)];
        fin; injection Hst as <-; ext.
    + destruct (stream_wg s =? 0); fin; injection Hst as <-; ext.
    + injection Hst as <-.
      eapply extends_trans; [apply (cleanup_locked_extends w c)|ext].
    + injection Hst as <-. unfold close_Done.
      destruct outer; simpl; destruct (_ <? _); ext.
Qed.

(** X4: what the collector and the remote side have recorded is only ever
    added to, in any run from any state: the catcher, the values returned
    to the caller, the remote calls, the log, and for every stream the
    payloads written to it keep what they held, in the same order; the
    clock and the counts of collections and closes never go back. *)
Theorem records_are_append_only w c acts s s' :
  run w c acts s = Some s' -> extends s s'.
Proof.
  revert s. induction acts as [|a acts IH]; simpl; intros s.
  - intros [= <-]. apply extends_refl.
  - destruct (step w c a s) as [s1|] eqn:E; [|done]. intros Hrun.
    eapply extends_trans; [by eapply step_extends | by apply IH].
Qed.

Lemma no_errors_yet_step w c a s s' :
  faultless w c -> step w c a s = Some s' ->
  no_errors_yet s -> no_errors_yet s'.
Proof.
  intros (Fcr & Fst & Fwr & Fcl & Fcs & Fcc & Fco) Hst (Hc & Hs & Hrs & Hrc & Hl & Hg).
  unfold step in Hst. destruct (panicked s); [done|]. destruct a.
  - injection Hst as <-. by unfold no_errors_yet.
  - injection Hst as <-. by unfold no_errors_yet.
  - destruct (outer_done s); [|done]. destruct (streaming s) as [[]|]; fin.
    injection Hst as <-. by unfold no_errors_yet.
  - destruct (main s); fin. injection Hst as <-.
    unfold Start_enter. simpl. destruct (client c); [|by unfold no_errors_yet].
    specialize (Fcr (taskOpts c)).
    destruct (CreateSystemMetricsRecord w (taskOpts c)) as [rid e].
    simpl in Fcr. subst e. by unfold no_errors_yet.
  - unfold Close_enter in Hst.
    destruct (main s); fin; injection Hst as <-; destruct (closed s);
      unfold no_errors_yet; simpl; splits; fin.
    all: try (intros e [He|He%list_elem_of_singleton]%elem_of_app; fin).
    all: try (apply Hrs in He; fin).
    all: try (apply Hrc in He; fin).
    all: right; congruence.
  - unfold main_step in Hst. destruct (main s); fin.
    + injection Hst as <-. unfold Start_loop.
      destruct (collectors c !! k).
      * rewrite Fst. unfold no_errors_yet; simpl; splits; fin.
        apply Forall_app. split; [done|]. by repeat constructor.
      * unfold no_errors_yet; simpl; splits; fin.
        -- intros e [He|He%list_elem_of_singleton]%elem_of_app; fin.
           by apply Hrs in He.
        -- intros e [He|He%list_elem_of_singleton]%elem_of_app; fin.
           by apply Hrc.
    + destruct (streamingCancel s); injection Hst as <-; by unfold no_errors_yet.
    + destruct (close_wg s =? 0); [|done]. injection Hst as <-.
      unfold no_errors_yet; simpl; splits; fin.
      * intros e [He|He%list_elem_of_singleton]%elem_of_app; fin.
        by apply Hrs in He.
      * intros e [He|He%list_elem_of_singleton]%elem_of_app; [by apply Hrc|].
        left. rewrite Hc in He. simpl in He. congruence.
  - unfold sup_step in Hst.
    destruct (sups s !! i) as [g|] eqn:Eg; [|done].
    destruct (collectors c !! i) as [mc|] eqn:Emc; [|done].
    assert (Hgi : forall p, spc g <> SDefer (Some p)).
    { by apply (Forall_lookup_1 _ _ _ _ Hg Eg). }
    assert (Hins : forall g' s1,
              catcher s1 = [] -> session_closes s1 = session_closes s ->
              returns s1 = returns s -> logged s1 = logged s ->
              (forall p, spc g' <> SDefer (Some p)) ->
              no_errors_yet (set_sups (<[i:=g']> (sups s)) s1)).
    { intros g' s1 E1 E2 E3 E4 E5. unfold no_errors_yet. simpl.
      rewrite E1, E2, E3, E4. splits; fin. by apply Forall_insert. }
    unfold timedCollect_step in Hst. destruct (spc g) eqn:Epc.
    + injection Hst as <-. by apply Hins.
    + destruct ch.
      * destruct (streaming_done s); fin. injection Hst as <-. by apply Hins.
      * destruct (timer g) as [d|]; [|done]. destruct (d <=? now s); [|done].
        destruct (Fco i mc (ncollect g) Emc) as [dat Hd]. rewrite Hd in Hst.
        injection Hst as <-. by apply Hins.
    + destruct (Fwr i (length (writes g))) as [u Hu]. rewrite Hu in Hst.
      injection Hst as <-. by apply Hins.
    + destruct p as [p|]; [by destruct (Hgi p)|].
      rewrite Fcl in Hst. injection Hst as <-. by apply Hins.
    + injection Hst as <-. unfold stream_Done.
      destruct (_ <? _); by apply Hins.
    + done.
  - unfold watcher_step in Hst. destruct (watcher s); fin.
    + destruct ch; [destruct (outer_done s)|destruct (streaming_done s)];
        fin; injection Hst as <-; by unfold no_errors_yet.
    + destruct (stream_wg s =? 0); fin; injection Hst as <-;
        by unfold no_errors_yet.
    + injection Hst as <-. unfold cleanup_locked.
      destruct (client c); [|by unfold no_errors_yet].
      destruct (String.eqb (id s) ""); unfold no_errors_yet; simpl;
        rewrite ?Fcs, ?Fcc; simpl; splits; fin.
      intros r [Hr|Hr%list_elem_of_singleton]%elem_of_app; [by apply Hs|].
      subst r. simpl. by rewrite Hc.
    + injection Hst as <-. unfold close_Done.
      destruct outer; simpl; destruct (_ <? _);
        unfold no_errors_yet; simpl; splits; fin.
      all: apply Forall_app; split; [done|]; rewrite Hc; by repeat constructor.
Qed.

Lemma no_errors_yet_init : no_errors_yet init.
Proof.
  unfold no_errors_yet; simpl; splits; fin.
  all: intros ? H; by apply elem_of_nil in H.
Qed.

Lemma no_errors_yet_run w c acts s s' :
  faultless w c -> no_errors_yet s -> run w c acts s = Some s' ->
  no_errors_yet s'.
Proof.
  intros Hf. revert s. induction acts as [|a acts IH]; simpl; intros s H0.
  - by intros [= <-].
  - destruct (step w c a s) as [s1|] eqn:E; [|done].
    apply IH. by eapply no_errors_yet_step.
Qed.

(** X5: when neither the remote side nor any collector ever fails, no
    error is ever recorded: the catcher stays empty, the session is only
    closed with the had-errors flag false, [Start] only returns nil,
    [Close] returns nil or the already-closed error, [closeOnCancel] logs
    no error, and no [timedCollect] recovers a panic. *)
Theorem faultless_run_records_no_error w c s :
  faultless w c -> reachable w c s -> no_errors_yet s.
Proof.
  intros Hf [acts Hrun].
  eapply no_errors_yet_run; [exact Hf | | exact Hrun].
  apply no_errors_yet_init.
Qed.

(** Only a step of its own [timedCollect] changes a goroutine's record. *)
Lemma step_keeps_sup w c a s s' i g :
  step w c a s = Some s' -> sups s !! i = Some g ->
  (forall ch, a <> ASup i ch) -> sups s' !! i = Some g.
Proof.
  intros Hst Hg Ha. unfold step in Hst. destruct (panicked s); [done|].
  destruct a.
  - by injection Hst as <-.
  - by injection Hst as <-.
  - destruct (outer_done s); [|done]. destruct (streaming s) as [[]|]; fin.
    by injection Hst as <-.
  - destruct (main s); fin. injection Hst as <-.
    unfold Start_enter. simpl. destruct (client c); [|done].
    by destruct (CreateSystemMetricsRecord w (taskOpts c)) as [rid [e|]].
  - unfold Close_enter in Hst.
    destruct (main s); fin; injection Hst as <-; by destruct (closed s).
  - unfold main_step in Hst. destruct (main s); fin.
    + injection Hst as <-. unfold Start_loop.
      destruct (collectors c !! k); [|done].
      destruct (StreamSystemMetrics w k); [done|]. simpl.
      by apply lookup_app_l_Some.
    + by destruct (streamingCancel s); injection Hst as <-.
    + destruct (close_wg s =? 0); [|done]. by injection Hst as <-.
  - destruct (sup_step_frame _ _ _ _ _ _ Hst) as (_ & Hoth & _).
    rewrite Hoth; [done|]. intros ->. by apply (Ha ch).
  - destruct (watcher_step_frame _ _ _ _ _ Hst) as (_ & -> & _). done.
Qed.

Lemma step_returning w c a s s' i g :
  step w c a s = Some s' -> sups s !! i = Some g -> returning g ->
  exists g', sups s' !! i = Some g' /\ returning g'
    /\ writes g' = writes g /\ ncollect g' = ncollect g
    /\ collected_at g' = collected_at g
    /\ stream_closes g' = stream_closes g.
Proof.
  intros Hst Hg Hr.
  assert (Hcase : (exists ch, a = ASup i ch) \/ (forall ch, a <> ASup i ch)).
  { destruct a; try (right; intros; discriminate).
    destruct (decide (i0 = i)) as [->|Hne]; [left; by eexists|].
    right. intros ch' [= ? ?]. done. }
  destruct Hcase as [[ch ->]|Hne].
  - unfold step in Hst. destruct (panicked s); [done|].
    unfold sup_step in Hst. rewrite Hg in Hst.
    destruct (collectors c !! i) as [mc|]; [|done].
    unfold timedCollect_step in Hst.
    destruct Hr as [Hr|Hr]; rewrite Hr in Hst; [|done].
    injection Hst as <-. eexists. simpl.
    rewrite list_lookup_insert_eq by (by eapply lookup_lt_Some).
    split; [done|]. unfold returning. simpl. splits; fin.
  - exists g. splits; fin. by eapply step_keeps_sup.
Qed.

(** X6: a stream that has been closed is left alone: in whatever way the
    run goes on, nothing more is collected for it or written to it, and it
    is not closed a second time. *)
Theorem closed_stream_is_left_alone w c s acts s' i g :
  reachable w c s -> sups s !! i = Some g -> stream_closes g <> 0%nat ->
  run w c acts s = Some s' ->
  exists g', sups s' !! i = Some g'
    /\ writes g' = writes g /\ ncollect g' = ncollect g
    /\ collected_at g' = collected_at g
    /\ stream_closes g' = 1%nat.
Proof.
  intros Hreach Hg Hc Hrun.
  destruct (inv_sups c s (reachable_Inv _ _ _ Hreach) i g Hg)
    as (mc & _ & Hcl & _).
  assert (Hret : returning g /\ stream_closes g = 1%nat).
  { unfold returning. destruct (spc g); fin. }
  clear Hcl Hc Hreach. destruct Hret as [Hret H1]. rewrite <- H1. clear H1.
  revert s g Hg Hret Hrun. induction acts as [|a acts IH]; simpl; intros s g Hg Hret.
  - intros [= <-]. by exists g.
  - destruct (step w c a s) as [s1|] eqn:E; [|done]. intros Hrun.
    destruct (step_returning _ _ _ _ _ _ _ E Hg Hret)
      as (g1 & Hg1 & Hr1 & E1 & E2 & E3 & E4).
    destruct (IH s1 g1 Hg1 Hr1 Hrun) as (g' & Hg' & F1 & F2 & F3 & F4).
    exists g'. splits; congruence.
Qed.

Lemma run_ticks w c n s :
  panicked s = false ->
  run w c (replicate n ATick) s = Some (set_now (now s + Z.of_nat n) s).
Proof.
  revert s. induction n as [|n IH]; intros s Hp.
  - simpl. f_equal. destruct s; unfold set_now; simpl. f_equal. lia.
  - cbn [replicate run]. unfold step at 1. rewrite Hp.
    rewrite IH by done. f_equal. unfold set_now; simpl. f_equal. lia.
Qed.

(** X7: a [timedCollect] goroutine waiting at its select cannot collect
    before its timer is due, and once enough time has passed, with nothing
    else happening, it can: the collection is then counted and dated at
    that moment. *)
Theorem timedCollect_collects_when_timer_fires w c s i g :
  reachable w c s -> panicked s = false ->
  sups s !! i = Some g -> spc g = SLoop ->
  exists d, timer g = Some d
    /\ (now s < d -> step w c (ASup i Second) s = None)
    /\ exists s1 s2 g2,
         run w c (replicate (Z.to_nat (d - now s)) ATick) s = Some s1
         /\ now s1 = Z.max (now s) d
         /\ step w c (ASup i Second) s1 = Some s2
         /\ sups s2 !! i = Some g2
         /\ ncollect g2 = S (ncollect g)
         /\ collected_at g2 = now s1 :: collected_at g.
Proof.
  intros Hreach Hp Hg Hpc.
  destruct (inv_sups c s (reachable_Inv _ _ _ Hreach) i g Hg)
    as (mc & Hmc & _ & _ & _ & _ & _ & Hloop).
  rewrite Hpc in Hloop. destruct Hloop as (_ & d & Hd & _).
  exists d. split; [done|]. split.
  - intros Hlt. unfold step. rewrite Hp. unfold sup_step. rewrite Hg, Hmc.
    unfold timedCollect_step. rewrite Hpc, Hd.
    destruct (d <=? now s) eqn:E; [|done]. apply Z.leb_le in E. lia.
  - set (n := Z.to_nat (d - now s)).
    set (s1 := set_now (now s + Z.of_nat n) s).
    assert (Hnow : now s1 = Z.max (now s) d) by (simpl; lia).
    assert (Hle : (d <=? now s1) = true) by (apply Z.leb_le; lia).
    assert (Hst : exists s2 g2, step w c (ASup i Second) s1 = Some s2
              /\ sups s2 !! i = Some g2 /\ ncollect g2 = S (ncollect g)
              /\ collected_at g2 = now s1 :: collected_at g).
    { unfold step. replace (panicked s1) with false by done.
      unfold sup_step. replace (sups s1) with (sups s) by done.
      rewrite Hg, Hmc. unfold timedCollect_step. rewrite Hpc, Hd, Hle.
      destruct (Collect mc (ncollect g)); eexists; eexists;
        (split; [done|]); simpl;
        rewrite list_lookup_insert_eq by (by eapply lookup_lt_Some);
        (split; [done|]); done. }
    destruct Hst as (s2 & g2 & Hst & Hg2 & Hn & Hc).
    exists s1, s2, g2. splits; fin. by apply run_ticks.
Qed.

(** X8: what [newSystemMetricsCollector] returns. It returns a collector
    or an error, never both and never neither, and it never dereferences a
    nil task. A collector it returns has the task's description, a
    positive interval (the given one unless that was zero), the given
    collectors, at least one of them, non-negative stream options, and a
    client obtained in exactly one way: by the communicator's dial options
    with ten retries, or on the given connection. An error it returns is
    wrapped: as invalid options, with no call made outside the process, or
    as a failure to create the client; a failed [GetBuildloggerInfo] is not
    followed by a dial, and a failed dial is wrapped twice with the same
    message. *)
Theorem newSystemMetricsCollector_result (d : dialer)
    (o : systemMetricsCollectorOptions) :
  match newSystemMetricsCollector d o with
  | (Some c, None, acq) =>
      snd (systemMetricsCollectorOptions_validate o) = None
      /\ (exists t, opt_Task o = Some t /\ taskOpts c = getSystemMetricsInfo t)
      /\ 0 < interval c
      /\ interval c = (if opt_Interval o =? 0 then time_Minute
                       else opt_Interval o)
      /\ collectors c = opt_Collectors o /\ collectors c <> []
      /\ 0 <= FlushInterval (streamOpts c) /\ 0 <= MaxBufferSize (streamOpts c)
      /\ match client c with
         | Some (ClientDialed dopts) =>
             dial_Retries dopts = 10
             /\ NewSystemMetricsClient d dopts = None
             /\ is_Some (opt_Comm o) /\ opt_Conn o = None
             /\ acq = [AcqBuildloggerInfo; AcqDial dopts]
         | Some (ClientOnConn conn) =>
             opt_Conn o = Some conn /\ opt_Comm o = None
             /\ NewSystemMetricsClientWithExistingConnection d conn = None
             /\ acq = [AcqExistingConn conn]
         | None => False
         end
  | (None, Some e, acq) =>
      (exists e0, e = ErrWrap e0 "invalid options" /\ acq = []
                  /\ snd (systemMetricsCollectorOptions_validate o) = Some e0)
      \/ (exists e0,
            e = ErrWrap e0 "problem creating new system metrics client"
            /\ snd (systemMetricsCollectorOptions_validate o) = None
            /\ ((exists e1, e0 = ErrWrap e1 "error getting cedar dial options"
                            /\ acq = [AcqBuildloggerInfo])
                \/ (exists e1 dopts,
                      e0 = ErrWrap e1 "problem creating new system metrics client"
                      /\ NewSystemMetricsClient d dopts = Some e1
                      /\ dial_Retries dopts = 10
                      /\ acq = [AcqBuildloggerInfo; AcqDial dopts])
                \/ (exists conn,
                      opt_Conn o = Some conn
                      /\ NewSystemMetricsClientWithExistingConnection d conn
                         = Some e0
                      /\ acq = [AcqExistingConn conn])))
  | _ => False
  end.
Proof.
  destruct o as [t iv cs comm conn mb nf fl].
  unfold newSystemMetricsCollector, systemMetricsCollectorOptions_validate;
    simpl.
  destruct t as [t|]; simpl; [|left; by eexists].
  destruct (iv <? 0) eqn:Eiv; simpl; [left; by eexists|].
  apply Z.ltb_ge in Eiv.
  destruct (iv =? 0) eqn:Ez; simpl.
  all: destruct cs as [|mc cs]; simpl; [left; by eexists|].
  all: destruct comm as [comm|], conn as [conn|]; simpl;
         try (left; by eexists).
  all: destruct (fl <? 0) eqn:Efl; simpl; [left; by eexists|].
  all: destruct (mb <? 0) eqn:Emb; simpl; [left; by eexists|].
  all: apply Z.ltb_ge in Efl, Emb.
  all: first [apply Z.eqb_eq in Ez | apply Z.eqb_neq in Ez].
  all: unfold setupCedarClient.
  all: try (match goal with
            | |- context [GetBuildloggerInfo ?x] =>
                destruct (GetBuildloggerInfo x) as [bi [e|]]; simpl;
                [right; eexists; split; [done|]; split; [done|];
                 left; by eexists|]
            end).
  all: try (match goal with
            | |- context [NewSystemMetricsClient ?y ?x] =>
                destruct (NewSystemMetricsClient y x) as [e|] eqn:En; simpl;
                [right; eexists; split; [done|]; split; [done|];
                 right; left; eexists; eexists; by splits|]
            end).
  all: try (match goal with
            | |- context [NewSystemMetricsClientWithExistingConnection ?y ?x] =>
                destruct (NewSystemMetricsClientWithExistingConnection y x)
                  as [e|] eqn:En; simpl;
                [right; eexists; split; [done|]; split; [done|];
                 right; right; by eexists|]
            end).
  all: splits; fin; try (by eexists); try (unfold time_Minute; lia).
Qed.

(** X9: [getSystemMetricsInfo] converts the task's execution number with
    [int32]: the result is always a 32-bit value congruent to the task's
    number modulo 2^32, and it is that number exactly when it fits in 32
    bits. The task is reported as mainline exactly when it is not a patch
    request. *)
Theorem getSystemMetricsInfo_truncates_execution (t : Task) :
  let e := smo_Execution (getSystemMetricsInfo t) in
  - 2^31 <= e < 2^31
  /\ (e - Execution t) mod 2^32 = 0
  /\ (e = Execution t <-> - 2^31 <= Execution t < 2^31)
  /\ smo_Mainline (getSystemMetricsInfo t) = negb (IsPatchRequest t)
  /\ smo_TaskId (getSystemMetricsInfo t) = Id t.
Proof.
  simpl. unfold int32.
  pose proof (Z.mod_pos_bound (Execution t + 2^31) (2^32) ltac:(lia)) as Hb.
  pose proof (Z.div_mod (Execution t + 2^31) (2^32) ltac:(lia)) as Hd.
  splits; fin; try lia.
  replace ((Execution t + 2^31) mod 2^32 - 2^31 - Execution t)
    with (- ((Execution t + 2^31) / 2^32) * 2^32) by lia.
  apply Z.mod_mul. lia.
Qed.

(** After a [Start] that failed, [closeOnCancel] is never launched. *)
Lemma no_watcher_step w c a s s' :
  (main s = MIdle \/ main s = MCloseCancel) ->
  watcher s = WNone -> streamingCancel s = false -> closed s = false ->
  step w c a s = Some s' ->
  (main s' = MIdle \/ main s' = MCloseCancel)
  /\ watcher s' = WNone /\ streamingCancel s' = false /\ closed s' = false
  /\ length (sups s') = length (sups s) /\ returns s' = returns s.
Proof.
  intros Hm Hw Hsc Hcl. unfold step. destruct (panicked s); [done|].
  destruct a.
  - by intros [= <-].
  - by intros [= <-].
  - destruct (outer_done s); [|done]. destruct (streaming s) as [[]|]; fin.
    by intros [= <-].
  - by destruct Hm as [-> | ->].
  - unfold Close_enter. rewrite Hcl.
    destruct Hm as [-> | ->]; [|done]. intros [= <-]. simpl. splits; fin.
  - unfold main_step. destruct Hm as [Hm | Hm]; rewrite Hm; [done|].
    rewrite Hsc. intros [= <-]. simpl. splits; fin.
  - intros Hst. destruct (sup_step_frame _ _ _ _ _ _ Hst)
      as ((E1&_&E3&_&_&_&_&E8&E9&_&_&_&_&_&E15) & _ & El).
    rewrite E1, E3, E8, E9, El, E15. done.
  - unfold watcher_step. by rewrite Hw.
Qed.

Lemma no_watcher_run w c acts s s' :
  (main s = MIdle \/ main s = MCloseCancel) ->
  watcher s = WNone -> streamingCancel s = false -> closed s = false ->
  run w c acts s = Some s' ->
  watcher s' = WNone /\ length (sups s') = length (sups s)
  /\ returns s' = returns s.
Proof.
  revert s. induction acts as [|a acts IH]; simpl; intros s Hm Hw Hsc Hcl.
  - by intros [= <-].
  - destruct (step w c a s) as [s1|] eqn:E; [|done].
    destruct (no_watcher_step _ _ _ _ _ Hm Hw Hsc Hcl E)
      as (?&?&?&?&El&Er).
    intros Hrun. rewrite <- El, <- Er. by apply IH.
Qed.

(** X10: when a stream cannot be opened, [Start] cancels [streamingCtx]
    and returns the error without launching [closeOnCancel]. The
    goroutines launched for the earlier collectors can all return, but in
    no continuation is the remote session or the client ever closed, no
    further goroutine is launched, and no [Close] ever returns. *)
Theorem failed_stream_open_leaves_session_open w c s k mc e :
  reachable w c s -> panicked s = false ->
  main s = MStartLoop k -> collectors c !! k = Some mc ->
  StreamSystemMetrics w k = Some e ->
  exists s',
    step w c AMain s = Some s'
    /\ returns s' =
         [(CallStart,
           Some (ErrWrap e
                   (for_id_and_metricType
                      "problem creating system metrics stream"
                      (id s) (Name mc))))]
    /\ streaming_done s' = true /\ watcher s' = WNone
    /\ length (sups s') = k
    /\ (exists acts s'', quiet acts /\ run w c acts s' = Some s''
                         /\ stream_wg s'' = 0)
    /\ forall acts s'', run w c acts s' = Some s'' ->
         watcher s'' = WNone /\ length (sups s'') = k
         /\ session_closes s'' = [] /\ client_closes s'' = 0%nat
         /\ returns s'' = returns s'.
Proof.
  intros Hr Hp Hm Hmc He.
  pose proof (reachable_Inv _ _ _ Hr) as HI.
  pose proof (inv_main c s HI) as HM. rewrite Hm in HM.
  destruct HM as (Hlen & Hw & Hret & _).
  pose proof (inv_closed c s HI) as Hcl. rewrite Hw in Hcl.
  set (s' := Start_loop w c k s).
  assert (Hst : step w c AMain s = Some s').
  { unfold step, main_step. by rewrite Hp, Hm. }
  assert (Hr' : reachable w c s') by (eapply reachable_run with (acts := [AMain]);
    [done | simpl; by rewrite Hst]).
  pose proof (reachable_Inv _ _ _ Hr') as HI'.
  assert (Hs' : s' = set_main MIdle
            (add_return CallStart
               (Wrap (Some e)
                  (for_id_and_metricType "problem creating system metrics stream"
                     (id s) (Name mc)))
               (set_streamingCancel false
                  (cancel_streaming
                     (set_opened (opened s ++
                        [{| mdo_Id := id s; mdo_MetricType := Name mc;
                            mdo_Format := Format mc |}]) s))))).
  { unfold s', Start_loop. by rewrite Hmc, He. }
  exists s'. split; [done|].
  split; [rewrite Hs'; simpl; by rewrite Hret|].
  split; [by rewrite Hs'|]. split; [by rewrite Hs'|].
  split; [by rewrite Hs'|]. split.
  - destruct (drain w c (total_rank (sups s')) s') as (acts & s'' & H1 & H2 & H3 & _);
      fin; try (by rewrite Hs'). by exists acts, s''.
  - intros acts s'' Hrun.
    destruct (no_watcher_run w c acts s' s'') as (Hw'' & Hl'' & Hr''); fin;
      try (by rewrite Hs'); [by left; rewrite Hs'|].
    pose proof (reachable_Inv _ _ _ (reachable_run _ _ _ _ _ Hr' Hrun)) as HI''.
    pose proof (inv_remote c s'' HI'') as HR. rewrite Hw'' in HR.
    destruct HR as [-> ->]. splits; fin. rewrite Hl''. by rewrite Hs'.
Qed.

(** When every stream can be opened, the loop of [Start] runs to the end
    and [Start] returns nil. *)
Lemma Start_loop_runs w c :
  (forall i, StreamSystemMetrics w i = None) ->
  forall n k s,
    (k + n)%nat = length (collectors c) ->
    main s = MStartLoop k -> panicked s = false ->
    exists s', run w c (replicate (S n) AMain) s = Some s'
      /\ main s' = MIdle /\ watcher s' = WSelect
      /\ returns s' = returns s ++ [(CallStart, None)]
      /\ panicked s' = false.
Proof.
  intros Hst. induction n as [|n IH]; intros k s Hk Hm Hp.
  - cbn [replicate run]. unfold step. rewrite Hp. unfold main_step.
    rewrite Hm. unfold Start_loop.
    rewrite (lookup_ge_None_2 (collectors c) k) by lia.
    eexists. split; [done|]. simpl. by rewrite Hp.
  - destruct (lookup_lt_is_Some_2 (collectors c) k ltac:(lia)) as [mc Hmc].
    set (s1 := Start_loop w c k s).
    assert (Hs1 : s1 = set_main (MStartLoop (S k))
              (set_sups (sups s ++ [new_sup])
                 (set_stream_wg (stream_wg s + 1)
                    (set_opened (opened s ++
                       [{| mdo_Id := id s; mdo_MetricType := Name mc;
                           mdo_Format := Format mc |}]) s)))).
    { unfold s1, Start_loop. by rewrite Hmc, Hst. }
    destruct (IH (S k) s1) as (s' & Hrun & H1 & H2 & H3 & H4);
      try (by rewrite Hs1); [lia|].
    exists s'. split.
    + change (replicate (S (S n)) AMain) with (AMain :: replicate (S n) AMain).
      cbn [run]. unfold step at 1. rewrite Hp. unfold main_step. rewrite Hm.
      exact Hrun.
    + splits; fin. rewrite H3. by rewrite Hs1.
Qed.

(** X11: when neither the remote side nor any collector ever fails, a
    collector with a client can be started and closed cleanly: there is a
    run in which [Start] and then [Close] both return nil, without a
    panic, after which the record was created once, one stream per
    collector was opened in order, every [timedCollect] goroutine has
    returned after closing its stream once, the session (if its id is not
    empty) was closed once with the had-errors flag false, and the client
    was closed once. *)
Theorem faultless_collector_starts_and_closes w c :
  faultless w c -> is_Some (client c) ->
  exists acts s,
    run w c acts init = Some s
    /\ returns s = [(CallStart, None); (CallClose, None)]
    /\ panicked s = false /\ closed s = true /\ catcher s = []
    /\ created s = [taskOpts c] /\ opened s = expected_opened c (id s)
    /\ length (sups s) = length (collectors c)
    /\ (forall i g, sups s !! i = Some g ->
          spc g = SDone /\ stream_closes g = 1%nat)
    /\ session_closes s
       = (if String.eqb (id s) "" then [] else [(id s, false)])
    /\ client_closes s = 1%nat.
Proof.
  intros Hf [cl Hcl].
  pose proof Hf as (Fcr & Fst & _).
  (* Start *)
  set (s0 := Start_enter w c (set_main MIdle init)).
  assert (Hs0 : main s0 = MStartLoop 0 /\ panicked s0 = false
                /\ returns s0 = []).
  { unfold s0, Start_enter. rewrite Hcl. specialize (Fcr (taskOpts c)).
    destruct (CreateSystemMetricsRecord w (taskOpts c)) as [rid e].
    simpl in Fcr. by subst e. }
  destruct Hs0 as (Hm0 & Hp0 & Hr0).
  destruct (Start_loop_runs w c Fst (length (collectors c)) 0%nat s0
              eq_refl Hm0 Hp0) as (s1 & Hrun1 & Hm1 & Hw1 & Hr1 & Hp1).
  rewrite Hr0 in Hr1. simpl in Hr1.
  set (acts1 := ACallStart :: replicate (S (length (collectors c))) AMain).
  assert (Hrun01 : run w c acts1 init = Some s1).
  { unfold acts1. cbn [run]. unfold step at 1. simpl. exact Hrun1. }
  assert (Hreach1 : reachable w c s1) by (by exists acts1).
  pose proof (reachable_Inv _ _ _ Hreach1) as HI1.
  (* Close cancels *)
  pose proof (inv_closed c s1 HI1) as Hc1. rewrite Hw1 in Hc1.
  destruct (inv_launched c s1 HI1) as (_ & Hsc1 & _); [by rewrite Hw1|].
  set (s2 := set_main MCloseWait (cancel_streaming (set_main MCloseCancel s1))).
  assert (Hrun12 : run w c [ACallClose; AMain] s1 = Some s2).
  { cbn [run]. unfold step at 1. rewrite Hp1, Hm1. unfold Close_enter.
    rewrite Hc1. unfold step. simpl. rewrite Hp1. unfold main_step. simpl.
    by rewrite Hsc1. }
  assert (Hreach2 : reachable w c s2) by (by eapply reachable_run).
  pose proof (reachable_Inv _ _ _ Hreach2) as HI2.
  (* closeOnCancel runs to its end *)
  destruct (watcher_finishes w c s2 HI2) as (acts3 & s3 & Hrun3 & Hq3 & Hw3 & Hp3);
    [done | by unfold s2; simpl; rewrite Hw1 | by right |].
  assert (Hreach3 : reachable w c s3) by (by eapply reachable_run).
  pose proof (reachable_Inv _ _ _ Hreach3) as HI3.
  destruct (quiet_run_frame _ _ _ _ _ Hq3 Hrun3) as (Hm3 & Hr3 & _).
  pose proof (inv_close_wg c s3 HI3) as Hcw3. rewrite Hw3 in Hcw3.
  assert (Hne3 : no_errors_yet s3).
  { destruct Hreach3 as [acts Hacts].
    eapply no_errors_yet_run; [exact Hf | apply no_errors_yet_init | exact Hacts]. }
  destruct Hne3 as (Hcat3 & Hses3 & _).
  (* Close returns *)
  set (s4 := set_main MIdle (add_return CallClose (Resolve (catcher s3)) s3)).
  assert (Hrun4 : run w c [AMain] s3 = Some s4).
  { cbn [run]. unfold step. rewrite Hp3. unfold main_step. rewrite Hm3.
    simpl. by rewrite Hcw3. }
  exists (acts1 ++ [ACallClose; AMain] ++ acts3 ++ [AMain]), s4.
  assert (Hrun : run w c (acts1 ++ [ACallClose; AMain] ++ acts3 ++ [AMain]) init
                 = Some s4).
  { rewrite run_app, Hrun01, run_app, Hrun12, run_app, Hrun3. exact Hrun4. }
  split; [exact Hrun|].
  assert (Hreach4 : reachable w c s4) by (by eexists).
  pose proof (reachable_Inv _ _ _ Hreach4) as HI4.
  assert (Hw4 : watcher s4 = WDone) by done.
  destruct (start_calls_ok_reachable w c s4 Hreach4) as (Ho & _ & Hcr & Hlen & _).
  destruct (inv_launched c s4 HI4) as (Hl4 & _); [by rewrite Hw4|].
  pose proof (inv_remote c s4 HI4) as Hrem. rewrite Hw4 in Hrem.
  destruct Hrem as (Hcc & flag & Hsess).
  pose proof (inv_closed c s4 HI4) as Hcl4. rewrite Hw4 in Hcl4.
  splits; fin.
  - simpl. rewrite Hr3. unfold s2. simpl. rewrite Hr1, Hcat3. done.
  - apply Hcr. right. by rewrite Hw4.
  - rewrite Ho at 1. rewrite take_ge; [done|].
    unfold expected_opened. rewrite length_map. lia.
  - apply (all_done_of_drained c s4 HI4). by rewrite Hw4.
  - rewrite Hsess. destruct (String.eqb (id s4) ""); [done|].
    assert (Hin : (id s4, flag) ∈ session_closes s4)
      by (rewrite Hsess; apply list_elem_of_here).
    apply (Hses3 _) in Hin. simpl in Hin. by subst flag.
Qed.

(** Once the collector is marked closed, a step only adds to the values
    returned by [Close]. *)
Lemma closed_step w c a s s' :
  Inv c s -> closed s = true -> step w c a s = Some s' ->
  closed s' = true /\ catcher s' = catcher s
  /\ session_closes s' = session_closes s
  /\ client_closes s' = client_closes s
  /\ sups s' = sups s /\ opened s' = opened s /\ created s' = created s
  /\ (returns s' = returns s
      \/ exists r, returns s' = returns s ++ [(CallClose, r)]
           /\ (r = Some errClosed \/ r = Resolve (catcher s))).
Proof.
  intros HI Hc Hst.
  assert (Hw : match watcher s with WAfter _ | WDone => True | _ => False end).
  { pose proof (inv_closed c s HI) as E. rewrite Hc in E.
    by destruct (watcher s). }
  assert (Hns : ~ in_Start (main s)).
  { intros Hin. rewrite (not_launched_in_Start c s HI Hin) in Hw. done. }
  unfold step in Hst. destruct (panicked s); [done|]. destruct a.
  - injection Hst as <-. simpl. splits; fin.
  - injection Hst as <-. simpl. splits; fin.
  - destruct (outer_done s); [|done]. destruct (streaming s) as [[]|]; fin.
    injection Hst as <-. simpl. splits; fin.
  - destruct (main s); fin.
  - unfold Close_enter in Hst. rewrite Hc in Hst.
    destruct (main s); fin; injection Hst as <-; simpl; splits; fin.
    all: right; eexists; split; [done|]; by left.
  - unfold main_step in Hst. destruct (main s) eqn:Em; fin.
    + destruct (streamingCancel s); injection Hst as <-; simpl; splits; fin.
    + destruct (close_wg s =? 0); [|done]. injection Hst as <-. simpl.
      splits; fin. right. eexists. split; [done|]. by right.
  - rewrite sup_step_None_of_drained in Hst; [done|done|].
    by destruct (watcher s).
  - unfold watcher_step in Hst. destruct (watcher s); fin.
    injection Hst as <-. unfold close_Done.
    destruct outer; simpl; destruct (_ <? _); simpl; splits; fin.
Qed.

(** X12: once cleanup has marked the collector closed, nothing is
    recorded any more, however the run goes on: the catcher, the session
    and client closes, the goroutines and the remote calls of [Start] stay
    as they are, and whatever [Close] returns from then on is the
    already-closed error or the resolved catcher, which is final. *)
Theorem nothing_recorded_after_cleanup w c s acts s' :
  reachable w c s -> closed s = true -> run w c acts s = Some s' ->
  closed s' = true /\ catcher s' = catcher s
  /\ session_closes s' = session_closes s
  /\ client_closes s' = client_closes s
  /\ sups s' = sups s /\ opened s' = opened s /\ created s' = created s
  /\ returns s `prefix_of` returns s'
  /\ forall r, (CallClose, r) ∈ returns s' ->
       (CallClose, r) ∈ returns s
       \/ r = Some errClosed \/ r = Resolve (catcher s).
Proof.
  intros Hr. pose proof (reachable_Inv _ _ _ Hr) as HI. clear Hr.
  revert s HI. induction acts as [|a acts IH]; simpl; intros s HI Hc.
  - intros [= <-]. splits; fin.
  - destruct (step w c a s) as [s1|] eqn:E; [|done]. intros Hrun.
    destruct (closed_step _ _ _ _ _ HI Hc E)
      as (C1 & C2 & C3 & C4 & C5 & C6 & C7 & C8).
    destruct (IH s1 (Inv_step _ _ _ _ _ HI E) C1 Hrun)
      as (D1 & D2 & D3 & D4 & D5 & D6 & D7 & D8 & D9).
    splits; try congruence.
    + etrans; [|exact D8].
      destruct C8 as [E8 | (r & E8 & _)]; rewrite E8;
        [done | by apply prefix_app_r].
    + intros r Hin. destruct (D9 r Hin) as [Hin1|[-> | ->]].
      * destruct C8 as [E8 | (r' & E8 & Hr')]; rewrite E8 in Hin1;
          [by left|].
        apply elem_of_app in Hin1 as [?|Hin1%list_elem_of_singleton];
          [by left|].
        injection Hin1 as ->. by right.
      * right. by left.
      * right. right. by rewrite C2.
Qed.

(** * The stats helpers *)

Lemma copy_into_empty (m : stats.bson_M) : stats.copy_into m ∅ = m.
Proof.
  unfold stats.copy_into.
  apply (map_fold_weak_ind (fun (r : stats.bson_M) (m : stats.bson_M) => r = m)).
  - done.
  - intros i x m' r _ ->. done.
Qed.

Lemma buildPaginationOrBranches_loop_app fields base brs :
  stats.buildPaginationOrBranches_loop fields base brs
  = brs ++ stats.buildPaginationOrBranches_loop fields base [].
Proof.
  revert base brs. induction fields as [|f fields IH]; intros base brs; simpl.
  - by rewrite app_nil_r.
  - rewrite IH. rewrite (IH _ [_]). by rewrite app_assoc.
Qed.

Lemma buildPaginationOrBranches_loop_length fields base brs :
  length (stats.buildPaginationOrBranches_loop fields base brs)
  = (length brs + length fields)%nat.
Proof.
  revert base brs. induction fields as [|f fields IH]; intros base brs; simpl.
  - lia.
  - rewrite IH, length_app. simpl. lia.
Qed.

Lemma buildPaginationOrBranches_loop_lookup fields base i f :
  fields !! i = Some f ->
  stats.buildPaginationOrBranches_loop fields base [] !! i
  = Some (<[stats.Field f :=
              stats.BDoc {[stats.Operator f := stats.Value f]}]>
            (foldl (fun (m : stats.bson_M) g =>
                      <[stats.Field g := stats.Value g]> m)
               base (take i fields))).
Proof.
  revert base i. induction fields as [|g fields IH]; intros base i; [done|].
  cbn [stats.buildPaginationOrBranches_loop].
  rewrite buildPaginationOrBranches_loop_app. destruct i as [|i].
  - intros [= ->]. cbn [app lookup list_lookup take foldl].
    by rewrite copy_into_empty.
  - intros Hf. by apply IH.
Qed.

Lemma constraints_lookup_notin (l : list stats.paginationField)
    (base : stats.bson_M) k :
  k ∉ stats.Field <$> l ->
  foldl (fun (m : stats.bson_M) g => <[stats.Field g := stats.Value g]> m)
    base l !! k = base !! k.
Proof.
  revert base. induction l as [|g l IH]; intros base Hk; [done|].
  cbn [foldl]. rewrite fmap_cons, not_elem_of_cons in Hk.
  destruct Hk as [Hne Hk].
  rewrite IH by done. by rewrite lookup_insert_ne.
Qed.

Lemma constraints_lookup_in (l : list stats.paginationField)
    (base : stats.bson_M) j g :
  NoDup (stats.Field <$> l) -> l !! j = Some g ->
  foldl (fun (m : stats.bson_M) g => <[stats.Field g := stats.Value g]> m)
    base l !! stats.Field g = Some (stats.Value g).
Proof.
  revert base j. induction l as [|h l IH]; intros base j Hnd Hj; [done|].
  rewrite fmap_cons, NoDup_cons in Hnd. destruct Hnd as [Hh Hnd].
  cbn [foldl]. destruct j as [|j]; simpl in Hj.
  - injection Hj as ->. rewrite constraints_lookup_notin by done.
    by rewrite lookup_insert_eq.
  - by eapply IH.
Qed.

Lemma fields_distinct (l : list stats.paginationField) i j f g :
  NoDup (stats.Field <$> l) -> l !! i = Some f -> l !! j = Some g ->
  stats.Field f = stats.Field g -> i = j.
Proof.
  intros Hnd Hi Hj E.
  eapply (NoDup_lookup _ _ _ _ Hnd); rewrite list_lookup_fmap.
  - by rewrite Hi.
  - rewrite Hj. simpl. by rewrite E.
Qed.

(** X13: [buildPaginationOrBranches] returns one branch per field, in the
    order of the fields. When the field names are distinct, the i-th
    branch constrains the i-th field by its operator and value, pins every
    earlier field to its value, and says nothing about any other field. *)
Theorem buildPaginationOrBranches_branches
    (fields : list stats.paginationField) :
  NoDup (stats.Field <$> fields) ->
  length (stats.buildPaginationOrBranches fields) = length fields
  /\ forall i f, fields !! i = Some f ->
       exists branch,
         stats.buildPaginationOrBranches fields !! i = Some branch
         /\ branch !! stats.Field f
            = Some (stats.BDoc {[stats.Operator f := stats.Value f]})
         /\ (forall j g, fields !! j = Some g -> (j < i)%nat ->
               branch !! stats.Field g = Some (stats.Value g))
         /\ (forall j g, fields !! j = Some g -> (i < j)%nat ->
               branch !! stats.Field g = None)
         /\ (forall k, k ∉ stats.Field <$> fields -> branch !! k = None).
Proof.
  intros Hnd. unfold stats.buildPaginationOrBranches. split.
  { by rewrite buildPaginationOrBranches_loop_length. }
  intros i f Hf. eexists. split.
  { by apply buildPaginationOrBranches_loop_lookup. }
  assert (Hsub : NoDup (stats.Field <$> take i fields)).
  { rewrite fmap_take. eapply sublist_NoDup; [done | apply sublist_take]. }
  assert (Hin : forall k, k ∈ stats.Field <$> take i fields ->
            exists j g, (j < i)%nat /\ fields !! j = Some g
                        /\ k = stats.Field g).
  { intros k (g & -> & Hg)%list_elem_of_fmap.
    apply list_elem_of_lookup in Hg as [j Hj].
    pose proof (lookup_lt_Some _ _ _ Hj) as Hlt. rewrite length_take in Hlt.
    rewrite lookup_take_lt in Hj by lia. exists j, g. splits; fin. lia. }
  split; [by rewrite lookup_insert_eq|]. split; [|split].
  - intros j g Hg Hlt.
    rewrite lookup_insert_ne.
    + eapply constraints_lookup_in; [done|]. by rewrite lookup_take_lt.
    + intros E. pose proof (fields_distinct _ _ _ _ _ Hnd Hf Hg E). lia.
  - intros j g Hg Hlt.
    rewrite lookup_insert_ne.
    + rewrite constraints_lookup_notin; [done|].
      intros (j' & g' & Hlt' & Hg' & E)%Hin.
      pose proof (fields_distinct _ _ _ _ _ Hnd Hg Hg' E). lia.
    + intros E. pose proof (fields_distinct _ _ _ _ _ Hnd Hf Hg E). lia.
  - intros k Hk. rewrite lookup_insert_ne.
    + rewrite constraints_lookup_notin; [done|].
      intros (j' & g' & Hlt' & Hg' & ->)%Hin. apply Hk.
      apply list_elem_of_fmap. exists g'. split; [done|].
      by eapply list_elem_of_lookup_2.
    + intros <-. apply Hk. apply list_elem_of_fmap. exists f. split; [done|].
      by eapply list_elem_of_lookup_2.
Qed.

(** The loop of [aggregateWithCallback]: the callback is made on the
    documents in order, up to the first one it fails on. *)
Lemma aggregate_loop_spec {D : Type} (callback : nat -> D -> option error)
    k docs iter_Err :
  exists m, (m <= length docs)%nat
    /\ snd (stats.aggregate_loop callback k docs iter_Err)
       = stats.EvCallback <$> take m docs
    /\ (forall j raw, (S j < m)%nat -> docs !! j = Some raw ->
          callback (k + j)%nat raw = None)
    /\ ((m = length docs
         /\ (forall j raw, docs !! j = Some raw ->
               callback (k + j)%nat raw = None)
         /\ fst (stats.aggregate_loop callback k docs iter_Err)
            = Wrap iter_Err "Error during aggregation")
        \/ (exists j raw e, m = S j /\ docs !! j = Some raw
              /\ callback (k + j)%nat raw = Some e
              /\ fst (stats.aggregate_loop callback k docs iter_Err)
                 = Some (ErrWrap e "A callback call failed"))).
Proof.
  revert k. induction docs as [|raw docs IH]; intros k.
  - exists 0%nat. simpl. splits; fin; try lia. left. splits; fin.
  - cbn [stats.aggregate_loop].
    destruct (callback k raw) as [e|] eqn:Ecb.
    + exists 1%nat. simpl. splits; fin; try lia.
      right. exists 0%nat, raw, e. rewrite Nat.add_0_r. splits; fin.
    + destruct (IH (S k)) as (m & Hm & Htr & Hok & Hres).
      destruct (stats.aggregate_loop callback (S k) docs iter_Err)
        as [r tr] eqn:El. simpl in *.
      exists (S m). splits; try lia.
      * simpl. by rewrite Htr.
      * intros [|j] raw' Hj Hraw; simpl in Hraw.
        -- injection Hraw as <-. by rewrite Nat.add_0_r.
        -- replace (k + S j)%nat with (S k + j)%nat by lia.
           apply Hok; [lia | done].
      * destruct Hres as [(-> & Hall & Hr)|(j & raw' & e & -> & Hj & Hcb & Hr)].
        -- left. splits; fin. intros [|j] raw' Hraw; simpl in Hraw.
           ++ injection Hraw as <-. by rewrite Nat.add_0_r.
           ++ replace (k + S j)%nat with (S k + j)%nat by lia. by apply Hall.
        -- right. exists (S j), raw', e. splits; fin.
           by replace (k + S j)%nat with (S k + j)%nat by lia.
Qed.

(** X14: [aggregateWithCallback] without a session does nothing else.
    With a session it sets the socket timeout and runs the pipeline, calls
    the callback on the documents in the order the iterator delivers them
    and stops at the first one the callback fails on, and closes its
    session as the last thing it does, whatever it returns. It returns nil
    only when every document was delivered to a successful callback and
    the iterator reports no error; it consults the iterator's error only
    then. *)
Theorem aggregateWithCallback_stops_at_first_failure {D : Type}
    (db : stats.database D) (n : nat) (collection : string)
    (pipeline : list stats.bson_M) (callback : nat -> D -> option error) :
  let docs := fst (stats.Iter db collection pipeline) in
  let iter_Err := snd (stats.Iter db collection pipeline) in
  let r := fst (stats.aggregateWithCallback db n collection pipeline callback) in
  let tr := snd (stats.aggregateWithCallback db n collection pipeline callback) in
  match stats.GetSession db n with
  | Some e =>
      r = Some (ErrWrap e "Error establishing db connection")
      /\ tr = [stats.EvGetSession]
  | None =>
    exists m, (m <= length docs)%nat
      /\ tr = [stats.EvGetSession; stats.EvSetSocketTimeout n 0;
               stats.EvPipe n collection pipeline]
              ++ (stats.EvCallback <$> take m docs)
              ++ [stats.EvSessionClose n]
      /\ (forall j raw, (S j < m)%nat -> docs !! j = Some raw ->
            callback j raw = None)
      /\ match r with
         | None =>
             m = length docs /\ iter_Err = None
             /\ forall j raw, docs !! j = Some raw -> callback j raw = None
         | Some err =>
             (exists j raw e, m = S j /\ docs !! j = Some raw
                /\ callback j raw = Some e
                /\ err = ErrWrap e "A callback call failed")
             \/ (m = length docs
                 /\ (forall j raw, docs !! j = Some raw ->
                       callback j raw = None)
                 /\ exists e, iter_Err = Some e
                      /\ err = ErrWrap e "Error during aggregation")
         end
  end.
Proof.
  cbv zeta. unfold stats.aggregateWithCallback.
  destruct (stats.GetSession db n) as [e|]; [done|].
  destruct (stats.Iter db collection pipeline) as [docs iter_Err]. simpl.
  destruct (aggregate_loop_spec callback 0 docs iter_Err)
    as (m & Hm & Htr & Hok & Hres).
  destruct (stats.aggregate_loop callback 0 docs iter_Err) as [r tr].
  simpl in *. subst tr. exists m. splits; fin.
  destruct Hres as [(-> & Hall & ->)|(j & raw & e & -> & Hj & Hcb & ->)].
  - destruct iter_Err as [e|]; simpl.
    + right. splits; fin. by exists e.
    + splits; fin.
  - left. by exists j, raw, e.
Qed.

Lemma callbacks_app {D : Type} (l1 l2 : list (stats.event D)) :
  stats.callbacks (l1 ++ l2) = stats.callbacks l1 ++ stats.callbacks l2.
Proof. apply omap_app. Qed.

Lemma callbacks_EvCallback {D : Type} (l : list D) :
  stats.callbacks (stats.EvCallback <$> l) = l.
Proof.
  induction l as [|x l IH]; [done|].
  change (x :: stats.callbacks (stats.EvCallback <$> l) = x :: l).
  by rewrite IH.
Qed.

Lemma not_callback_in {D : Type} (ev : stats.event D) (l : list D) :
  (forall raw, ev <> stats.EvCallback raw) -> ev ∉ stats.EvCallback <$> l.
Proof. intros H (raw & -> & _)%list_elem_of_fmap. by apply (H raw). Qed.

Lemma writer_close_not_callback {D : Type} (l : list D) :
  (@stats.EvWriterClose D) ∈ stats.EvCallback <$> l <-> False.
Proof. split; [|done]. by apply not_callback_in. Qed.

Lemma session_close_not_callback {D : Type} k (l : list D) :
  (@stats.EvSessionClose D k) ∈ stats.EvCallback <$> l <-> False.
Proof. split; [|done]. by apply not_callback_in. Qed.

Ltac contradict_append :=
  match goal with
  | Hall : forall j raw, ?docs !! j = Some raw -> ?f j raw = None,
    H0 : ?docs !! ?j = Some ?raw, H1 : ?f ?j ?raw = Some _ |- _ =>
      rewrite (Hall j raw H0) in H1; discriminate
  end.

Ltac solve_mem :=
  solve [intuition (subst; simplify_eq; try contradict_append;
                    try congruence; eauto)].

Ltac mem :=
  rewrite ?elem_of_cons, ?elem_of_app, ?elem_of_cons, ?elem_of_nil,
    ?writer_close_not_callback, ?session_close_not_callback in *.

(** What [aggregateWithCallback] does once it has its session. *)
Lemma aggregateWithCallback_with_session {D : Type} (db : stats.database D)
    n collection pipeline callback :
  stats.GetSession db n = None ->
  exists m,
    let docs := fst (stats.Iter db collection pipeline) in
    let iter_Err := snd (stats.Iter db collection pipeline) in
    (m <= length docs)%nat
    /\ snd (stats.aggregateWithCallback db n collection pipeline callback)
       = [stats.EvGetSession; stats.EvSetSocketTimeout n 0;
          stats.EvPipe n collection pipeline]
         ++ (stats.EvCallback <$> take m docs) ++ [stats.EvSessionClose n]
    /\ ((m = length docs
         /\ (forall j raw, docs !! j = Some raw -> callback j raw = None)
         /\ fst (stats.aggregateWithCallback db n collection pipeline callback)
            = Wrap iter_Err "Error during aggregation")
        \/ (exists j raw e, m = S j /\ docs !! j = Some raw
              /\ callback j raw = Some e
              /\ (forall i raw', (i < j)%nat -> docs !! i = Some raw' ->
                    callback i raw' = None)
              /\ fst (stats.aggregateWithCallback db n collection pipeline
                        callback)
                 = Some (ErrWrap e "A callback call failed"))).
Proof.
  intros Hs. unfold stats.aggregateWithCallback. rewrite Hs.
  destruct (stats.Iter db collection pipeline) as [docs iter_Err]. simpl.
  destruct (aggregate_loop_spec callback 0 docs iter_Err)
    as (m & Hm & Htr & Hok & Hres).
  destruct (stats.aggregate_loop callback 0 docs iter_Err) as [r tr].
  simpl in *. subst tr. exists m. splits; fin.
  destruct Hres as [(-> & Hall & ->)|(j & raw & e & -> & Hj & Hcb & ->)].
  - left. splits; fin.
  - right. exists j, raw, e. splits; fin.
    intros i raw' Hi Hraw. apply Hok; [lia | done].
Qed.

(** X15: [aggregateIntoCollection] closes the document writer, which
    flushes what was appended, only after an aggregation in which the
    iterator reported no error and every document was appended without
    error; it returns nil exactly when that close succeeds too. Then every
    document the iterator delivered was appended, in order. A failed
    [Append] ends the run: its error comes back wrapped twice, the
    documents appended so far are the ones up to the failing one, and the
    writer is not closed. Each session that was obtained is closed, and no
    other. *)
Theorem aggregateIntoCollection_flushes_only_on_success {D : Type}
    (db : stats.database D) (n : nat) (collection : string)
    (pipeline : list stats.bson_M) (outputCollection : string) :
  let docs := fst (stats.Iter db collection pipeline) in
  let iter_Err := snd (stats.Iter db collection pipeline) in
  let r := fst (stats.aggregateIntoCollection db n collection pipeline
                  outputCollection) in
  let tr := snd (stats.aggregateIntoCollection db n collection pipeline
                   outputCollection) in
  let ready :=
    stats.GetSession db n = None
    /\ stats.NewBufferedSessionUpsertByID db outputCollection = None
    /\ stats.GetSession db (S n) = None in
  (stats.EvWriterClose ∈ tr <->
     ready /\ iter_Err = None
     /\ forall j raw, docs !! j = Some raw -> stats.writer_Append db j raw = None)
  /\ (r = None <-> stats.EvWriterClose ∈ tr /\ stats.writer_Close db = None)
  /\ (stats.EvWriterClose ∈ tr -> stats.callbacks tr = docs)
  /\ (forall j raw e,
        ready -> docs !! j = Some raw ->
        stats.writer_Append db j raw = Some e ->
        (forall i raw', (i < j)%nat -> docs !! i = Some raw' ->
           stats.writer_Append db i raw' = None) ->
        r = Some (ErrWrap (ErrWrap e "A callback call failed")
                    "Failed to aggregate with document writer callback")
        /\ stats.callbacks tr = take (S j) docs
        /\ stats.EvWriterClose ∉ tr)
  /\ (forall k, stats.EvSessionClose k ∈ tr <->
        (k = n /\ stats.GetSession db n = None)
        \/ (k = S n /\ ready)).
Proof.
  cbv zeta.
  unfold stats.aggregateIntoCollection.
  destruct (stats.GetSession db n) as [e0|] eqn:E0.
  { simpl. splits; intros; mem; solve_mem. }
  destruct (stats.NewBufferedSessionUpsertByID db outputCollection)
    as [e1|] eqn:E1.
  { simpl. splits; intros; mem; solve_mem. }
  destruct (stats.GetSession db (S n)) as [e2|] eqn:E2.
  { unfold stats.aggregateWithCallback. rewrite E2. simpl.
    splits; intros; mem; solve_mem. }
  destruct (aggregateWithCallback_with_session db (S n) collection pipeline
              (stats.writer_Append db) E2) as (m & Hm & Htr & Hres).
  cbv zeta in *.
  destruct (stats.aggregateWithCallback db (S n) collection pipeline
              (stats.writer_Append db)) as [r tr].
  destruct (stats.Iter db collection pipeline) as [docs iter_Err].
  simpl in *. subst tr.
  destruct Hres as [(-> & Hall & ->)|(j & raw & e & -> & Hj & Hcb & Hpre & ->)].
  - rewrite firstn_all.
    destruct iter_Err as [e|]; simpl.
    + splits; intros; mem; solve_mem.
    + splits; try (intros; mem; solve_mem).
      * destruct (stats.writer_Close db); simpl; mem; solve_mem.
      * intros _. rewrite !callbacks_app, callbacks_EvCallback.
        cbn. by rewrite !app_nil_r.
  - simpl. splits; try (intros; mem; solve_mem).
    intros j' raw' e' _ Hj' Hcb' Hpre'.
    assert (j' = j) as ->.
    { destruct (Nat.lt_trichotomy j' j) as [Hlt|[->|Hlt]]; [|done|].
      - rewrite (Hpre j' raw' Hlt Hj') in Hcb'. done.
      - rewrite (Hpre' j raw Hlt Hj) in Hcb. done. }
    assert (e' = e) as -> by congruence.
    split; [done|]. split; [|mem; solve_mem].
    rewrite !callbacks_app, callbacks_EvCallback. cbn. by rewrite !app_nil_r.
Qed.

(** The number of rounds of the loop of [dateBoundaries] from [b]. *)
Lemma dateBoundaries_loop_spec end_ d :
  0 < d ->
  forall fuel b acc,
    (Z.to_nat (Z.max 0 ((end_ - b + d - 1) / d)) < fuel)%nat ->
    stats.dateBoundaries_loop fuel end_ d b acc
    = Some (acc ++ map (fun k => b + Z.of_nat k * d)
                     (seq 0 (Z.to_nat (Z.max 0 ((end_ - b + d - 1) / d))))).
Proof.
  intros Hd. induction fuel as [|fuel IH]; intros b acc Hf; [lia|].
  cbn [stats.dateBoundaries_loop].
  destruct (b <? end_) eqn:E.
  - apply Z.ltb_lt in E.
    assert (Hq : (end_ - b + d - 1) / d = (end_ - (b + d) + d - 1) / d + 1).
    { replace (end_ - b + d - 1) with ((end_ - (b + d) + d - 1) + 1 * d) by lia.
      by rewrite Z.div_add by lia. }
    assert (Hnn : 0 <= (end_ - (b + d) + d - 1) / d).
    { apply Z.div_pos; lia. }
    rewrite Hq in *.
    replace (Z.to_nat (Z.max 0 ((end_ - (b + d) + d - 1) / d + 1)))
      with (S (Z.to_nat (Z.max 0 ((end_ - (b + d) + d - 1) / d)))) in * by lia.
    rewrite IH by lia. f_equal. rewrite <- app_assoc. f_equal.
    cbn [seq map app]. f_equal; [lia|].
    rewrite <- seq_shift, map_map. apply map_ext. intros k. lia.
  - apply Z.ltb_ge in E.
    assert (Hz : (end_ - b + d - 1) / d <= 0).
    { destruct (Z.le_gt_cases ((end_ - b + d - 1) / d) 0) as [|Hgt]; [done|].
      assert (d * 1 <= d * ((end_ - b + d - 1) / d)) by nia.
      pose proof (Z.mul_div_le (end_ - b + d - 1) d Hd). lia. }
    replace (Z.to_nat (Z.max 0 ((end_ - b + d - 1) / d))) with 0%nat by lia.
    simpl. by rewrite app_nil_r.
Qed.

Lemma dateBoundaries_duration numDays :
  1 <= numDays <= 106751 ->
  stats.int64 (stats.int64 (numDays * 24) * stats.time_Hour)
  = numDays * 86400000000000.
Proof.
  intros H. unfold stats.int64, stats.time_Hour.
  rewrite (Z.mod_small (numDays * 24 + 2 ^ 63)) by lia.
  rewrite Z.mod_small by lia. lia.
Qed.

Lemma dateBoundaries_closed (GetUTCDay : Z -> Z) (start end_ numDays : Z)
    (fuel : nat) :
  numDays <= 106751 ->
  let d := Z.max 1 numDays * 86400000000000 in
  let s := GetUTCDay start in
  let e := GetUTCDay end_ in
  let n := Z.to_nat (Z.max 0 ((e - s + d - 1) / d)) in
  (n < fuel)%nat ->
  stats.dateBoundaries GetUTCDay fuel start end_ numDays
  = Some (map (fun k => s + Z.of_nat k * d) (seq 0 n)).
Proof.
  intros Hn d s e n Hf.
  assert (Hd : 0 < d) by (unfold d; lia).
  assert (Hdur : stats.int64
            (stats.int64 ((if numDays <=? 0 then 1 else numDays) * 24)
             * stats.time_Hour) = d).
  { unfold d. destruct (numDays <=? 0) eqn:E.
    - apply Z.leb_le in E. rewrite dateBoundaries_duration by lia. lia.
    - apply Z.leb_gt in E. rewrite dateBoundaries_duration by lia. lia. }
  unfold stats.dateBoundaries. rewrite Hdur.
  fold s e. rewrite dateBoundaries_loop_spec by (done || (fold n; lia)).
  done.
Qed.

(** X16: for at most 106751 days per period, [dateBoundaries] returns,
    and what it returns are the instants [s], [s + d], [s + 2d], ...
    before [e], where [s] and [e] are the UTC days of the start and the
    end and [d] is the length of the period, a non-positive number of days
    counting as one; there is none when [s] is not before [e]. *)
Theorem dateBoundaries_buckets (GetUTCDay : Z -> Z) (start end_ numDays : Z)
    (fuel : nat) :
  numDays <= 106751 ->
  let d := Z.max 1 numDays * 86400000000000 in
  let s := GetUTCDay start in
  let e := GetUTCDay end_ in
  let n := Z.to_nat (Z.max 0 ((e - s + d - 1) / d)) in
  (n < fuel)%nat ->
  stats.dateBoundaries GetUTCDay fuel start end_ numDays
  = Some (map (fun k => s + Z.of_nat k * d) (seq 0 n))
  /\ (n = 0%nat <-> e <= s)
  /\ (forall b, b ∈ map (fun k => s + Z.of_nat k * d) (seq 0 n) ->
        s <= b < e).
Proof.
  intros Hn d s e n Hf.
  assert (Hd : 0 < d) by (unfold d; lia).
  split; [by apply dateBoundaries_closed|]. split.
  - unfold n. split.
    + intros Hz. destruct (Z.lt_ge_cases s e) as [Hlt|]; [|done].
      assert (0 < (e - s + d - 1) / d) by (apply Z.div_str_pos; lia). lia.
    + intros Hle.
      assert ((e - s + d - 1) / d <= 0); [|lia].
      apply Z.lt_succ_r. apply Z.div_lt_upper_bound; lia.
  - intros b (k & -> & Hk)%list_elem_of_fmap.
    apply elem_of_seq in Hk.
    assert (Hk' : Z.of_nat k + 1 <= (e - s + d - 1) / d) by (unfold n in Hk; lia).
    pose proof (Z.mul_div_le (e - s + d - 1) d Hd).
    split; [nia|]. nia.
Qed.

(** X17: when the length of the period, computed in 64-bit [int]
    arithmetic, is not positive (106752 days make it negative, 2^48 days
    make it zero) and the start's day is before the end's, the loop of
    [dateBoundaries] never ends: no amount of fuel gives a result. *)
Theorem dateBoundaries_never_returns (GetUTCDay : Z -> Z)
    (start end_ numDays : Z) :
  0 < numDays ->
  stats.int64 (stats.int64 (numDays * 24) * stats.time_Hour) <= 0 ->
  GetUTCDay start < GetUTCDay end_ ->
  forall fuel, stats.dateBoundaries GetUTCDay fuel start end_ numDays = None.
Proof.
  intros Hn Hd Hlt fuel. unfold stats.dateBoundaries.
  replace (numDays <=? 0) with false by (symmetry; apply Z.leb_gt; lia).
  generalize dependent (stats.int64 (stats.int64 (numDays * 24) * stats.time_Hour)).
  intros d Hd. generalize (@nil Z).
  assert (H : forall b acc, b <= GetUTCDay start ->
            stats.dateBoundaries_loop fuel (GetUTCDay end_) d b acc = None).
  { induction fuel as [|fuel IH]; intros b acc Hb; [done|].
    cbn [stats.dateBoundaries_loop].
    replace (b <? GetUTCDay end_) with true by (symmetry; apply Z.ltb_lt; lia).
    apply IH. lia. }
  intros acc. apply H. lia.
Qed.

Lemma index_lookup {A : Type} (l : list A) (i : nat) (a : A) :
  l !! i = Some a -> stats.index l (Z.of_nat i) = Ret a.
Proof.
  intros H. unfold stats.index.
  replace (Z.of_nat i <? 0) with false by (symmetry; apply Z.ltb_ge; lia).
  by rewrite Nat2Z.id, H.
Qed.

Lemma set_index_insert {A : Type} (l : list A) (i : nat) (a : A) :
  (i < length l)%nat ->
  stats.set_index l (Z.of_nat i) a = Ret (<[i := a]> l).
Proof.
  intros H. unfold stats.set_index.
  replace (Z.of_nat i <? 0) with false by (symmetry; apply Z.ltb_ge; lia).
  replace (Z.of_nat (length l) <=? Z.of_nat i) with false
    by (symmetry; apply Z.leb_gt; lia).
  simpl. by rewrite Nat2Z.id.
Qed.

(** The loop of [buildAddFieldsDateStage] fills the branches from [i] on
    and leaves the others. *)
Lemma branches_loop_spec ref (bs : list Z) r i (brs : list stats.bson_M) :
  length brs = length bs -> (i + r < length bs)%nat ->
  stats.branches_loop ref bs r (Z.of_nat i) brs
  = Ret (take i brs
         ++ map (fun k => stats.inner_branch ref (nth k bs 0) (nth (S k) bs 0))
              (seq i r)
         ++ drop (i + r) brs).
Proof.
  revert i brs. induction r as [|r IH]; intros i brs Hlen Hlt.
  - simpl. by rewrite Nat.add_0_r, take_drop.
  - cbn [stats.branches_loop].
    destruct (lookup_lt_is_Some_2 bs i ltac:(lia)) as [lo Hlo].
    destruct (lookup_lt_is_Some_2 bs (S i) ltac:(lia)) as [hi Hhi].
    rewrite (index_lookup _ _ _ Hlo). cbn [mbind stats.outcome_bind].
    replace (Z.of_nat i + 1) with (Z.of_nat (S i)) by lia.
    rewrite (index_lookup _ _ _ Hhi). cbn [mbind stats.outcome_bind].
    rewrite set_index_insert by lia. cbn [mbind stats.outcome_bind].
    rewrite IH by (rewrite ?length_insert; lia).
    f_equal.
    rewrite (take_S_r _ _ (stats.inner_branch ref lo hi))
      by (apply list_lookup_insert_eq; lia).
    rewrite take_insert_ge by lia.
    rewrite drop_insert_lt by lia.
    rewrite <- app_assoc. cbn [seq map app].
    rewrite (nth_lookup_Some _ _ _ _ Hlo), (nth_lookup_Some _ _ _ _ Hhi).
    by replace (S i + r)%nat with (i + S r)%nat by lia.
Qed.

(** X18: with more than one day per period, [buildAddFieldsDateStage]
    panics when the start's day is not before the end's: there is no
    boundary, and the statement that fills the last branch indexes the
    empty slices at -1. *)
Theorem buildAddFieldsDateStage_panics_without_boundaries
    (GetUTCDay : Z -> Z) (fuel : nat) (fieldName inputDateFieldName : string)
    (start end_ numDays : Z) :
  1 < numDays -> GetUTCDay end_ <= GetUTCDay start ->
  stats.dateBoundaries GetUTCDay (S fuel) start end_ numDays = Some []
  /\ stats.buildAddFieldsDateStage GetUTCDay (S fuel) fieldName
       inputDateFieldName start end_ numDays
     = Some (Panic "index out of range").
Proof.
  intros Hn Hle.
  assert (Hb : stats.dateBoundaries GetUTCDay (S fuel) start end_ numDays
               = Some []).
  { unfold stats.dateBoundaries. cbn [stats.dateBoundaries_loop].
    by replace (GetUTCDay start <? GetUTCDay end_) with false
      by (symmetry; apply Z.ltb_ge; lia). }
  split; [done|]. unfold stats.buildAddFieldsDateStage.
  replace (numDays <=? 1) with false by (symmetry; apply Z.leb_gt; lia).
  by rewrite Hb.
Qed.

(** X19: with between 2 and 106751 days per period and the start's day
    before the end's, [buildAddFieldsDateStage] returns a [$switch] with
    one branch per boundary, in order: each branch but the last selects
    the dates from its boundary up to the next one, the last branch all
    the dates from the last boundary on, and each gives its boundary. *)
Theorem buildAddFieldsDateStage_branches
    (GetUTCDay : Z -> Z) (fuel : nat) (fieldName inputDateFieldName : string)
    (start end_ numDays : Z) :
  1 < numDays <= 106751 -> GetUTCDay start < GetUTCDay end_ ->
  let d := numDays * 86400000000000 in
  let s := GetUTCDay start in
  let e := GetUTCDay end_ in
  let n := Z.to_nat ((e - s + d - 1) / d) in
  let ref := "$" +:+ inputDateFieldName in
  (n < fuel)%nat ->
  (1 <= n)%nat
  /\ stats.buildAddFieldsDateStage GetUTCDay fuel fieldName
       inputDateFieldName start end_ numDays
     = Some (Ret {[ "$addFields" :=
          stats.BDoc {[ fieldName :=
            stats.BDoc {[ "$switch" :=
              stats.BDoc {[ "branches" :=
                stats.BArray (stats.BDoc <$>
                  (map (fun k => stats.inner_branch ref
                                   (s + Z.of_nat k * d)
                                   (s + Z.of_nat (S k) * d))
                     (seq 0 (n - 1))
                   ++ [stats.last_branch ref
                         (s + Z.of_nat (n - 1) * d)])) ]} ]} ]} ]}).
Proof.
  intros Hn Hlt d s e n ref Hf.
  assert (Hd : 0 < d) by (unfold d; lia).
  assert (Hq : 0 < (e - s + d - 1) / d).
  { apply Z.div_str_pos. unfold s, e. lia. }
  assert (Hn1 : (1 <= n)%nat) by (unfold n; lia).
  split; [done|].
  unfold stats.buildAddFieldsDateStage.
  replace (numDays <=? 1) with false by (symmetry; apply Z.leb_gt; lia).
  pose proof (dateBoundaries_closed GetUTCDay start end_ numDays fuel
                ltac:(lia)) as Hb.
  cbv zeta in Hb. replace (Z.max 1 numDays) with numDays in Hb by lia.
  fold d s e in Hb.
  replace (Z.to_nat (Z.max 0 ((e - s + d - 1) / d))) with n in Hb
    by (unfold n; lia).
  rewrite (Hb Hf). clear Hb.
  set (bs := map (fun k => s + Z.of_nat k * d) (seq 0 n)).
  assert (Hlen : length bs = n) by (unfold bs; by rewrite length_map, length_seq).
  assert (Hbs : forall k, (k < n)%nat -> bs !! k = Some (s + Z.of_nat k * d)).
  { intros k Hk. unfold bs.
    change (map ?f ?l) with (f <$> l).
    rewrite list_lookup_fmap, lookup_seq_lt by done. done. }
  rewrite Hlen.
  pose proof (branches_loop_spec ref bs (n - 1) 0 (replicate n ∅)) as Hl.
  rewrite length_replicate in Hl. change (Z.of_nat 0) with 0 in Hl.
  fold ref.
  rewrite Hl by lia. clear Hl.
  rewrite take_0, Nat.add_0_l, app_nil_l. cbn [mbind stats.outcome_bind].
  replace (Z.of_nat n - 1) with (Z.of_nat (n - 1)) by lia.
  rewrite (index_lookup _ _ _ (Hbs (n - 1)%nat ltac:(lia))).
  cbn [mbind stats.outcome_bind].
  rewrite drop_replicate. replace (n - (n - 1))%nat with 1%nat by lia.
  rewrite set_index_insert
    by (rewrite length_app, length_map, length_seq; simpl; lia).
  cbn [mbind stats.outcome_bind].
  rewrite insert_app_r_alt by (rewrite length_map, length_seq; lia).
  rewrite length_map, length_seq, Nat.sub_diag. simpl.
  assert (Hmap :
    map (fun k => stats.inner_branch ref (nth k bs 0) (nth (S k) bs 0))
      (seq 0 (n - 1))
    = map (fun k => stats.inner_branch ref (s + Z.of_nat k * d)
                      (s + Z.of_nat (S k) * d))
        (seq 0 (n - 1))).
  { apply map_ext_in. intros k Hk%in_seq.
    rewrite (nth_lookup_Some _ _ _ _ (Hbs k ltac:(lia))).
    rewrite (nth_lookup_Some _ _ _ _ (Hbs (S k) ltac:(lia))). done. }
  by rewrite Hmap.
Qed.

(** ** Concrete runs for the further properties *)

Lemma Start_opens_streams_in_order_witness :
  let s := after cedar_ok demo2 sched_three in
  reachable cedar_ok demo2 s
  /\ (CallStart, None) ∈ returns s
  /\ opened s = expected_opened demo2 "rec1"
  /\ created s = [taskOpts demo2]
  /\ length (sups s) = 2%nat.
Proof.
  cbv zeta.
  assert (Hr : reachable cedar_ok demo2 (after cedar_ok demo2 sched_three)).
  { apply reachable_after. vm_compute. by eexists. }
  assert (Hs : (CallStart, None) ∈ returns (after cedar_ok demo2 sched_three)).
  { vm_compute. apply list_elem_of_here. }
  destruct (Start_opens_streams_in_order cedar_ok demo2 _ Hr)
    as (_ & _ & _ & C).
  destruct (C Hs) as (C1 & C2 & C3).
  splits; [exact Hr | exact Hs | exact C1 | exact C2 | exact C3].
Defined.

Lemma Close_without_watcher_panics_witness :
  reachable cedar_ok demo2 init
  /\ watcher init = WNone /\ panicked init = false
  /\ exists s1 s2,
       step cedar_ok demo2 ACallClose init = Some s1
       /\ step cedar_ok demo2 AMain s1 = Some s2
       /\ panicked s2 = true /\ session_closes s2 = []
       /\ client_closes s2 = 0%nat.
Proof.
  assert (Hr : reachable cedar_ok demo2 init) by (by exists []).
  destruct (Close_without_watcher_panics cedar_ok demo2 init Hr eq_refl eq_refl
              (or_introl eq_refl))
    as (s1 & s2 & C1 & C2 & C3 & C4 & C5 & _).
  splits; fin. by exists s1, s2.
Defined.

Lemma wait_groups_never_underflow_witness :
  let s := after cedar_ok demo2 sched_three in
  reachable cedar_ok demo2 s
  /\ stream_wg s = 1
  /\ stream_wg s = Z.of_nat (live_count (sups s))
  /\ (close_wg s = 0 \/ close_wg s = 1).
Proof.
  cbv zeta.
  assert (Hr : reachable cedar_ok demo2 (after cedar_ok demo2 sched_three)).
  { apply reachable_after. vm_compute. by eexists. }
  destruct (wait_groups_never_underflow cedar_ok demo2 _ Hr)
    as (C1 & _ & C3 & _).
  splits; [exact Hr | by_run | exact C1 | exact C3].
Defined.

Lemma records_are_append_only_witness :
  let s := after cedar_ok demo2 sched_three in
  let s' := after cedar_ok demo2 sched_closed in
  run cedar_ok demo2
    [ACallClose; AMain; ASup 0 First; ASup 0 First; ASup 0 First;
     AWatch Second; AWatch First; AWatch First; AWatch First; AMain] s
  = Some s'
  /\ catcher s = [disk_error] /\ extends s s'.
Proof.
  cbv zeta.
  match goal with |- ?r = _ /\ _ => assert (Hrun : r = Some (after cedar_ok demo2 sched_closed)) by by_run end.
  split; [exact Hrun|]. split; [by_run|].
  exact (records_are_append_only cedar_ok demo2 _ _ _ Hrun).
Defined.

Lemma cedar_ok_faultless : faultless cedar_ok (demo_collector [uptime]).
Proof.
  unfold faultless. splits; try done.
  - intros i k. by exists tt.
  - intros [|i] mc k; simpl; [|done]. intros [= <-].
    destruct k as [|[|k]]; by eexists.
Qed.

Lemma faultless_run_records_no_error_witness :
  let c := demo_collector [uptime] in
  let s := after cedar_ok c sched_empty_id in
  faultless cedar_ok c /\ reachable cedar_ok c s
  /\ session_closes s = [("rec1", false)]
  /\ no_errors_yet s.
Proof.
  cbv zeta.
  assert (Hr : reachable cedar_ok (demo_collector [uptime])
                 (after cedar_ok (demo_collector [uptime]) sched_empty_id)).
  { apply reachable_after. vm_compute. by eexists. }
  splits; [exact cedar_ok_faultless | exact Hr | by_run |].
  exact (faultless_run_records_no_error cedar_ok _ _ cedar_ok_faultless Hr).
Defined.

Lemma faultless_collector_starts_and_closes_witness :
  let c := demo_collector [uptime] in
  faultless cedar_ok c /\ is_Some (client c)
  /\ exists acts s,
       run cedar_ok c acts init = Some s
       /\ returns s = [(CallStart, None); (CallClose, None)]
       /\ length (sups s) = 1%nat
       /\ client_closes s = 1%nat.
Proof.
  cbv zeta.
  assert (Hc : is_Some (client (demo_collector [uptime]))) by (by eexists).
  destruct (faultless_collector_starts_and_closes cedar_ok
              (demo_collector [uptime]) cedar_ok_faultless Hc)
    as (acts & s & C1 & C2 & _ & _ & _ & _ & _ & C8 & _ & _ & C11).
  split; [exact cedar_ok_faultless|]. split; [exact Hc|].
  exists acts, s. splits; [exact C1 | exact C2 | exact C8 | exact C11].
Defined.

Lemma closed_stream_is_left_alone_witness :
  let s := after cedar_ok demo2 sched_three in
  let g := {| spc := SDone; timer := None; ncollect := 2;
              writes := [[x64]]; collected_at := [2; 0];
              stream_closes := 1 |} in
  reachable cedar_ok demo2 s
  /\ sups s !! 1%nat = Some g
  /\ exists g',
       sups (after cedar_ok demo2 sched_closed) !! 1%nat = Some g'
       /\ writes g' = [[x64]] /\ stream_closes g' = 1%nat.
Proof.
  cbv zeta.
  assert (Hr : reachable cedar_ok demo2 (after cedar_ok demo2 sched_three)).
  { apply reachable_after. vm_compute. by eexists. }
  match goal with |- _ /\ _ !! _ = Some ?g0 /\ _ => set (g := g0) end.
  assert (Hg : sups (after cedar_ok demo2 sched_three) !! 1%nat = Some g)
    by by_run.
  assert (Hrun : run cedar_ok demo2
            [ACallClose; AMain; ASup 0 First; ASup 0 First; ASup 0 First;
             AWatch Second; AWatch First; AWatch First; AWatch First; AMain]
            (after cedar_ok demo2 sched_three)
          = Some (after cedar_ok demo2 sched_closed)) by by_run.
  assert (Hc : stream_closes g <> 0%nat) by (simpl; lia).
  destruct (closed_stream_is_left_alone cedar_ok demo2 _ _ _ 1%nat g
              Hr Hg Hc Hrun) as (g' & C1 & C2 & _ & _ & C5).
  splits; [exact Hr | exact Hg |]. exists g'. splits; fin.
Defined.

Lemma timedCollect_collects_when_timer_fires_witness :
  let s := after cedar_ok demo2 sched_three in
  let g := {| spc := SLoop; timer := Some 6; ncollect := 3;
              writes := [[x01]; [x02]; [x03]]; collected_at := [4; 2; 0];
              stream_closes := 0 |} in
  reachable cedar_ok demo2 s /\ panicked s = false
  /\ sups s !! 0%nat = Some g /\ now s = 4
  /\ exists d, timer g = Some d
       /\ (now s < d -> step cedar_ok demo2 (ASup 0 Second) s = None)
       /\ exists s1 s2 g2,
            run cedar_ok demo2 (replicate (Z.to_nat (d - now s)) ATick) s
              = Some s1
            /\ step cedar_ok demo2 (ASup 0 Second) s1 = Some s2
            /\ sups s2 !! 0%nat = Some g2
            /\ ncollect g2 = 4%nat.
Proof.
  cbv zeta.
  assert (Hr : reachable cedar_ok demo2 (after cedar_ok demo2 sched_three)).
  { apply reachable_after. vm_compute. by eexists. }
  match goal with |- _ /\ _ /\ _ !! _ = Some ?g0 /\ _ => set (g := g0) end.
  assert (Hp : panicked (after cedar_ok demo2 sched_three) = false) by by_run.
  assert (Hg : sups (after cedar_ok demo2 sched_three) !! 0%nat = Some g)
    by by_run.
  destruct (timedCollect_collects_when_timer_fires cedar_ok demo2 _ 0%nat g
              Hr Hp Hg eq_refl)
    as (d & C1 & C2 & s1 & s2 & g2 & C3 & _ & C5 & C6 & C7 & _).
  splits; [exact Hr | exact Hp | exact Hg | by_run |].
  exists d. splits; [exact C1 | exact C2 |].
  exists s1, s2, g2. splits; [exact C3 | exact C5 | exact C6 | exact C7].
Defined.

Lemma failed_stream_open_leaves_session_open_witness :
  let s := after cedar_no_second_stream demo2 [ACallStart; AMain] in
  reachable cedar_no_second_stream demo2 s
  /\ panicked s = false /\ main s = MStartLoop 1
  /\ collectors demo2 !! 1%nat = Some disk
  /\ StreamSystemMetrics cedar_no_second_stream 1 = Some (ErrNew "stream refused")
  /\ exists s',
       step cedar_no_second_stream demo2 AMain s = Some s'
       /\ watcher s' = WNone /\ length (sups s') = 1%nat
       /\ forall acts s'',
            run cedar_no_second_stream demo2 acts s' = Some s'' ->
            session_closes s'' = [] /\ client_closes s'' = 0%nat.
Proof.
  cbv zeta.
  assert (Hr : reachable cedar_no_second_stream demo2
                 (after cedar_no_second_stream demo2 [ACallStart; AMain])).
  { apply reachable_after. vm_compute. by eexists. }
  destruct (failed_stream_open_leaves_session_open cedar_no_second_stream
              demo2 _ 1%nat disk (ErrNew "stream refused")
              Hr eq_refl eq_refl eq_refl eq_refl)
    as (s' & C1 & _ & _ & C4 & C5 & _ & C7).
  splits; try reflexivity; [exact Hr|].
  exists s'. splits; [exact C1 | exact C4 | exact C5 |].
  intros acts s'' Hrun. destruct (C7 acts s'' Hrun) as (_ & _ & D1 & D2 & _).
  by split.
Defined.

Lemma nothing_recorded_after_cleanup_witness :
  let s := after cedar_ok demo2 sched_closed in
  let s' := after cedar_ok demo2 (sched_closed ++ [ACallClose; ATick]) in
  reachable cedar_ok demo2 s /\ closed s = true
  /\ run cedar_ok demo2 [ACallClose; ATick] s = Some s'
  /\ catcher s = [disk_error] /\ catcher s' = catcher s
  /\ session_closes s' = session_closes s
  /\ client_closes s' = client_closes s.
Proof.
  cbv zeta.
  assert (Hr : reachable cedar_ok demo2 (after cedar_ok demo2 sched_closed)).
  { apply reachable_after. vm_compute. by eexists. }
  assert (Hc : closed (after cedar_ok demo2 sched_closed) = true) by by_run.
  assert (Hrun : run cedar_ok demo2 [ACallClose; ATick]
                   (after cedar_ok demo2 sched_closed)
                 = Some (after cedar_ok demo2
                           (sched_closed ++ [ACallClose; ATick]))) by by_run.
  destruct (nothing_recorded_after_cleanup cedar_ok demo2 _ _ _ Hr Hc Hrun)
    as (_ & C2 & C3 & C4 & _).
  splits; [exact Hr | exact Hc | exact Hrun | by_run | exact C2 | exact C3
           | exact C4].
Defined.

(** ** Concrete inputs for the stats helpers *)

Lemma buildPaginationOrBranches_branches_witness :
  NoDup (stats.Field <$> demo_fields)
  /\ length (stats.buildPaginationOrBranches demo_fields) = 3%nat
  /\ exists branch,
       stats.buildPaginationOrBranches demo_fields !! 2%nat = Some branch
       /\ branch !! "_id.test_file"
          = Some (stats.BDoc {["$gt" := stats.BStr "a.js"]})
       /\ branch !! "_id.date" = Some (stats.BTime (day 3))
       /\ branch !! "_id.task_name" = Some (stats.BStr "compile")
       /\ branch !! "_id.distro" = None.
Proof.
  assert (Hnd : NoDup (stats.Field <$> demo_fields)).
  { apply (bool_decide_unpack _). vm_compute. reflexivity. }
  destruct (buildPaginationOrBranches_branches demo_fields Hnd) as [C1 C2].
  destruct (C2 2%nat _ eq_refl) as (branch & B1 & B2 & B3 & _ & B5).
  split; [exact Hnd|]. split; [exact C1|].
  exists branch. split; [exact B1|]. split; [exact B2|].
  split; [exact (B3 0%nat _ eq_refl ltac:(lia))|].
  split; [exact (B3 1%nat _ eq_refl ltac:(lia))|].
  apply B5. apply (bool_decide_unpack _). vm_compute. reflexivity.
Defined.

Lemma dateBoundaries_buckets_witness :
  stats.dateBoundaries utc_day 5 (day 0 + 5) (day 10 + 7) 3
  = Some [day 0; day 3; day 6; day 9]
  /\ forall b, b ∈ [day 0; day 3; day 6; day 9] -> day 0 <= b < day 10.
Proof.
  destruct (dateBoundaries_buckets utc_day (day 0 + 5) (day 10 + 7) 3 5
              ltac:(lia) ltac:(vm_compute; lia)) as (C1 & _ & C3).
  split; [exact C1 | exact C3].
Defined.

Lemma dateBoundaries_never_returns_witness :
  (forall fuel,
     stats.dateBoundaries utc_day fuel (day 0) (day 10) 106752 = None)
  /\ (forall fuel,
        stats.dateBoundaries utc_day fuel (day 0) (day 10) (2 ^ 48) = None).
Proof.
  split.
  - apply dateBoundaries_never_returns; [lia | vm_compute; discriminate
                                         | vm_compute; reflexivity].
  - apply dateBoundaries_never_returns; [lia | vm_compute; discriminate
                                         | vm_compute; reflexivity].
Defined.

Lemma buildAddFieldsDateStage_panics_without_boundaries_witness :
  stats.buildAddFieldsDateStage utc_day 1 "date" "_id.date"
    (day 4 + 9) (day 4 + 2) 7
  = Some (Panic "index out of range").
Proof.
  exact (proj2 (buildAddFieldsDateStage_panics_without_boundaries utc_day
                  0 "date" "_id.date" (day 4 + 9) (day 4 + 2) 7
                  ltac:(lia) ltac:(vm_compute; discriminate))).
Defined.

Lemma buildAddFieldsDateStage_branches_witness :
  stats.buildAddFieldsDateStage utc_day 5 "date" "_id.date"
    (day 0 + 5) (day 10 + 7) 3
  = Some (Ret {[ "$addFields" :=
       stats.BDoc {[ "date" :=
         stats.BDoc {[ "$switch" :=
           stats.BDoc {[ "branches" :=
             stats.BArray (stats.BDoc <$>
               [stats.inner_branch "$_id.date" (day 0) (day 3);
                stats.inner_branch "$_id.date" (day 3) (day 6);
                stats.inner_branch "$_id.date" (day 6) (day 9);
                stats.last_branch "$_id.date" (day 9)]) ]} ]} ]} ]}).
Proof.
  destruct (buildAddFieldsDateStage_branches utc_day 5 "date" "_id.date"
              (day 0 + 5) (day 10 + 7) 3
              ltac:(lia) ltac:(vm_compute; reflexivity)
              ltac:(vm_compute; lia)) as [_ C].
  exact C.
Defined.

Lemma aggregateWithCallback_stops_at_first_failure_witness :
  exists m, (m <= 3)%nat
    /\ snd (stats.aggregateWithCallback demo_db 0 "tasks" []
              (stats.writer_Append demo_db))
       = [stats.EvGetSession; stats.EvSetSocketTimeout 0 0;
          stats.EvPipe 0 "tasks" []]
         ++ (stats.EvCallback <$> take m ["d0"; "d1"; "d2"])
         ++ [stats.EvSessionClose 0]
    /\ exists e, stats.writer_Append demo_db (m - 1) "d1" = Some e
         /\ fst (stats.aggregateWithCallback demo_db 0 "tasks" []
                   (stats.writer_Append demo_db))
            = Some (ErrWrap e "A callback call failed").
Proof.
  pose proof (aggregateWithCallback_stops_at_first_failure demo_db 0 "tasks" []
                (stats.writer_Append demo_db)) as H.
  cbv zeta in H.
  change (stats.GetSession demo_db 0) with (@None error) in H.
  cbv iota in H. destruct H as (m & H1 & H2 & _ & H4).
  exists m. split; [exact H1|]. split; [exact H2|].
  change (fst (stats.aggregateWithCallback demo_db 0 "tasks" []
                 (stats.writer_Append demo_db)))
    with (Some (ErrWrap (ErrNew "write refused") "A callback call failed"))
    in H4.
  cbv iota in H4.
  destruct H4 as [(j & raw & e & -> & Hj & Hcb & He)|(_ & Hall & _)].
  - exists e. replace (S j - 1)%nat with j by lia.
    destruct j as [|[|[|j]]]; try discriminate.
    split; [exact Hcb|]. rewrite <- He. reflexivity.
  - discriminate (Hall 1%nat "d1" eq_refl).
Defined.

Lemma aggregateIntoCollection_flushes_only_on_success_witness :
  let r := fst (stats.aggregateIntoCollection demo_db 0 "tasks" [] "daily") in
  let tr := snd (stats.aggregateIntoCollection demo_db 0 "tasks" [] "daily") in
  r = Some (ErrWrap (ErrWrap (ErrNew "write refused") "A callback call failed")
              "Failed to aggregate with document writer callback")
  /\ stats.callbacks tr = ["d0"; "d1"]
  /\ (stats.EvWriterClose ∉ tr)
  /\ (forall k, stats.EvSessionClose k ∈ tr <-> k = 0%nat \/ k = 1%nat).
Proof.
  cbv zeta.
  destruct (aggregateIntoCollection_flushes_only_on_success demo_db 0 "tasks"
              [] "daily") as (_ & _ & _ & C4 & C5).
  destruct (C4 1%nat "d1" (ErrNew "write refused")
              (conj eq_refl (conj eq_refl eq_refl)) eq_refl eq_refl)
    as (D1 & D2 & D3).
  { intros [|i] raw' Hi Hraw; [reflexivity | lia]. }
  split; [exact D1|]. split; [exact D2|]. split; [exact D3|].
  intros k. rewrite (C5 k). split.
  - intros [[-> _]|[-> _]]; [by left | by right].
  - intros [->| ->]; [left | right]; split; try reflexivity.
    by repeat split.
Defined.
